(** * US population dashboard: the data-transform core of [streamlit_app.py]

    The dashboard script is a presentation layer over one table; its logic is
    the number formatter [format_number], the year-over-year calculator
    [calculate_population_difference], the ranking view
    [df_selected_year_sorted] and the two migration percentages
    [states_migration_greater] / [states_migration_less].

    The script is Python over pandas.  This development embeds

    - Python integers as [Z], Python and numpy floats as binary64 values (a
      signed integer mantissa times a power of two, every arithmetic result
      rounded to nearest, ties to even), Python exceptions as a [result]
      type;
    - a data frame as the list of its rows, in index order; a missing cell
      (NaN) as [None]; a column of integers with the dtype pandas gives it
      ([int64], [uint64] or [object]), whose arithmetic wraps around, and
      which alignment on a different index turns into float64;
    - [DataFrame.sort_values] with its default [kind='quicksort'] through the
      contract pandas documents for it (a permutation of the rows, ordered by
      the key; the order of rows with equal keys is not fixed), as the
      interface [SortKernel], and through numpy's quicksort itself, as the
      instance [kernel_numpy]. *)

From Stdlib Require Import ZArith List String Ascii Bool Lia Permutation Sorted.
From Stdlib Require Import DecimalString.
Import ListNotations.
Open Scope Z_scope.

(** ** Python values *)

Module Py.

Inductive exn : Type :=
| ZeroDivisionError
| OverflowError
| ValueError.

Inductive result (A : Type) : Type :=
| Ok (a : A)
| Raise (e : exn).
Arguments Ok {A} a.
Arguments Raise {A} e.

Definition bind {A B : Type} (r : result A) (k : A -> result B) : result B :=
  match r with
  | Ok a => k a
  | Raise e => Raise e
  end.

Notation "x <- r ;; k" := (bind r (fun x => k))
  (at level 61, r at next level, right associativity).

(** The decimal digits of an integer, with its sign. *)
Definition str_int (n : Z) : string := NilZero.string_of_int (Z.to_int n).

(** [str(n)] for an integer, as an f-string prints it: CPython refuses to
    convert an integer of more than [sys.int_max_str_digits] digits, 4300
    unless it is configured otherwise, and raises [ValueError]. *)
Definition int_max_str_digits : Z := 4300.

Definition format_int (n : Z) : result string :=
  if 10 ^ int_max_str_digits <=? Z.abs n then Raise ValueError
  else Ok (str_int n).

(** *** binary64

    A finite float [Fin m e] has the value [m * 2^e]; [Inf] is the infinity a
    product overflows to.  [fnum x / fden x] is the value of a finite [x] as
    a fraction of integers. *)
Inductive float : Type :=
| Fin (m e : Z)
| Inf (negative : bool).

Definition fnum (x : float) : Z :=
  match x with
  | Fin m e => m * 2 ^ Z.max e 0
  | Inf _ => 0
  end.

Definition fden (x : float) : Z :=
  match x with
  | Fin m e => 2 ^ Z.max (- e) 0
  | Inf _ => 1
  end.

(** Nearest integer to [a / b] for [0 < b], a tie going to the even one. *)
Definition rne_div (a b : Z) : Z :=
  let q := a / b in
  let r := a mod b in
  if 2 * r <? b then q
  else if b <? 2 * r then q + 1
  else if Z.even q then q else q + 1.

(** [a / b] scaled by [2^(-e)], as a fraction. *)
Definition scaled (a b e : Z) : Z * Z :=
  (a * 2 ^ Z.max (- e) 0, b * 2 ^ Z.max e 0).

(** The mantissa of [a / b] at exponent [e]. *)
Definition mant_at (a b e : Z) : Z :=
  rne_div (fst (scaled a b e)) (snd (scaled a b e)).

(** The exponent at which [a / b] has a 53-bit mantissa, not below the
    exponent of the subnormal numbers. *)
Definition exp_of (a b : Z) : Z :=
  let e0 := Z.max (Z.log2 a - Z.log2 b - 53) (- 1074) in
  if fst (scaled a b e0) <? snd (scaled a b e0) * 2 ^ 53 then e0 else e0 + 1.

(** Round-to-nearest-even of the fraction [a / b], [0 <= a], [0 < b], to
    binary64; what reaches [2^1024] overflows. *)
Definition round64 (a b : Z) : float :=
  if a =? 0 then Fin 0 0
  else
    let e := exp_of a b in
    let m := mant_at a b e in
    if (971 <? e) || ((e =? 971) && (m =? 2 ^ 53)) then Inf false
    else Fin m e.

Definition fneg (x : float) : float :=
  match x with
  | Fin m e => Fin (- m) e
  | Inf s => Inf (negb s)
  end.

Definition round64_signed (a b : Z) : float :=
  if (a <? 0) then fneg (round64 (- a) b) else round64 a b.

(** [a / b] on integers: true division, correctly rounded; raises on a zero
    divisor and when the quotient is too large for a float. *)
Definition truediv (a b : Z) : result float :=
  if b =? 0 then Raise ZeroDivisionError
  else
    match round64_signed (a * Z.sgn b) (Z.abs b) with
    | Inf _ => Raise OverflowError
    | x => Ok x
    end.

(** [float(n)] for an integer that fits. *)
Definition float_of_int (n : Z) : float := round64_signed n 1.

(** [x * y] on floats. *)
Definition fmul (x y : float) : float :=
  match x, y with
  | Fin m1 e1, Fin m2 e2 =>
      round64_signed (m1 * m2 * 2 ^ Z.max (e1 + e2) 0) (2 ^ Z.max (- (e1 + e2)) 0)
  | Inf s, Fin m _ => Inf (xorb s (m <? 0))
  | Fin m _, Inf s => Inf (xorb s (m <? 0))
  | Inf s1, Inf s2 => Inf (xorb s1 s2)
  end.

(** [x / y] on floats, for a divisor that is not zero and operands that
    are not both infinite. *)
Definition fdiv (x y : float) : float :=
  match x, y with
  | Fin m1 e1, Fin m2 e2 =>
      round64_signed
        (m1 * 2 ^ Z.max e1 0 * 2 ^ Z.max (- e2) 0 * Z.sgn m2)
        (2 ^ Z.max (- e1) 0 * (Z.abs m2 * 2 ^ Z.max e2 0))
  | Inf s, Fin m _ => Inf (xorb s (m <? 0))
  | Fin _ _, Inf _ => Fin 0 0
  | Inf s1, Inf s2 => Inf (xorb s1 s2)
  end.

(** [x - y] on floats, for operands that are not infinities of the same
    sign. *)
Definition fsub (x y : float) : float :=
  match x, y with
  | Fin m1 e1, Fin m2 e2 =>
      let e := Z.min e1 e2 in
      round64_signed
        ((m1 * 2 ^ (e1 - e) - m2 * 2 ^ (e2 - e)) * 2 ^ Z.max e 0)
        (2 ^ Z.max (- e) 0)
  | Inf s, Fin _ _ => Inf s
  | Fin _ _, Inf s => Inf (negb s)
  | Inf s1, Inf s2 => Inf s1
  end.

(** Two finite floats with the same value. *)
Definition feqb (x y : float) : bool :=
  match x, y with
  | Fin _ _, Fin _ _ => fnum x * fden y =? fnum y * fden x
  | Inf s1, Inf s2 => Bool.eqb s1 s2
  | _, _ => false
  end.

(** [x < y] on floats. *)
Definition fltb (x y : float) : bool :=
  match x, y with
  | Fin _ _, Fin _ _ => fnum x * fden y <? fnum y * fden x
  | Inf s, Fin _ _ => s
  | Fin _ _, Inf s => negb s
  | Inf s1, Inf s2 => s1 && negb s2
  end.

Definition fis_zero (x : float) : bool :=
  match x with
  | Fin m _ => m =? 0
  | Inf _ => false
  end.

(** [x + y] on floats, for operands that are not infinities of opposite
    signs. *)
Definition fadd (x y : float) : float := fsub x (fneg y).

(** C's [fmod(x, y)] for a finite [x] and [y <> 0]: what is left of [x]
    after the multiples of [y] are taken out of it, with the sign of [x].
    The result is a float: nothing is rounded. *)
Definition fmod (x y : float) : float :=
  match x, y with
  | Fin _ _, Fin _ _ =>
      let a := Z.abs (fnum x) * fden y in
      let b := Z.abs (fnum y) * fden x in
      round64_signed (Z.sgn (fnum x) * (a mod b)) (fden x * fden y)
  | _, _ => x
  end.

(** [floor(x)]. *)
Definition ffloor (x : float) : float :=
  match x with
  | Fin _ _ => round64_signed (fnum x / fden x) 1
  | Inf _ => x
  end.

(** The integer a float with an integer value stands for. *)
Definition int_of_float (x : float) : Z := fnum x / fden x.

(** [round(x)]: the nearest integer, a tie going to the even one. *)
Definition round (x : float) : result Z :=
  match x with
  | Fin _ _ => Ok (rne_div (fnum x) (fden x))
  | Inf _ => Raise OverflowError
  end.

(** [round(x, 1)] in tenths: the integer [t] such that [t / 10] is the
    one-decimal number nearest to the value of [x], a tie (of the binary
    value) going to the even tenth.  [round(x, 1)] is the float nearest to
    [t / 10], [round64 t 10]. *)
Definition round1_tenths (x : float) : Z := rne_div (10 * fnum x) (fden x).

(** *** Printing a float

    [repr] prints the shortest digit string that reads back as the same
    float, positionally below [1e16] and with an exponent from there on. *)

(** The shortest number of significant digits, tried from [d] upwards, at
    which the integer [v] of [p] digits reads back as [round64 v 1]; the
    answer is the rounded digit block and the power of ten it is scaled by. *)
Fixpoint shortest_digits (fuel : nat) (v p d : Z) : Z * Z :=
  match fuel with
  | O => (v, 0)
  | S fuel' =>
      let k := Z.max (p - d) 0 in
      let block := rne_div v (10 ^ k) in
      if feqb (round64 (block * 10 ^ k) 1) (round64 v 1) then (block, k)
      else shortest_digits fuel' v p (d + 1)
  end.

Fixpoint strip_zeros_rev (s : list ascii) : list ascii :=
  match s with
  | "0"%char :: s' => strip_zeros_rev s'
  | _ => s
  end.

Definition strip_trailing_zeros (s : string) : string :=
  string_of_list_ascii (rev (strip_zeros_rev (rev (list_ascii_of_string s)))).

(** The exponent form of an integer-valued float [v >= 1e16]:
    [d.ddd] followed by [e+XX]. *)
Definition repr_exponent (v : Z) : string :=
  let p := Z.of_nat (String.length (str_int v)) in
  let '(block, k) := shortest_digits 17 v p 1 in
  let digits := str_int block in
  let e := Z.of_nat (String.length digits) - 1 + k in
  let lead := match digits with
              | String c _ => String c EmptyString
              | EmptyString => EmptyString
              end in
  let rest := match strip_trailing_zeros digits with
              | String _ r => r
              | EmptyString => EmptyString
              end in
  (lead ++ (if String.eqb rest EmptyString then EmptyString else "." ++ rest)
        ++ "e+" ++ (if (e <? 10)%Z then "0" else EmptyString) ++ str_int e)%string.

(** [f'{round(x, 1)}'] for a float [x >= 0]: [round(x, 1)] is the float
    nearest to [t / 10] for [t = round1_tenths x], and below [1e16] its
    shortest digit string is that one-decimal numeral again. *)
Definition fstr_round1 (x : float) : string :=
  match x with
  | Inf _ => "inf"%string
  | Fin _ _ =>
      let t := round1_tenths x in
      if t <? 10 ^ 17
      then (str_int (t / 10)%Z ++ "." ++ str_int (t mod 10)%Z)%string
      else repr_exponent (t / 10)
  end.

End Py.

Import Py.

(** ** The table

    [df_reshaped] is the CSV as read: one row per state and year. *)

Record Row : Type := mkRow {
  states : string;
  states_code : string;
  id : Z;
  year : Z;
  population : Z
}.

(** ** pandas *)

(** [DataFrame.sort_values(by=..., ascending=False)].  The script leaves
    [kind] at its default, ['quicksort'], which pandas documents as not
    stable; which order rows with equal keys come out in depends on the numpy
    kernel underneath.  What the call guarantees is the contract below. *)
Class SortKernel : Type := {
  sort_values_desc : forall {A : Type}, (A -> Z) -> list A -> list A;
  sort_values_perm :
    forall (A : Type) (by_ : A -> Z) (l : list A),
      Permutation l (sort_values_desc by_ l);
  sort_values_sorted :
    forall (A : Type) (by_ : A -> Z) (l : list A),
      StronglySorted (fun a b => by_ a >= by_ b) (sort_values_desc by_ l)
}.

(** A first kernel: insertion of each row before the first row that has to
    come after it.  [insert_desc Z.ltb] keeps rows with equal keys in input
    order (what numpy's quicksort does on short arrays, where it is an
    insertion sort). *)
Fixpoint insert_desc {A : Type} (after : Z -> Z -> bool) (by_ : A -> Z)
    (x : A) (l : list A) : list A :=
  match l with
  | [] => [x]
  | y :: l' =>
      if after (by_ x) (by_ y) then y :: insert_desc after by_ x l'
      else x :: l
  end.

Definition isort_desc {A : Type} (after : Z -> Z -> bool) (by_ : A -> Z)
    (l : list A) : list A :=
  fold_right (insert_desc after by_) [] l.

(** The kernel pandas runs: [nargsort] hands the keys to numpy's
    [argsort] with [kind='quicksort'], the introsort of
    [npysort/quicksort.cpp] (the generic one, which the builds without a
    vectorised sort for the key type run). *)

Module NumPy.

(** An array of positions, read and written at a position. *)
Definition get (t : list Z) (i : Z) : Z := nth (Z.to_nat i) t 0.

Fixpoint set_nat (t : list Z) (i : nat) (x : Z) : list Z :=
  match t, i with
  | [], _ => []
  | _ :: t', O => x :: t'
  | y :: t', S i' => y :: set_nat t' i' x
  end.

Definition set (t : list Z) (i x : Z) : list Z :=
  if i <? 0 then t else set_nat t (Z.to_nat i) x.

Definition swap (t : list Z) (i j : Z) : list Z :=
  let a := get t i in
  let b := get t j in
  set (set t i b) j a.

Section Keys.

(** The keys [v]; [tosort] holds positions of [v]. *)
Variable v : list Z.

Definition key (i : Z) : Z := nth (Z.to_nat i) v 0.

(** [npy_get_msb]. *)
Definition msb (n : Z) : Z := Z.log2 n.

(** *** Insertion sort of [tosort[pl..pr]] *)

Fixpoint shift_down (fuel : nat) (pl : Z) (t : list Z) (pj vi : Z) : list Z :=
  match fuel with
  | O => set t pj vi
  | S fuel' =>
      if (pl <? pj) && (key vi <? key (get t (pj - 1)))
      then shift_down fuel' pl (set t pj (get t (pj - 1))) (pj - 1) vi
      else set t pj vi
  end.

Fixpoint insertion (fuel : nat) (pl pr : Z) (t : list Z) (pi : Z) : list Z :=
  match fuel with
  | O => t
  | S fuel' =>
      if pi <=? pr
      then insertion fuel' pl pr
             (shift_down (List.length t) pl t pi (get t pi)) (pi + 1)
      else t
  end.

(** *** Heap sort of the [n] positions from [lo], for when the recursion
    gets too deep; [a[i]] is [tosort[lo + i - 1]] *)

Definition hget (lo : Z) (t : list Z) (i : Z) : Z := get t (lo + i - 1).
Definition hset (lo : Z) (t : list Z) (i x : Z) : list Z := set t (lo + i - 1) x.

Fixpoint sift (fuel : nat) (lo n : Z) (t : list Z) (tmp i j : Z) : list Z :=
  match fuel with
  | O => hset lo t i tmp
  | S fuel' =>
      if j <=? n then
        let j := if (j <? n) && (key (hget lo t j) <? key (hget lo t (j + 1)))
                 then j + 1 else j in
        if key tmp <? key (hget lo t j)
        then sift fuel' lo n (hset lo t i (hget lo t j)) tmp j (j + j)
        else hset lo t i tmp
      else hset lo t i tmp
  end.

Fixpoint heapify (fuel : nat) (lo n : Z) (t : list Z) (l : Z) : list Z :=
  match fuel with
  | O => t
  | S fuel' =>
      if 0 <? l
      then heapify fuel' lo n
             (sift (List.length t) lo n t (hget lo t l) l (Z.shiftl l 1)) (l - 1)
      else t
  end.

Fixpoint heap_pop (fuel : nat) (lo : Z) (t : list Z) (n : Z) : list Z :=
  match fuel with
  | O => t
  | S fuel' =>
      if 1 <? n then
        let tmp := hget lo t n in
        let t := hset lo t n (hget lo t 1) in
        let n := n - 1 in
        heap_pop fuel' lo (sift (List.length t) lo n t tmp 1 2) n
      else t
  end.

Definition aheapsort (t : list Z) (lo n : Z) : list Z :=
  let t := heapify (List.length t) lo n t (Z.shiftr n 1) in
  heap_pop (List.length t) lo t n.

(** *** The partition around the median of three *)

Fixpoint scan_up (fuel : nat) (t : list Z) (vp pi : Z) : Z :=
  match fuel with
  | O => pi
  | S fuel' =>
      if key (get t pi) <? vp then scan_up fuel' t vp (pi + 1) else pi
  end.

Fixpoint scan_down (fuel : nat) (t : list Z) (vp pj : Z) : Z :=
  match fuel with
  | O => pj
  | S fuel' =>
      if vp <? key (get t pj) then scan_down fuel' t vp (pj - 1) else pj
  end.

Fixpoint partition_loop (fuel : nat) (t : list Z) (vp pi pj : Z)
    : list Z * Z :=
  match fuel with
  | O => (t, pi)
  | S fuel' =>
      let pi := scan_up (List.length t) t vp (pi + 1) in
      let pj := scan_down (List.length t) t vp (pj - 1) in
      if pj <=? pi then (t, pi)
      else partition_loop fuel' (swap t pi pj) vp pi pj
  end.

Definition partition (t : list Z) (pl pr : Z) : list Z * Z :=
  let pm := pl + Z.shiftr (pr - pl) 1 in
  let t := if key (get t pm) <? key (get t pl) then swap t pm pl else t in
  let t := if key (get t pr) <? key (get t pm) then swap t pr pm else t in
  let t := if key (get t pm) <? key (get t pl) then swap t pm pl else t in
  let vp := key (get t pm) in
  let t := swap t pm (pr - 1) in
  let '(t, pi) := partition_loop (List.length t) t vp pl (pr - 1) in
  (swap t pi (pr - 1), pi).

(** *** The introsort: partitions above 16 positions, the larger half
    pushed on the stack with its depth, insertion sort below *)

Definition SMALL_QUICKSORT : Z := 16.

Fixpoint loop (fuel : nat) (t : list Z) (pl pr cdepth : Z)
    (stack : list (Z * Z * Z)) (popped : bool) : list Z :=
  match fuel with
  | O => t
  | S fuel' =>
      let next (t : list Z) :=
        match stack with
        | [] => t
        | (pl', pr', d') :: stack' => loop fuel' t pl' pr' d' stack' true
        end in
      if popped && (cdepth <? 0) then next (aheapsort t pl (pr - pl + 1))
      else if SMALL_QUICKSORT <? pr - pl then
        let '(t, pi) := partition t pl pr in
        if pi - pl <? pr - pi
        then loop fuel' t pl (pi - 1) (cdepth - 1)
               ((pi + 1, pr, cdepth - 1) :: stack) false
        else loop fuel' t (pi + 1) pr (cdepth - 1)
               ((pl, pi - 1, cdepth - 1) :: stack) false
      else next (insertion (List.length t) pl pr t (pl + 1))
  end.

Definition aquicksort : list Z :=
  let num := Z.of_nat (List.length v) in
  let tosort := map Z.of_nat (seq 0 (List.length v)) in
  loop (2 * List.length v + 2) tosort 0 (num - 1) (msb num * 2) [] true.

End Keys.

End NumPy.

(** [nargsort(items, kind='quicksort', ascending=False)] of
    [pandas/core/sorting.py]: the keys are reversed, numpy sorts them in
    ascending order, and the positions it finds are reversed again. *)
Definition nargsort_desc (keys : list Z) : list nat :=
  let n := List.length keys in
  rev (map (fun i => (n - 1 - Z.to_nat i)%nat) (NumPy.aquicksort (rev keys))).

(** [frame.take(indexer)]. *)
Definition take {A : Type} (l : list A) (indexer : list nat) : list A :=
  flat_map (fun i => match nth_error l i with
                     | Some a => [a]
                     | None => []
                     end) indexer.

Definition sort_values_numpy {A : Type} (by_ : A -> Z) (l : list A) : list A :=
  take l (nargsort_desc (map by_ l)).

(** The same with the contract checked on the way out: the positions are
    those of the frame, each once, and the keys come out in descending
    order.  The kernel passes the check; it is there for the contract to
    hold without a proof of the kernel. *)
Fixpoint nodupb (l : list nat) : bool :=
  match l with
  | [] => true
  | x :: l' => negb (existsb (Nat.eqb x) l') && nodupb l'
  end.

Definition is_permutation_of_range (indexer : list nat) (n : nat) : bool :=
  (List.length indexer =? n)%nat
  && forallb (fun i => (i <? n)%nat) indexer
  && nodupb indexer.

Fixpoint sorted_desc_b (keys : list Z) : bool :=
  match keys with
  | x :: ((y :: _) as tl) => (y <=? x) && sorted_desc_b tl
  | _ => true
  end.

Definition sort_values_quicksort {A : Type} (by_ : A -> Z) (l : list A)
    : list A :=
  let indexer := nargsort_desc (map by_ l) in
  if is_permutation_of_range indexer (List.length l)
     && sorted_desc_b (map by_ (take l indexer))
  then take l indexer
  else isort_desc Z.ltb by_ l.

(** The dtype pandas gives a column of integers: [int64] when they all fit
    it, [uint64] when none is negative and they all fit that, and [object]
    (the Python integers themselves) otherwise. *)
Inductive dtype : Type :=
| int64
| uint64
| object.

Definition column_dtype (values : list Z) : dtype :=
  if forallb (fun v => (- 2 ^ 63 <=? v) && (v <? 2 ^ 63)) values then int64
  else if forallb (fun v => (0 <=? v) && (v <? 2 ^ 64)) values then uint64
  else object.

(** Machine integers wrap around. *)
Definition wrap_int64 (z : Z) : Z := (z + 2 ^ 63) mod 2 ^ 64 - 2 ^ 63.

Definition wrap_uint64 (z : Z) : Z := z mod 2 ^ 64.

(** [x - y] when the two series have the same index: the subtraction is
    that of the dtype. *)
Definition sub_same (d : dtype) (x y : Z) : Z :=
  match d with
  | int64 => wrap_int64 (x - y)
  | uint64 => wrap_uint64 (x - y)
  | object => x - y
  end.

(** [x - y] when the indexes differ: the series are aligned on the union of
    the indexes, which turns machine integers into float64 (the positions
    one side lacks are missing values first, [fill_value] afterwards), and
    the subtraction is that of float64.  The result is an integer again,
    the value of the float. *)
Definition sub_aligned (d : dtype) (x y : Z) : Z :=
  match d with
  | object => x - y
  | _ => int_of_float (fsub (float_of_int x) (float_of_int y))
  end.

(** The positions of two series side by side, 0 where one has run out. *)
Fixpoint zip_fill0 (f : Z -> Z -> Z) (a b : list Z) : list Z :=
  match a, b with
  | [], _ => map (fun y => f 0 y) b
  | _, [] => map (fun x => f x 0) a
  | x :: a', y :: b' => f x y :: zip_fill0 f a' b'
  end.

(** [a.sub(b, fill_value=0)] for two series of dtype [d] on the index
    [0, 1, 2, ...] (both frames went through [reset_index]): the result is
    indexed by the union of the two indexes, and a position only one side
    has counts 0 on the other. *)
Definition sub_fill0 (d : dtype) (a b : list Z) : list Z :=
  if (List.length a =? List.length b)%nat
  then zip_fill0 (sub_same d) a b
  else zip_fill0 (sub_aligned d) a b.

(** A row of the frame [calculate_population_difference] returns: the
    columns [states], [id], [population] and [population_difference]. *)
Module Delta.
Record t : Type := mk {
  states : option string;
  id : option Z;
  population : option Z;
  population_difference : Z
}.
End Delta.

(** [frame['population_difference'] = col], followed by the selection of
    the four columns.  On a frame with rows, the column is aligned on the
    frame's index: row [i] gets [col[i]], and what [col] has beyond the last
    row is dropped.  On a frame without rows, pandas takes the index of
    [col] for the frame: there is one row per entry of [col], its other
    cells missing. *)
Definition set_population_difference (frame : list Row) (col : list Z)
    : list Delta.t :=
  match frame with
  | [] => map (fun d => Delta.mk None None None d) col
  | _ :: _ =>
      map (fun rd : Row * Z =>
             Delta.mk (Some (states (fst rd))) (Some (id (fst rd)))
                      (Some (population (fst rd))) (snd rd))
          (combine frame col)
  end.

(** [series.nunique()]: the number of distinct values, missing ones apart. *)
Fixpoint present {A : Type} (l : list (option A)) : list A :=
  match l with
  | [] => []
  | Some a :: l' => a :: present l'
  | None :: l' => present l'
  end.

Definition nunique (l : list (option string)) : Z :=
  Z.of_nat (List.length (nodup string_dec (present l))).

Definition len {A : Type} (l : list A) : Z := Z.of_nat (List.length l).

(** ** The script *)

(** [format_number(num)] on a Python integer. *)
Definition format_number (num : Z) : result string :=
  if 1000000 <? num then
    if num mod 1000000 =? 0 then
      s <- format_int (num / 1000000) ;;
      Ok (s ++ " M")%string
    else
      x <- truediv num 1000000 ;;
      Ok (fstr_round1 x ++ " M")%string
  else
    s <- format_int (num / 1000) ;;
    Ok (s ++ " K")%string.

(** numpy's [round(x, 1)] on a float64 scalar: [rint(x * 10) / 10]. *)
Definition np_round1 (x : float) : float :=
  match fmul x (float_of_int 10) with
  | Inf s => Inf s
  | Fin m e => round64_signed (rne_div (fnum (Fin m e)) (fden (Fin m e))) 10
  end.

(** [format_number(num)] on a [numpy.int64], which is what a cell of an
    [int64] column is when the script passes it.  The comparison, [%] and
    [//] are those of the integers; [num / 1000000] divides the two numbers
    as floats; [round] is numpy's; nothing raises. *)
Definition format_number_int64 (num : Z) : string :=
  if 1000000 <? num then
    if num mod 1000000 =? 0 then
      (str_int (num / 1000000) ++ " M")%string
    else
      (fstr_round1
         (np_round1 (fdiv (float_of_int num) (float_of_int 1000000)))
       ++ " M")%string
  else (str_int (num / 1000) ++ " K")%string.

(** numpy's [npy_divmod(a, b)] on float64, for [b <> 0] and a finite [a]:
    the remainder is C's [fmod], moved to the sign of [b]; the quotient is
    [(a - mod) / b], one less when the remainder was moved, and snapped to
    the integer next to it.  [a // b] is the first component, [a % b] the
    second. *)
Definition np_divmod (a b : float) : float * float :=
  let mod_ := fmod a b in
  let div := fdiv (fsub a mod_) b in
  let '(mod_, div) :=
    if negb (fis_zero mod_)
       && xorb (fltb b (Fin 0 0)) (fltb mod_ (Fin 0 0))
    then (fadd mod_ b, fsub div (float_of_int 1))
    else (mod_, div) in
  let floordiv :=
    if fis_zero div then Fin 0 0
    else
      let f := ffloor div in
      if fltb (Fin 1 (- 1)) (fsub div f) then fadd f (float_of_int 1)
      else f in
  (floordiv, mod_).

(** The f-string of a float that is an integer or a one-decimal number. *)
Definition fstr (x : float) : string :=
  if fltb x (Fin 0 0) then ("-" ++ fstr_round1 (fneg x))%string
  else fstr_round1 x.

(** [format_number(num)] on a finite [numpy.float64], which is what a cell
    of [population_difference] is when the two series differed in length:
    [%] and [//] are numpy's on floats, and their results print as floats
    (['700.0 K']). *)
Definition format_number_float64 (num : float) : string :=
  if fltb (float_of_int 1000000) num then
    if fis_zero (snd (np_divmod num (float_of_int 1000000)))
    then (fstr (fst (np_divmod num (float_of_int 1000000))) ++ " M")%string
    else
      (fstr (np_round1 (fdiv num (float_of_int 1000000))) ++ " M")%string
  else (fstr (fst (np_divmod num (float_of_int 1000))) ++ " K")%string.

(** [df_reshaped[df_reshaped.year == selected_year]]. *)
Definition df_selected_year (df_reshaped : list Row) (selected_year : Z)
    : list Row :=
  filter (fun r => year r =? selected_year) df_reshaped.

Section Script.

Context {K : SortKernel}.

(** [df_selected_year.sort_values(by="population", ascending=False)]. *)
Definition df_selected_year_sorted (df_reshaped : list Row)
    (selected_year : Z) : list Row :=
  sort_values_desc population (df_selected_year df_reshaped selected_year).

(** The frame before it is sorted. *)
Definition population_difference_frame (input_df : list Row)
    (input_year : Z) : list Delta.t :=
  let selected_year_data := df_selected_year input_df input_year in
  let previous_year_data := df_selected_year input_df (input_year - 1) in
  set_population_difference selected_year_data
    (sub_fill0 (column_dtype (map population input_df))
               (map population selected_year_data)
               (map population previous_year_data)).

Definition calculate_population_difference (input_df : list Row)
    (input_year : Z) : list Delta.t :=
  sort_values_desc Delta.population_difference
    (population_difference_frame input_df input_year).

End Script.

(** The two percentages of the "States Migration" panel, for the frame
    [df_population_difference_sorted]. *)
Definition df_greater_50000 (df : list Delta.t) : list Delta.t :=
  filter (fun r => 50000 <? Delta.population_difference r) df.

Definition df_less_50000 (df : list Delta.t) : list Delta.t :=
  filter (fun r => Delta.population_difference r <? - 50000) df.

Definition migration_percent (selected df : list Delta.t) : result Z :=
  x <- truediv (len selected) (nunique (map Delta.states df)) ;;
  round (fmul x (float_of_int 100)).

Definition states_migration_greater (df : list Delta.t) : result Z :=
  migration_percent (df_greater_50000 df) df.

Definition states_migration_less (df : list Delta.t) : result Z :=
  migration_percent (df_less_50000 df) df.

(** ** Vocabulary of the statements *)

(** A frame ordered by a key: no row is followed by a row with a larger key. *)
Definition descending {A : Type} (by_ : A -> Z) (l : list A) : Prop :=
  Sorted (fun a b => by_ a >= by_ b) l.

(** Rows with equal population come out in the order they went in. *)
Definition ties_in_input_order (input output : list Row) : Prop :=
  forall p : Z,
    filter (fun r => population r =? p) output
    = filter (fun r => population r =? p) input.

Definition total (l : list Z) : Z := fold_right Z.add 0 l.

(** One record per state in each of the Year Slices of [y] and [y - 1]:
    neither slice has a state twice, and the two have the same states. *)
Definition one_record_per_state (df : list Row) (y : Z) : Prop :=
  NoDup (map states (df_selected_year df y))
  /\ NoDup (map states (df_selected_year df (y - 1)))
  /\ (forall s : string,
        In s (map states (df_selected_year df y))
        <-> In s (map states (df_selected_year df (y - 1)))).

(** Every population of the table lies between 0 and [hi]. *)
Definition populations_upto (hi : Z) (df : list Row) : Prop :=
  Forall (fun r => 0 <= population r <= hi) df.

(** The population of state [s] in the slice of year [y], 0 when the state
    has no row there. *)
Definition population_of (df : list Row) (y : Z) (s : string) : Z :=
  match find (fun r => String.eqb (states r) s) (df_selected_year df y) with
  | Some r => population r
  | None => 0
  end.

(** [round(100 * k / n)] on the exact quotient. *)
Definition exact_percent (k n : Z) : Z := rne_div (100 * k) n.

(** A numeral with one decimal digit, followed by [" M"]. *)
Definition one_decimal_M (s : string) : Prop :=
  exists a d : Z,
    0 <= a /\ 0 <= d < 10 /\
    s = (str_int a ++ "." ++ str_int d ++ " M")%string.

(** Powers of two, split into the numerator and the denominator of
    [2 ^ e]. *)
Definition pnum (e : Z) : Z := 2 ^ Z.max e 0.
Definition pden (e : Z) : Z := 2 ^ Z.max (- e) 0.

(** A frame with at least one row, every row with a state, no state twice. *)
Definition one_state_per_row (df : list Delta.t) : Prop :=
  df <> []
  /\ Forall (fun r => Delta.states r <> None) df
  /\ NoDup (map Delta.states df).

Definition opt_string_dec (x y : option string) : {x = y} + {x <> y}.
Proof. decide equality. apply string_dec. Defined.

(** A decision procedure for [NoDup] on a column of states. *)
Fixpoint all_distinct (l : list (option string)) : bool :=
  match l with
  | [] => true
  | x :: l' => if in_dec opt_string_dec x l' then false else all_distinct l'
  end.

(** The percentage of a selection of [k] rows out of a frame of [n] states:
    [round((k / n) * 100)] returns an integer [p] between 0 and 100, less
    than one away from [100 * k / n]; up to [2^44] states it is
    [round(100 * k / n)] unless [100 * k / n] lies halfway between two
    integers. *)
Definition percent_of (k n p : Z) : Prop :=
  0 <= p <= 100
  /\ - n < p * n - 100 * k < n
  /\ (n <= 2 ^ 44 ->
      (forall j : Z, 2 * (100 * k) <> (2 * j + 1) * n) ->
      p = exact_percent k n).

(** ** Tables used below *)

(** State B appears in 2011 and has no row for 2010. *)
Definition table_new_state : list Row :=
  [ mkRow "A" "AA" 1 2010 100;
    mkRow "B" "BB" 2 2011 250;
    mkRow "A" "AA" 1 2011 200 ].

(** The two-state table of the end-to-end scenario. *)
Definition table_two_states : list Row :=
  [ mkRow "A" "AA" 1 2010 100;
    mkRow "B" "BB" 2 2010 300;
    mkRow "A" "AA" 1 2011 200;
    mkRow "B" "BB" 2 2011 250 ].

(** A table with a population beyond [int64]: the column is [uint64]. *)
Definition table_uint64 : list Row :=
  [ mkRow "A" "AA" 1 2010 (2 ^ 63);
    mkRow "B" "BB" 2 2010 5;
    mkRow "A" "AA" 1 2011 (2 ^ 63);
    mkRow "B" "BB" 2 2011 3 ].

(** Twenty states with the same population. *)
Definition table_ties : list Row :=
  map (fun i : nat =>
         mkRow (str_int (Z.of_nat i)) (str_int (Z.of_nat i)) (Z.of_nat i)
               2010 500)
      (seq 0 20).

(** Two states with the same population. *)
Definition table_tie : list Row :=
  [ mkRow "A" "AA" 1 2010 500;
    mkRow "B" "BB" 2 2010 500 ].

(** A frame of [n] states of which the first [k] gained 60000 and the others
    nothing. *)
Definition delta_frame (k n : nat) : list Delta.t :=
  map (fun i : nat =>
         Delta.mk (Some (str_int (Z.of_nat i))) (Some (Z.of_nat i))
                  (Some 1000000)
                  (if (i <? k)%nat then 60000 else 0))
      (seq 0 n).

(** A frame of [n] states of which the first [k] lost 60000. *)
Definition delta_frame_loss (k n : nat) : list Delta.t :=
  map (fun i : nat =>
         Delta.mk (Some (str_int (Z.of_nat i))) (Some (Z.of_nat i))
                  (Some 1000000)
                  (if (i <? k)%nat then - 60000 else 0))
      (seq 0 n).

(** ** The rest of the script *)

(** What the rest of the script can raise: the arithmetic errors of [Py.exn]
    and the errors of the builtins and of pandas used below. *)
Inductive raised : Type :=
| Builtin (e : exn)
| ValueError
| IndexError
| UnboundLocalError.

Inductive outcome (A : Type) : Type :=
| Returns (a : A)
| Raises (e : raised).

Arguments Returns {A} a.
Arguments Raises {A} e.

Definition and_then {A B : Type} (r : outcome A) (k : A -> outcome B)
    : outcome B :=
  match r with
  | Returns a => k a
  | Raises e => Raises e
  end.

Notation "x <~ r ;; k" := (and_then r (fun x => k))
  (at level 61, r at next level, right associativity).

Definition of_result {A : Type} (r : result A) : outcome A :=
  match r with
  | Ok a => Returns a
  | Raise e => Raises (Builtin e)
  end.

(** [series.unique()]: the distinct values, in order of first appearance. *)
Fixpoint unique_from (seen l : list Z) : list Z :=
  match l with
  | [] => []
  | x :: l' =>
      if existsb (Z.eqb x) seen then unique_from seen l'
      else x :: unique_from (x :: seen) l'
  end.

Definition unique (l : list Z) : list Z := unique_from [] l.

(** [list(df_reshaped.year.unique())[::-1]]. *)
Definition year_list (df_reshaped : list Row) : list Z :=
  rev (unique (map year df_reshaped)).

(** The builtin [max] on the values of a series: the first of the largest
    values; [ValueError] on an empty series. *)
Definition py_max (l : list Z) : outcome Z :=
  match l with
  | [] => Raises ValueError
  | x :: l' => Returns (fold_left (fun m v => if m <? v then v else m) l' x)
  end.

(** [series.iloc[i]]: position [i], counted from the end when negative;
    [IndexError] out of bounds. *)
Definition iloc {A : Type} (l : list A) (i : Z) : outcome A :=
  let j := if i <? 0 then len l + i else i in
  if (j <? 0) || (len l <=? j) then Raises IndexError
  else
    match nth_error l (Z.to_nat j) with
    | Some a => Returns a
    | None => Raises IndexError
    end.

(** What [make_donut] hands to altair: the frame of the two arcs, the frame
    of the background ring, the colour scale and the text in the centre
    (an f-string of [input_response], which Python refuses to print beyond
    4300 digits). *)
Record Donut : Type := mkDonut {
  source : list (string * Z);
  source_bg : list (string * Z);
  scale_domain : list string;
  scale_range : list string;
  text : string
}.

(** The four [if] statements on [input_color]: [chart_color] is bound by the
    one that matches, and stays unbound when none does. *)
Definition chart_color (input_color : string) : option (list string) :=
  let c := None in
  let c := if String.eqb input_color "blue"
           then Some ["#29b5e8"; "#155F7A"]%string else c in
  let c := if String.eqb input_color "green"
           then Some ["#27AE60"; "#12783D"]%string else c in
  let c := if String.eqb input_color "orange"
           then Some ["#F39C12"; "#875A12"]%string else c in
  let c := if String.eqb input_color "red"
           then Some ["#E74C3C"; "#781F16"]%string else c in
  c.

Definition make_donut (input_response : Z) (input_text input_color : string)
    : outcome Donut :=
  let source := [(EmptyString, 100 - input_response);
                 (input_text, input_response)] in
  let source_bg := [(EmptyString, 100); (input_text, 0)] in
  match chart_color input_color with
  | None => Raises UnboundLocalError
  | Some range =>
      s <~ of_result (format_int input_response) ;;
      Returns (mkDonut source source_bg [input_text; EmptyString] range
                 (s ++ " %"))
  end.

(** The "States Migration" panel: the two percentages and their donuts. *)
Definition states_migration_panel (selected_year : Z) (df : list Delta.t)
    : outcome (Z * Z * Donut * Donut) :=
  if 2010 <? selected_year then
    g <~ of_result (states_migration_greater df) ;;
    l <~ of_result (states_migration_less df) ;;
    donut_chart_greater <~ make_donut g "Inbound Migration" "green" ;;
    donut_chart_less <~ make_donut l "Outbound Migration" "red" ;;
    Returns (g, l, donut_chart_greater, donut_chart_less)
  else
    donut_chart_greater <~ make_donut 0 "Inbound Migration" "green" ;;
    donut_chart_less <~ make_donut 0 "Outbound Migration" "red" ;;
    Returns (0, 0, donut_chart_greater, donut_chart_less).

(** A table that starts after 2010. *)
Definition table_from_2015 : list Row :=
  [ mkRow "A" "AA" 1 2015 600000;
    mkRow "B" "BB" 2 2015 700000;
    mkRow "A" "AA" 1 2016 610000;
    mkRow "B" "BB" 2 2016 690000 ].

(** The row of the result made of a row of the slice and its difference. *)
Definition delta_row (rd : Row * Z) : Delta.t :=
  Delta.mk (Some (states (fst rd))) (Some (id (fst rd)))
           (Some (population (fst rd))) (snd rd).

(** * Properties *)

(** ** The sort kernels *)

Section InsertionSort.

Context {A : Type} (after : Z -> Z -> bool) (by_ : A -> Z).
Hypothesis after_true : forall a b, after a b = true -> a <= b.
Hypothesis after_false : forall a b, after a b = false -> b <= a.

Lemma insert_desc_perm (x : A) (l : list A) :
  Permutation (x :: l) (insert_desc after by_ x l).
Proof.
  induction l as [|y l IH]; simpl.
  - apply Permutation_refl.
  - destruct (after (by_ x) (by_ y)).
    + apply perm_trans with (y :: x :: l).
      * apply perm_swap.
      * apply perm_skip, IH.
    + apply Permutation_refl.
Qed.

Lemma isort_desc_perm (l : list A) : Permutation l (isort_desc after by_ l).
Proof.
  induction l as [|x l IH]; simpl.
  - apply perm_nil.
  - apply perm_trans with (x :: isort_desc after by_ l).
    + apply perm_skip, IH.
    + apply insert_desc_perm.
Qed.

Lemma insert_desc_sorted (x : A) (l : list A) :
  StronglySorted (fun a b => by_ a >= by_ b) l ->
  StronglySorted (fun a b => by_ a >= by_ b) (insert_desc after by_ x l).
Proof.
  induction l as [|y l IH]; simpl; intros Hs.
  - constructor; constructor.
  - inversion Hs as [|? ? Hl Hy]; subst.
    destruct (after (by_ x) (by_ y)) eqn:E.
    + constructor.
      * apply IH, Hl.
      * apply (Permutation_Forall (insert_desc_perm x l)).
        constructor; [apply after_true in E; lia | exact Hy].
    + apply after_false in E.
      constructor; [exact Hs|].
      constructor; [lia|].
      eapply Forall_impl; [|exact Hy].
      simpl; intros; lia.
Qed.

Lemma isort_desc_sorted (l : list A) :
  StronglySorted (fun a b => by_ a >= by_ b) (isort_desc after by_ l).
Proof.
  induction l as [|x l IH]; simpl.
  - constructor.
  - apply insert_desc_sorted, IH.
Qed.

End InsertionSort.

Lemma ltb_after_true (a b : Z) : (a <? b) = true -> a <= b.
Proof. intros H; apply Z.ltb_lt in H; lia. Qed.

Lemma ltb_after_false (a b : Z) : (a <? b) = false -> b <= a.
Proof. intros H; apply Z.ltb_ge in H; lia. Qed.

(** The kernel that keeps equal keys in input order. *)
Definition kernel_stable : SortKernel := {|
  sort_values_desc := fun A by_ l => isort_desc Z.ltb by_ l;
  sort_values_perm := fun A by_ l => isort_desc_perm Z.ltb by_ l;
  sort_values_sorted :=
    fun A by_ l => isort_desc_sorted Z.ltb by_ ltb_after_true ltb_after_false l
|}.

(** *** The kernel of numpy *)

Lemma nodupb_NoDup (l : list nat) : nodupb l = true -> NoDup l.
Proof.
  induction l as [|x l IH]; simpl; intros H; [constructor|].
  apply andb_true_iff in H. destruct H as [Hx Hl].
  constructor; [|apply IH, Hl].
  intros Hin. apply negb_true_iff in Hx.
  assert (existsb (Nat.eqb x) l = true); [|congruence].
  apply existsb_exists. exists x. split; [exact Hin | apply Nat.eqb_refl].
Qed.

Lemma is_permutation_of_range_spec (indexer : list nat) (n : nat) :
  is_permutation_of_range indexer n = true ->
  Permutation (seq 0 n) indexer.
Proof.
  unfold is_permutation_of_range. intros H.
  apply andb_true_iff in H. destruct H as [H Hnd].
  apply andb_true_iff in H. destruct H as [Hlen Hlt].
  apply Nat.eqb_eq in Hlen. apply nodupb_NoDup in Hnd.
  apply Permutation_sym, NoDup_Permutation_bis.
  - exact Hnd.
  - rewrite length_seq. lia.
  - intros i Hi. rewrite forallb_forall in Hlt.
    specialize (Hlt i Hi). apply Nat.ltb_lt in Hlt.
    apply in_seq. lia.
Qed.

Lemma take_shift {A : Type} (a : A) (l : list A) (indexer : list nat) :
  take (a :: l) (map S indexer) = take l indexer.
Proof.
  unfold take. induction indexer as [|i indexer IH]; simpl;
    [reflexivity | rewrite IH; reflexivity].
Qed.

Lemma take_all {A : Type} (l : list A) : take l (seq 0 (List.length l)) = l.
Proof.
  induction l as [|a l IH]; [reflexivity|].
  simpl List.length. simpl seq. rewrite <- seq_shift.
  unfold take at 1. simpl flat_map. fold (take (a :: l) (map S (seq 0 (List.length l)))).
  rewrite take_shift, IH. reflexivity.
Qed.

Lemma take_perm {A : Type} (l : list A) (indexer : list nat) :
  Permutation (seq 0 (List.length l)) indexer -> Permutation l (take l indexer).
Proof.
  intros H. rewrite <- (take_all l) at 1.
  unfold take. apply Permutation_flat_map, H.
Qed.

Lemma sorted_desc_b_spec {A : Type} (by_ : A -> Z) (l : list A) :
  sorted_desc_b (map by_ l) = true ->
  StronglySorted (fun a b => by_ a >= by_ b) l.
Proof.
  intros H. apply Sorted_StronglySorted.
  - intros a b c Hab Hbc. lia.
  - induction l as [|a l IH]; [constructor|].
    destruct l as [|b l]; [repeat constructor|].
    simpl in H. apply andb_true_iff in H. destruct H as [Hab Hl].
    apply Z.leb_le in Hab.
    constructor; [apply IH, Hl | constructor; lia].
Qed.

Lemma sort_values_quicksort_perm (A : Type) (by_ : A -> Z) (l : list A) :
  Permutation l (sort_values_quicksort by_ l).
Proof.
  unfold sort_values_quicksort.
  destruct (is_permutation_of_range (nargsort_desc (map by_ l)) (List.length l)
            && sorted_desc_b (map by_ (take l (nargsort_desc (map by_ l)))))
    eqn:E.
  - apply andb_true_iff in E. destruct E as [E _].
    apply take_perm, is_permutation_of_range_spec, E.
  - apply isort_desc_perm.
Qed.

Lemma sort_values_quicksort_sorted (A : Type) (by_ : A -> Z) (l : list A) :
  StronglySorted (fun a b => by_ a >= by_ b) (sort_values_quicksort by_ l).
Proof.
  unfold sort_values_quicksort.
  destruct (is_permutation_of_range (nargsort_desc (map by_ l)) (List.length l)
            && sorted_desc_b (map by_ (take l (nargsort_desc (map by_ l)))))
    eqn:E.
  - apply andb_true_iff in E. destruct E as [_ E].
    apply sorted_desc_b_spec, E.
  - apply (isort_desc_sorted Z.ltb by_ ltb_after_true ltb_after_false).
Qed.

(** The kernel pandas runs. *)
Definition kernel_numpy : SortKernel := {|
  sort_values_desc := @sort_values_quicksort;
  sort_values_perm := sort_values_quicksort_perm;
  sort_values_sorted := sort_values_quicksort_sorted
|}.

Lemma sort_values_descending {K : SortKernel} {A : Type} (by_ : A -> Z)
    (l : list A) : descending by_ (sort_values_desc by_ l).
Proof. apply StronglySorted_Sorted, sort_values_sorted. Qed.

(** When no two rows have the same key, the contract fixes the result; for
    two rows: *)
Lemma sort_values_two {K : SortKernel} {A : Type} (by_ : A -> Z) (a b : A) :
  by_ a < by_ b -> sort_values_desc by_ [a; b] = [b; a].
Proof.
  intros Hlt.
  pose proof (sort_values_perm A by_ [a; b]) as Hp.
  pose proof (sort_values_sorted A by_ [a; b]) as Hs.
  destruct (Permutation_length_2_inv Hp) as [E|E]; rewrite E in *.
  - inversion Hs as [|? ? _ Hf]; subst.
    inversion Hf; subst. lia.
  - reflexivity.
Qed.

Lemma sort_values_one {K : SortKernel} {A : Type} (by_ : A -> Z) (a : A) :
  sort_values_desc by_ [a] = [a].
Proof.
  apply Permutation_length_1_inv, (sort_values_perm A by_ [a]).
Qed.

Lemma sort_values_nil {K : SortKernel} {A : Type} (by_ : A -> Z) :
  sort_values_desc by_ (@nil A) = [].
Proof.
  apply Permutation_nil, (sort_values_perm A by_ []).
Qed.

(** ** Rounding to the nearest integer *)

Lemma rne_div_error (a b : Z) :
  0 < b -> - b <= 2 * (rne_div a b * b - a) <= b.
Proof.
  intros Hb. unfold rne_div.
  pose proof (Z.div_mod a b ltac:(lia)) as Hdm.
  pose proof (Z.mod_pos_bound a b Hb) as Hr.
  destruct (2 * (a mod b) <? b) eqn:E1.
  - apply Z.ltb_lt in E1. nia.
  - apply Z.ltb_ge in E1.
    destruct (b <? 2 * (a mod b)) eqn:E2.
    + apply Z.ltb_lt in E2. nia.
    + apply Z.ltb_ge in E2. destruct (Z.even (a / b)); nia.
Qed.

Lemma rne_div_le (a b M : Z) :
  0 < b -> 2 * a < (2 * M + 1) * b -> rne_div a b <= M.
Proof.
  intros Hb H. pose proof (rne_div_error a b Hb). nia.
Qed.

Lemma rne_div_ge (a b M : Z) :
  0 < b -> (2 * M - 1) * b < 2 * a -> M <= rne_div a b.
Proof.
  intros Hb H. pose proof (rne_div_error a b Hb). nia.
Qed.

Lemma rne_div_nonneg (a b : Z) : 0 < b -> 0 <= a -> 0 <= rne_div a b.
Proof. intros Hb Ha. apply rne_div_ge; lia. Qed.

(** A quotient exactly halfway between [j] and [j + 1] goes to the even one
    of the two. *)
Lemma rne_div_tie (a b j : Z) :
  0 < b -> 2 * a = (2 * j + 1) * b ->
  rne_div a b = if Z.even j then j else j + 1.
Proof.
  intros Hb H.
  assert (Hq : a / b = j).
  { symmetry. apply (Z.div_unique a b j (a - b * j)); nia. }
  assert (Hr : 2 * (a mod b) = b).
  { pose proof (Z.div_mod a b ltac:(lia)). nia. }
  unfold rne_div. rewrite Hq.
  destruct (2 * (a mod b) <? b) eqn:E1; [apply Z.ltb_lt in E1; lia|].
  destruct (b <? 2 * (a mod b)) eqn:E2; [apply Z.ltb_lt in E2; lia|].
  reflexivity.
Qed.

(** A quotient that is not halfway goes to the nearer integer. *)
Lemma rne_div_nearest (a b z : Z) :
  0 < b -> - b < 2 * (z * b - a) < b -> rne_div a b = z.
Proof.
  intros Hb H. pose proof (rne_div_error a b Hb). nia.
Qed.

(** The nearest integer depends on the quotient only. *)
Lemma rne_div_scale (a b c : Z) :
  0 < b -> 0 < c -> rne_div (a * c) (b * c) = rne_div a b.
Proof.
  intros Hb Hc. unfold rne_div.
  rewrite Z.div_mul_cancel_r by lia.
  rewrite Z.mul_mod_distr_r by lia.
  replace (2 * (a mod b * c) <? b * c) with (2 * (a mod b) <? b).
  2:{ destruct (2 * (a mod b) <? b) eqn:E; symmetry;
        [apply Z.ltb_lt; apply Z.ltb_lt in E | apply Z.ltb_ge; apply Z.ltb_ge in E];
        nia. }
  replace (b * c <? 2 * (a mod b * c)) with (b <? 2 * (a mod b)).
  2:{ destruct (b <? 2 * (a mod b)) eqn:E; symmetry;
        [apply Z.ltb_lt; apply Z.ltb_lt in E | apply Z.ltb_ge; apply Z.ltb_ge in E];
        nia. }
  reflexivity.
Qed.

Lemma rne_div_cross (a b c d : Z) :
  0 < b -> 0 < d -> a * d = c * b -> rne_div a b = rne_div c d.
Proof.
  intros Hb Hd H.
  rewrite <- (rne_div_scale a b d Hb Hd), <- (rne_div_scale c d b Hd Hb).
  rewrite H. f_equal. ring.
Qed.

(** ** binary64 rounding

    [pden e / pnum e] is [2^(-e)]: a fraction [a / b] scaled to exponent [e]
    is [(a * pden e) / (b * pnum e)]. *)

Lemma pnum_pos (e : Z) : 0 < pnum e.
Proof. apply Z.pow_pos_nonneg; lia. Qed.

Lemma pden_pos (e : Z) : 0 < pden e.
Proof. apply Z.pow_pos_nonneg; lia. Qed.

Ltac pow2_cases :=
  unfold pnum, pden;
  repeat match goal with
         | |- context [Z.max ?a ?b] =>
             first [ rewrite (Z.max_l a b) by lia
                   | rewrite (Z.max_r a b) by lia ]
         end;
  rewrite <- ?Z.pow_add_r by lia;
  try (f_equal; lia).

Lemma pnum_pden_shift (e E : Z) :
  e <= E -> pnum E * pden e = 2 ^ (E - e) * pnum e * pden E.
Proof.
  intros H.
  destruct (Z.le_gt_cases 0 e); destruct (Z.le_gt_cases 0 E);
    try lia; pow2_cases.
Qed.

Lemma pnum_pden_diff (u v : Z) :
  0 <= u -> 0 <= v -> pnum (u - v) * 2 ^ v = pden (u - v) * 2 ^ u.
Proof.
  intros Hu Hv.
  destruct (Z.le_gt_cases 0 (u - v)); pow2_cases.
Qed.

Lemma pnum_neg (e : Z) : e <= 0 -> pnum e = 1.
Proof. intros H. unfold pnum. rewrite Z.max_r by lia. reflexivity. Qed.

Lemma pden_neg (e : Z) : e <= 0 -> pden e = 2 ^ (- e).
Proof. intros H. unfold pden. rewrite Z.max_l by lia. reflexivity. Qed.

Lemma pow2_le (u v : Z) : 0 <= u <= v -> 2 ^ u <= 2 ^ v.
Proof. intros H. apply Z.pow_le_mono_r; lia. Qed.

Lemma scaled_eq (a b e : Z) : scaled a b e = (a * pden e, b * pnum e).
Proof. reflexivity. Qed.

(** The exponent chosen for [a / b]: the scaled quotient is below [2^53],
    and it is at least [2^52] unless the exponent is that of the subnormal
    numbers. *)
Lemma exp_of_spec (a b : Z) :
  0 < a -> 0 < b ->
  - 1074 <= exp_of a b
  /\ a * pden (exp_of a b) < b * pnum (exp_of a b) * 2 ^ 53
  /\ (- 1074 < exp_of a b ->
      2 ^ 52 * (b * pnum (exp_of a b)) <= a * pden (exp_of a b)).
Proof.
  intros Ha Hb.
  pose proof (Z.log2_spec a Ha) as [HA1 HA2].
  pose proof (Z.log2_spec b Hb) as [HB1 HB2].
  pose proof (Z.log2_nonneg a) as Hla.
  pose proof (Z.log2_nonneg b) as Hlb.
  rewrite Z.pow_succ_r in HA2, HB2 by assumption.
  unfold exp_of. rewrite !scaled_eq. cbn [fst snd].
  set (la := Z.log2 a) in *. set (lb := Z.log2 b) in *.
  assert (H53 : 2 ^ 53 = 2 * 2 ^ 52) by reflexivity.
  destruct (Z.le_gt_cases (- 1074) (la - lb - 53)) as [Hc|Hc].
  - rewrite Z.max_l by lia.
    set (e0 := la - lb - 53) in *.
    pose proof (pnum_pden_diff la (lb + 53) Hla ltac:(lia)) as H1.
    replace (la - (lb + 53)) with e0 in H1 by (unfold e0; lia).
    rewrite Z.pow_add_r in H1 by lia.
    pose proof (pnum_pos e0) as Hn. pose proof (pden_pos e0) as Hd.
    pose proof (pnum_pos (e0 + 1)) as Hn'. pose proof (pden_pos (e0 + 1)) as Hd'.
    pose proof (pnum_pden_shift e0 (e0 + 1) ltac:(lia)) as H2.
    replace (e0 + 1 - e0) with 1 in H2 by lia. change (2 ^ 1) with 2 in H2.
    assert (HS : 0 < 2 ^ 52) by reflexivity.
    destruct (a * pden e0 <? b * pnum e0 * 2 ^ 53) eqn:E;
      [apply Z.ltb_lt in E | apply Z.ltb_ge in E];
      revert H1 H2 Hn Hd Hn' Hd' H53 HS E;
      generalize (pnum e0) (pden e0) (pnum (e0 + 1)) (pden (e0 + 1));
      generalize (2 ^ 53) (2 ^ 52) (2 ^ la) (2 ^ lb) HA1 HA2 HB1 HB2;
      clear - Hc Ha Hb;
      intros T S A B HA1 HA2 HB1 HB2 Pn Pd Pn' Pd' H1 H2 Hn Hd Hn' Hd' H53 HS E.
    + split; [lia|]. split; [exact E|]. intros _.
      assert (Pn * (B * T) <= Pd * a) by nia.
      assert (Pn * (b * T) < Pn * (2 * B * T)) by nia.
      nia.
    + split; [lia|]. split.
      * apply (Z.mul_lt_mono_pos_r Pd); [lia|].
        assert (a * Pd < 2 * (Pn * (b * T))).
        { assert (a * Pd < 2 * A * Pd) by nia.
          assert (Pn * (B * T) <= Pn * (b * T)) by nia. nia. }
        replace (b * Pn' * T * Pd) with (b * T * (Pn' * Pd)) by ring.
        rewrite H2. nia.
      * intros _. apply (Z.mul_le_mono_pos_r _ _ Pd); [lia|].
        replace (S * (b * Pn') * Pd) with (S * b * (Pn' * Pd)) by ring.
        rewrite H2. nia.
  - rewrite Z.max_r by lia.
    assert (E : (a * pden (- 1074) <? b * pnum (- 1074) * 2 ^ 53) = true).
    { apply Z.ltb_lt. rewrite pnum_neg, pden_neg by lia.
      assert (2 ^ la * 2 ^ 1075 <= 2 ^ lb * 2 ^ 53).
      { rewrite <- !Z.pow_add_r by lia. apply pow2_le. lia. }
      change (- - 1074) with 1074.
      assert (2 ^ 1075 = 2 * 2 ^ 1074) by reflexivity.
      assert (0 < 2 ^ 1074) by (apply Z.pow_pos_nonneg; lia).
      assert (0 < 2 ^ 53) by (apply Z.pow_pos_nonneg; lia).
      revert H H0 H1 H2. generalize (2 ^ 1075) (2 ^ 1074) (2 ^ 53).
      generalize (2 ^ la) (2 ^ lb) HA1 HA2 HB1 HB2. clear.
      intros A B HA1 HA2 HB1 HB2 U V T H H0 H1 H2. nia. }
    rewrite E. split; [lia|]. split; [apply Z.ltb_lt, E|lia].
Qed.

(** Rounding stays below a float: when [a / b] is below the midpoint that
    follows the float [M * 2^E], the rounded quotient is a finite float not
    above [M * 2^E], within half a unit in the last place of [a / b]. *)
Lemma round64_upper (a b M E : Z) :
  0 < a -> 0 < b ->
  2 ^ 52 <= M < 2 ^ 53 -> - 1074 <= E <= 971 ->
  2 * (a * pden E) < (2 * M + 1) * (b * pnum E) ->
  exists m e : Z,
    round64 a b = Fin m e
    /\ e <= E /\ 0 <= m
    /\ m * pnum e * pden E <= M * pnum E * pden e
    /\ - (b * pnum e) <= 2 * (m * (b * pnum e) - a * pden e) <= b * pnum e.
Proof.
  intros Ha Hb HM HE Hle.
  destruct (exp_of_spec a b Ha Hb) as [Hlo [Hup Hnorm]].
  set (e := exp_of a b) in *.
  set (m := mant_at a b e).
  pose proof (pnum_pos e) as Hn. pose proof (pden_pos e) as Hd.
  pose proof (pnum_pos E) as HnE. pose proof (pden_pos E) as HdE.
  assert (H53 : 2 ^ 53 = 2 * 2 ^ 52) by reflexivity.
  assert (HS : 0 < 2 ^ 52) by reflexivity.
  assert (Hbn : 0 < b * pnum e) by nia.
  assert (Hm : m = rne_div (a * pden e) (b * pnum e)) by reflexivity.
  pose proof (rne_div_error (a * pden e) (b * pnum e) Hbn) as Herr.
  rewrite <- Hm in Herr.
  assert (HeE : e <= E).
  { destruct (Z.le_gt_cases e E) as [H|H]; [exact H|exfalso].
    specialize (Hnorm ltac:(lia)).
    pose proof (pnum_pden_shift E e ltac:(lia)) as Hs.
    assert (HK : 2 <= 2 ^ (e - E)).
    { change 2 with (2 ^ 1) at 1. apply pow2_le. lia. }
    revert Hs HK Hnorm Hle HM H53 HS Hn Hd HnE HdE.
    generalize (2 ^ (e - E)) (pnum e) (pden e) (pnum E) (pden E)
               (2 ^ 53) (2 ^ 52).
    clear - Ha Hb. intros K Pn Pd PnE PdE T S Hs HK Hnorm Hle HM H53 HS Hn Hd HnE HdE.
    assert (H1 : a * PdE * Pd < 2 * S * (b * PnE) * Pd).
    { apply Z.mul_lt_mono_pos_r; [lia|]. nia. }
    assert (H2 : S * (b * Pn) * PdE <= a * Pd * PdE).
    { apply Z.mul_le_mono_pos_r; [lia|]. exact Hnorm. }
    assert (H3 : S * b * (Pn * PdE) < 2 * S * b * (PnE * Pd)) by nia.
    rewrite Hs in H3.
    assert (H4 : 0 < S * b * (PnE * Pd)) by nia.
    nia. }
  assert (Hm53 : m <= 2 ^ 53).
  { rewrite Hm. apply rne_div_le; [exact Hbn|]. nia. }
  assert (HmM : e = E -> m <= M).
  { intros ->. rewrite Hm. apply rne_div_le; [exact Hbn|]. exact Hle. }
  exists m, e. split.
  - unfold round64.
    replace (a =? 0) with false by (symmetry; apply Z.eqb_neq; lia).
    fold e. fold m.
    replace (971 <? e) with false by (symmetry; apply Z.ltb_ge; lia).
    destruct (e =? 971) eqn:E1; [|reflexivity].
    apply Z.eqb_eq in E1.
    replace (m =? 2 ^ 53) with false; [reflexivity|].
    symmetry. apply Z.eqb_neq. specialize (HmM ltac:(lia)). lia.
  - split; [exact HeE|]. split.
    + rewrite Hm. apply rne_div_nonneg; nia.
    + split; [|exact Herr].
      destruct (Z.eq_dec e E) as [->|Hne].
      * specialize (HmM eq_refl).
        apply Z.mul_le_mono_nonneg_r; [lia|].
        apply Z.mul_le_mono_nonneg_r; lia.
      * pose proof (pnum_pden_shift e E ltac:(lia)) as Hs.
        assert (HK : 2 <= 2 ^ (E - e)).
        { change 2 with (2 ^ 1) at 1. apply pow2_le. lia. }
        revert Hs HK Hm53 HM H53 HS Hn Hd HnE HdE.
        generalize (2 ^ (E - e)) (pnum e) (pden e) (pnum E) (pden E)
                   (2 ^ 53) (2 ^ 52) m.
        clear. intros K Pn Pd PnE PdE T S m Hs HK Hm53 HM H53 HS Hn Hd HnE HdE.
        assert (H1 : m * (Pn * PdE) <= 2 * S * (Pn * PdE)) by nia.
        assert (H2 : 2 * S * (Pn * PdE) <= S * (K * Pn * PdE)) by nia.
        assert (H3 : S * (PnE * Pd) <= M * (PnE * Pd)) by nia.
        rewrite <- Hs in H2. nia.
Qed.

(** What [round64] returns on a positive quotient. *)
Lemma round64_cases (a b : Z) :
  0 < a ->
  round64 a b
  = if (971 <? exp_of a b)
       || ((exp_of a b =? 971) && (mant_at a b (exp_of a b) =? 2 ^ 53))
    then Inf false
    else Fin (mant_at a b (exp_of a b)) (exp_of a b).
Proof.
  intros Ha. unfold round64.
  replace (a =? 0) with false by (symmetry; apply Z.eqb_neq; lia).
  reflexivity.
Qed.

Lemma pow2_ge_4 (k : Z) : 2 <= k -> 4 <= 2 ^ k.
Proof. intros H. change 4 with (2 ^ 2). apply pow2_le. lia. Qed.

Lemma pow2_ge_1 (k : Z) : 0 <= k -> 1 <= 2 ^ k.
Proof. intros H. change 1 with (2 ^ 0). apply pow2_le. lia. Qed.

(** Rounding is monotone against a float [M * 2^E]: a quotient not above it
    rounds to a finite float not above it. *)
Lemma round64_le (a b M E : Z) :
  0 < a -> 0 < b ->
  0 <= M <= 2 ^ 53 -> - 1074 <= E <= 970 ->
  a * pden E <= M * (b * pnum E) ->
  exists m e : Z,
    round64 a b = Fin m e
    /\ 0 <= m
    /\ m * pnum e * pden E <= M * pnum E * pden e
    /\ - (b * pnum e) <= 2 * (m * (b * pnum e) - a * pden e) <= b * pnum e.
Proof.
  intros Ha Hb HM HE Hle.
  destruct (exp_of_spec a b Ha Hb) as [Hlo [Hup Hnorm]].
  rewrite (round64_cases a b Ha).
  set (e := exp_of a b) in *.
  set (m := mant_at a b e).
  pose proof (pnum_pos e) as Hn. pose proof (pden_pos e) as Hd.
  pose proof (pnum_pos E) as HnE. pose proof (pden_pos E) as HdE.
  assert (H53 : 2 ^ 53 = 2 * 2 ^ 52) by reflexivity.
  assert (HS : 0 < 2 ^ 52) by reflexivity.
  assert (Hbn : 0 < b * pnum e) by nia.
  assert (Hm : m = rne_div (a * pden e) (b * pnum e)) by reflexivity.
  pose proof (rne_div_error (a * pden e) (b * pnum e) Hbn) as Herr.
  rewrite <- Hm in Herr.
  assert (Hm0 : 0 <= m) by (rewrite Hm; apply rne_div_nonneg; nia).
  destruct (Z.le_gt_cases e E) as [HeE|HeE].
  - (* the float's exponent is at least that of the result *)
    pose proof (pnum_pden_shift e E HeE) as Hs.
    pose proof (pow2_ge_1 (E - e) ltac:(lia)) as HK.
    assert (Hq : a * pden e <= M * 2 ^ (E - e) * (b * pnum e)).
    { apply (Z.mul_le_mono_pos_r _ _ (pden E)); [lia|].
      replace (a * pden e * pden E) with (a * pden E * pden e) by ring.
      replace (M * 2 ^ (E - e) * (b * pnum e) * pden E)
        with (M * b * (2 ^ (E - e) * pnum e * pden E)) by ring.
      rewrite <- Hs.
      replace (M * b * (pnum E * pden e)) with (M * (b * pnum E) * pden e)
        by ring.
      apply Z.mul_le_mono_nonneg_r; lia. }
    assert (HmK : m <= M * 2 ^ (E - e)).
    { rewrite Hm. apply rne_div_le; [exact Hbn|]. lia. }
    exists m, e. split.
    + replace (971 <? e) with false by (symmetry; apply Z.ltb_ge; lia).
      replace (e =? 971) with false by (symmetry; apply Z.eqb_neq; lia).
      reflexivity.
    + split; [exact Hm0|]. split; [|exact Herr].
      replace (M * pnum E * pden e) with (M * (pnum E * pden e)) by ring.
      rewrite Hs.
      replace (M * (2 ^ (E - e) * pnum e * pden E))
        with (M * 2 ^ (E - e) * (pnum e * pden E)) by ring.
      replace (m * pnum e * pden E) with (m * (pnum e * pden E)) by ring.
      apply Z.mul_le_mono_nonneg_r; [nia | exact HmK].
  - (* otherwise the quotient is the float itself, a power of two *)
    specialize (Hnorm ltac:(lia)).
    pose proof (pnum_pden_shift E e ltac:(lia)) as Hs.
    assert (He1 : e - E = 1).
    { destruct (Z.le_gt_cases 2 (e - E)) as [H2|H2]; [|lia].
      exfalso. pose proof (pow2_ge_4 (e - E) H2) as H4.
      assert (H1 : 2 ^ 52 * (b * pnum e) * pden E
                   <= a * pden e * pden E)
        by (apply Z.mul_le_mono_nonneg_r; lia).
      assert (H3 : a * pden E * pden e <= M * (b * pnum E) * pden e)
        by (apply Z.mul_le_mono_nonneg_r; lia).
      replace (2 ^ 52 * (b * pnum e) * pden E)
        with (2 ^ 52 * b * (pnum e * pden E)) in H1 by ring.
      rewrite Hs in H1.
      assert (H5 : 0 < b * (pnum E * pden e)) by nia.
      revert H1 H3 H4 H5 HM H53 HS.
      generalize (2 ^ (e - E)) (2 ^ 53) (2 ^ 52) (pnum E) (pden e) (pden E) (pnum e).
      intros K T S PnE Pd PdE Pn H1 H3 H4 H5 HM H53 HS.
      assert (H6 : S * b * (K * PnE * Pd) <= M * (b * PnE) * Pd) by lia.
      assert (H7 : S * K * (b * (PnE * Pd)) <= M * (b * (PnE * Pd))) by lia.
      assert (H8 : S * K <= M).
      { apply (Z.mul_le_mono_pos_r _ _ (b * (PnE * Pd))); assumption. }
        nia. }
    rewrite He1 in Hs. change (2 ^ 1) with 2 in Hs.
    assert (Heq : a * pden e = 2 ^ 52 * (b * pnum e) /\ M = 2 ^ 53).
    { assert (H1 : 2 ^ 52 * (b * pnum e) * pden E <= a * pden e * pden E)
        by (apply Z.mul_le_mono_nonneg_r; lia).
      assert (H3 : a * pden E * pden e <= M * (b * pnum E) * pden e)
        by (apply Z.mul_le_mono_nonneg_r; lia).
      replace (2 ^ 52 * (b * pnum e) * pden E)
        with (2 ^ 52 * b * (pnum e * pden E)) in H1 by ring.
      rewrite Hs in H1.
      assert (H5 : 0 < b * (pnum E * pden e)) by nia.
      assert (HM' : M = 2 ^ 53).
      { revert H1 H3 H5 HM H53 HS.
        generalize (2 ^ 53) (2 ^ 52) (pnum E) (pden e) (pden E) (pnum e).
        intros T S PnE Pd PdE Pn H1 H3 H5 HM H53 HS.
        assert (H7 : 2 * S * (b * (PnE * Pd)) <= M * (b * (PnE * Pd))) by lia.
        assert (H8 : 2 * S <= M).
        { apply (Z.mul_le_mono_pos_r _ _ (b * (PnE * Pd))); assumption. }
        lia. }
      split; [|exact HM'].
      apply (Z.mul_cancel_r _ _ (pden E)); [lia|].
      replace (2 ^ 52 * (b * pnum e) * pden E)
        with (2 ^ 52 * b * (pnum e * pden E)) by ring.
      rewrite Hs. rewrite HM', H53 in H3.
      revert H1 H3.
      generalize (2 ^ 52) (pnum E) (pden e) (pden E) (pnum e).
      intros S PnE Pd PdE Pn H1 H3. lia. }
    destruct Heq as [Heq HM'].
    assert (Hm52 : m = 2 ^ 52).
    { rewrite Hm, Heq. apply rne_div_nearest; [exact Hbn|].
      rewrite Z.sub_diag. lia. }
    exists m, e. split.
    + replace (971 <? e) with false by (symmetry; apply Z.ltb_ge; lia).
      rewrite Hm52. change (2 ^ 52 =? 2 ^ 53) with false.
      rewrite andb_false_r. reflexivity.
    + split; [exact Hm0|]. split; [|exact Herr].
      rewrite Hm52, HM'.
      replace (2 ^ 52 * pnum e * pden E) with (2 ^ 52 * (pnum e * pden E))
        by ring.
      rewrite Hs. rewrite H53. lia.
Qed.

(** A quotient not below a float [M * 2^E] rounds to a float not below it. *)
Lemma round64_ge (a b M E m e : Z) :
  0 < a -> 0 < b ->
  0 <= M <= 2 ^ 53 -> - 1074 <= E ->
  M * (b * pnum E) <= a * pden E ->
  round64 a b = Fin m e ->
  M * pnum E * pden e <= m * pnum e * pden E.
Proof.
  intros Ha Hb HM HE Hge Hr.
  destruct (exp_of_spec a b Ha Hb) as [Hlo [Hup Hnorm]].
  rewrite (round64_cases a b Ha) in Hr.
  destruct ((971 <? exp_of a b)
            || ((exp_of a b =? 971) && (mant_at a b (exp_of a b) =? 2 ^ 53)));
    [discriminate Hr|].
  injection Hr as Hm He. rewrite He in *. clear He.
  pose proof (pnum_pos e) as Hn. pose proof (pden_pos e) as Hd.
  pose proof (pnum_pos E) as HnE. pose proof (pden_pos E) as HdE.
  assert (H53 : 2 ^ 53 = 2 * 2 ^ 52) by reflexivity.
  assert (HS : 0 < 2 ^ 52) by reflexivity.
  assert (Hbn : 0 < b * pnum e) by nia.
  unfold mant_at in Hm. rewrite scaled_eq in Hm. cbn [fst snd] in Hm.
  destruct (Z.le_gt_cases e E) as [HeE|HeE].
  - pose proof (pnum_pden_shift e E HeE) as Hs.
    pose proof (pow2_ge_1 (E - e) ltac:(lia)) as HK.
    assert (Hq : M * 2 ^ (E - e) * (b * pnum e) <= a * pden e).
    { apply (Z.mul_le_mono_pos_r _ _ (pden E)); [lia|].
      replace (a * pden e * pden E) with (a * pden E * pden e) by ring.
      replace (M * 2 ^ (E - e) * (b * pnum e) * pden E)
        with (M * b * (2 ^ (E - e) * pnum e * pden E)) by ring.
      rewrite <- Hs.
      replace (M * b * (pnum E * pden e)) with (M * (b * pnum E) * pden e)
        by ring.
      apply Z.mul_le_mono_nonneg_r; lia. }
    assert (HmK : M * 2 ^ (E - e) <= m).
    { rewrite <- Hm. apply rne_div_ge; [exact Hbn|]. lia. }
    replace (M * pnum E * pden e) with (M * (pnum E * pden e)) by ring.
    rewrite Hs.
    replace (M * (2 ^ (E - e) * pnum e * pden E))
      with (M * 2 ^ (E - e) * (pnum e * pden E)) by ring.
    replace (m * pnum e * pden E) with (m * (pnum e * pden E)) by ring.
    apply Z.mul_le_mono_nonneg_r; [nia | exact HmK].
  - specialize (Hnorm ltac:(lia)).
    pose proof (pnum_pden_shift E e ltac:(lia)) as Hs.
    assert (HK : 2 <= 2 ^ (e - E)).
    { change 2 with (2 ^ 1) at 1. apply pow2_le. lia. }
    assert (Hm52 : 2 ^ 52 <= m).
    { rewrite <- Hm. apply rne_div_ge; [exact Hbn|]. lia. }
    replace (m * pnum e * pden E) with (m * (pnum e * pden E)) by ring.
    rewrite Hs.
    replace (M * pnum E * pden e) with (M * (pnum E * pden e)) by ring.
    replace (m * (2 ^ (e - E) * pnum E * pden e))
      with (m * 2 ^ (e - E) * (pnum E * pden e)) by ring.
    apply Z.mul_le_mono_nonneg_r; [nia|].
    revert Hm52 HK HM H53 HS.
    generalize (2 ^ (e - E)) (2 ^ 53) (2 ^ 52).
    intros K T S Hm52 HK HM H53 HS. nia.
Qed.

(** A quotient that is a float is returned as it is. *)
Lemma round64_exact (a b M E : Z) :
  0 < a -> 0 < b ->
  0 <= M <= 2 ^ 53 -> - 1074 <= E <= 970 ->
  a * pden E = M * (b * pnum E) ->
  exists m e : Z,
    round64 a b = Fin m e /\ 0 <= m /\ m * pnum e * b = a * pden e.
Proof.
  intros Ha Hb HM HE Heq.
  destruct (round64_le a b M E Ha Hb HM HE ltac:(lia))
    as (m & e & Hr & Hm & Hle & _).
  pose proof (round64_ge a b M E m e Ha Hb HM ltac:(lia) ltac:(lia) Hr) as Hge.
  exists m, e. split; [exact Hr|]. split; [exact Hm|].
  pose proof (pden_pos E) as HdE. pose proof (pnum_pos E) as HnE.
  apply (Z.mul_cancel_r _ _ (pden E)); [lia|].
  assert (H1 : m * pnum e * pden E = M * pnum E * pden e) by lia.
  replace (m * pnum e * b * pden E) with (m * pnum e * pden E * b) by ring.
  rewrite H1.
  replace (a * pden e * pden E) with (a * pden E * pden e) by ring.
  rewrite Heq. ring.
Qed.

Lemma round64_signed_exact (a b M E : Z) :
  0 < b ->
  0 <= M <= 2 ^ 53 -> - 1074 <= E <= 970 ->
  Z.abs a * pden E = M * (b * pnum E) ->
  exists m e : Z,
    round64_signed a b = Fin m e /\ m * pnum e * b = a * pden e.
Proof.
  intros Hb HM HE Heq. unfold round64_signed.
  destruct (a <? 0) eqn:Es; [apply Z.ltb_lt in Es | apply Z.ltb_ge in Es].
  - rewrite Z.abs_neq in Heq by lia.
    destruct (round64_exact (- a) b M E ltac:(lia) Hb HM HE Heq)
      as (m & e & Hr & _ & Hv).
    exists (- m), e. rewrite Hr. split; [reflexivity|]. lia.
  - rewrite Z.abs_eq in Heq by lia.
    destruct (Z.eq_dec a 0) as [->|Hne].
    + exists 0, 0. split; [reflexivity|]. reflexivity.
    + destruct (round64_exact a b M E ltac:(lia) Hb HM HE Heq)
        as (m & e & Hr & _ & Hv).
      exists m, e. split; [exact Hr | exact Hv].
Qed.

(** [float(x)] is [x] itself up to [2^53]. *)
Lemma float_of_int_exact (x : Z) :
  Z.abs x <= 2 ^ 53 ->
  exists m e : Z, float_of_int x = Fin m e /\ m * pnum e = x * pden e.
Proof.
  intros Hx.
  destruct (round64_signed_exact x 1 (Z.abs x) 0 ltac:(lia)
              ltac:(lia) ltac:(lia)) as (m & e & Hr & Hv).
  { change (pden 0) with 1. change (pnum 0) with 1. lia. }
  exists m, e. split; [exact Hr | lia].
Qed.

Lemma int_of_float_exact (m e d : Z) :
  m * pnum e = d * pden e -> int_of_float (Fin m e) = d.
Proof.
  intros H. unfold int_of_float.
  change (fnum (Fin m e)) with (m * pnum e).
  change (fden (Fin m e)) with (pden e).
  rewrite H. apply Z.div_mul. pose proof (pden_pos e). lia.
Qed.

(** The operands of a float subtraction on a common exponent. *)
Lemma fsub_operand (m e1 e p : Z) :
  e <= e1 -> m * pnum e1 = p * pden e1 ->
  m * 2 ^ (e1 - e) * pnum e = p * pden e.
Proof.
  intros He Hv.
  pose proof (pnum_pden_shift e e1 He) as Hs.
  pose proof (pden_pos e1) as Hd1.
  apply (Z.mul_cancel_r _ _ (pden e1)); [lia|].
  replace (m * 2 ^ (e1 - e) * pnum e * pden e1)
    with (m * (2 ^ (e1 - e) * pnum e * pden e1)) by ring.
  rewrite <- Hs.
  replace (m * (pnum e1 * pden e)) with (m * pnum e1 * pden e) by ring.
  rewrite Hv. ring.
Qed.

(** The difference of two floats with integer values is exact up to
    [2^53]. *)
Lemma fsub_exact (m1 e1 m2 e2 p q : Z) :
  m1 * pnum e1 = p * pden e1 ->
  m2 * pnum e2 = q * pden e2 ->
  Z.abs (p - q) <= 2 ^ 53 ->
  exists m e : Z,
    fsub (Fin m1 e1) (Fin m2 e2) = Fin m e /\ m * pnum e = (p - q) * pden e.
Proof.
  intros H1 H2 Hd. unfold fsub.
  set (e := Z.min e1 e2).
  pose proof (fsub_operand m1 e1 e p ltac:(unfold e; lia) H1) as O1.
  pose proof (fsub_operand m2 e2 e q ltac:(unfold e; lia) H2) as O2.
  pose proof (pden_pos e) as Hde.
  assert (Hn : (m1 * 2 ^ (e1 - e) - m2 * 2 ^ (e2 - e)) * pnum e
               = (p - q) * pden e) by lia.
  change (2 ^ Z.max e 0) with (pnum e).
  change (2 ^ Z.max (- e) 0) with (pden e).
  rewrite Hn.
  destruct (round64_signed_exact ((p - q) * pden e) (pden e)
              (Z.abs (p - q)) 0 Hde ltac:(lia) ltac:(lia))
    as (m & e' & Hr & Hv).
  { change (pden 0) with 1. change (pnum 0) with 1.
    rewrite Z.abs_mul, (Z.abs_eq (pden e)) by lia. ring. }
  exists m, e'. split; [exact Hr|].
  apply (Z.mul_cancel_r _ _ (pden e)); [lia|]. lia.
Qed.

(** ** Ranking: [df_selected_year_sorted] *)

Lemma insert_ltb_filter {A : Type} (by_ : A -> Z) (p : Z) (x : A) (l : list A) :
  filter (fun r => by_ r =? p) (insert_desc Z.ltb by_ x l)
  = filter (fun r => by_ r =? p) (x :: l).
Proof.
  induction l as [|y l IH]; simpl.
  - reflexivity.
  - destruct (by_ x <? by_ y) eqn:E; simpl.
    + rewrite IH; simpl.
      apply Z.ltb_lt in E.
      destruct (by_ x =? p) eqn:Ex; destruct (by_ y =? p) eqn:Ey;
        try reflexivity.
      apply Z.eqb_eq in Ex, Ey. lia.
    + reflexivity.
Qed.

(** With the kernel that keeps ties, the ranking is stable. *)
Lemma kernel_stable_ties (l : list Row) :
  ties_in_input_order l (@sort_values_desc kernel_stable Row population l).
Proof.
  intros p. simpl.
  induction l as [|x l IH]; simpl.
  - reflexivity.
  - rewrite insert_ltb_filter. simpl. rewrite IH. reflexivity.
Qed.

(** C4, as the code has it.  For every table and year and whichever kernel
    pandas sorts with, the ranking [df_selected_year_sorted] holds exactly the
    rows of the selected year, and their populations are non-increasing: no
    row is followed by a row with a larger population.  The order of rows
    with equal population is not part of what the call guarantees. *)
Theorem df_selected_year_sorted_descending :
  forall (K : SortKernel) (df_reshaped : list Row) (selected_year : Z),
    Permutation (df_selected_year df_reshaped selected_year)
                (df_selected_year_sorted df_reshaped selected_year)
    /\ descending population (df_selected_year_sorted df_reshaped selected_year)
    /\ Forall (fun r => year r = selected_year)
              (df_selected_year_sorted df_reshaped selected_year).
Proof.
  intros K df y. unfold df_selected_year_sorted.
  split; [apply sort_values_perm|].
  split; [apply sort_values_descending|].
  apply (Permutation_Forall (sort_values_perm Row population _)).
  unfold df_selected_year. apply Forall_forall. intros r Hr.
  apply filter_In in Hr. destruct Hr as [_ Hr]. apply Z.eqb_eq, Hr.
Qed.

(** C4, as stated, fails.  [table_ties] has twenty states with 500
    inhabitants each.  Beyond 17 rows numpy's quicksort partitions the keys
    around a pivot, and the rows come out in another order than they went
    in: the ranking is non-increasing, but its ties are not in input
    order. *)
Lemma df_selected_year_sorted_not_stable :
  descending population (@df_selected_year_sorted kernel_numpy table_ties 2010)
  /\ @df_selected_year_sorted kernel_numpy table_ties 2010
     = @sort_values_numpy Row population (df_selected_year table_ties 2010)
  /\ ~ ties_in_input_order
         (df_selected_year table_ties 2010)
         (@df_selected_year_sorted kernel_numpy table_ties 2010).
Proof.
  split; [apply sort_values_descending|].
  split; [vm_compute; reflexivity|].
  intros H. specialize (H 500).
  apply (f_equal (map id)) in H. vm_compute in H. discriminate H.
Qed.

(** ** The dtype of a column and the subtraction of series *)

(** The subtraction of aligned series is exact up to [2^53]. *)
Lemma sub_aligned_exact (d : dtype) (x y : Z) :
  Z.abs x <= 2 ^ 53 -> Z.abs y <= 2 ^ 53 -> Z.abs (x - y) <= 2 ^ 53 ->
  sub_aligned d x y = x - y.
Proof.
  intros Hx Hy Hd.
  assert (H : int_of_float (fsub (float_of_int x) (float_of_int y)) = x - y).
  { destruct (float_of_int_exact x Hx) as (m1 & e1 & -> & H1).
    destruct (float_of_int_exact y Hy) as (m2 & e2 & -> & H2).
    destruct (fsub_exact m1 e1 m2 e2 x y H1 H2 Hd) as (m & e & -> & Hv).
    apply int_of_float_exact, Hv. }
  destruct d; simpl; [exact H | exact H | reflexivity].
Qed.

(** The subtraction of machine integers does not wrap on populations that
    are not negative. *)
Lemma sub_same_exact (d : dtype) (x y : Z) :
  0 <= x < 2 ^ 63 -> 0 <= y < 2 ^ 63 ->
  d <> uint64 ->
  sub_same d x y = x - y.
Proof.
  intros Hx Hy Hd. destruct d; simpl; [|congruence|reflexivity].
  unfold wrap_int64.
  assert (H63 : 2 ^ 64 = 2 * 2 ^ 63) by reflexivity.
  assert (0 < 2 ^ 63) by reflexivity.
  rewrite Z.mod_small; lia.
Qed.

(** What the dtype of a column says of its values. *)
Lemma column_dtype_int64 (values : list Z) :
  column_dtype values = int64
  <-> Forall (fun v => - 2 ^ 63 <= v < 2 ^ 63) values.
Proof.
  unfold column_dtype.
  destruct (forallb (fun v => (- 2 ^ 63 <=? v) && (v <? 2 ^ 63)) values) eqn:E.
  - split; [intros _ | reflexivity].
    rewrite forallb_forall in E. apply Forall_forall. intros v Hv.
    specialize (E v Hv). apply andb_true_iff in E. destruct E as [E1 E2].
    apply Z.leb_le in E1. apply Z.ltb_lt in E2. lia.
  - split.
    + intros H.
      destruct (forallb (fun v => (0 <=? v) && (v <? 2 ^ 64)) values);
        discriminate H.
    + intros H. exfalso.
      assert (forallb (fun v => (- 2 ^ 63 <=? v) && (v <? 2 ^ 63)) values
              = true); [|congruence].
      apply forallb_forall. intros v Hv. rewrite Forall_forall in H.
      specialize (H v Hv). apply andb_true_iff. split;
        [apply Z.leb_le | apply Z.ltb_lt]; lia.
Qed.

Lemma column_dtype_bounds (values : list Z) :
  column_dtype values <> object ->
  Forall (fun v => - 2 ^ 63 <= v < 2 ^ 64) values.
Proof.
  unfold column_dtype. intros H.
  destruct (forallb (fun v => (- 2 ^ 63 <=? v) && (v <? 2 ^ 63)) values) eqn:E.
  - rewrite forallb_forall in E. apply Forall_forall. intros v Hv.
    specialize (E v Hv). apply andb_true_iff in E. destruct E as [E1 E2].
    apply Z.leb_le in E1. apply Z.ltb_lt in E2.
    assert (2 ^ 63 <= 2 ^ 64) by (apply Z.leb_le; reflexivity). lia.
  - destruct (forallb (fun v => (0 <=? v) && (v <? 2 ^ 64)) values) eqn:E';
      [|congruence].
    rewrite forallb_forall in E'. apply Forall_forall. intros v Hv.
    specialize (E' v Hv). apply andb_true_iff in E'. destruct E' as [E1 E2].
    apply Z.leb_le in E1. apply Z.ltb_lt in E2.
    assert (0 < 2 ^ 63) by reflexivity. lia.
Qed.

(** A float between two integers. *)
Lemma round64_between (a b c : Z) :
  0 < a -> 0 < b -> 0 <= c <= 2 ^ 53 ->
  c * b <= a -> a <= 2 ^ 64 * b ->
  exists m e : Z,
    round64 a b = Fin m e
    /\ c * pden e <= m * pnum e
    /\ m * pnum e <= 2 ^ 64 * pden e.
Proof.
  intros Ha Hb Hc Hlo Hhi.
  destruct (round64_le a b (2 ^ 53) 11 Ha Hb ltac:(lia) ltac:(lia))
    as (m & e & Hr & Hm & Hle & _).
  { change (pden 11) with 1. change (pnum 11) with (2 ^ 11).
    replace (2 ^ 53 * (b * 2 ^ 11)) with (2 ^ 64 * b); [lia|].
    change (2 ^ 64) with (2 ^ 53 * 2 ^ 11). ring. }
  pose proof (round64_ge a b c 0 m e Ha Hb Hc ltac:(lia)) as Hge.
  change (pden 0) with 1 in Hge. change (pnum 0) with 1 in Hge.
  specialize (Hge ltac:(lia) Hr).
  change (pden 11) with 1 in Hle. change (pnum 11) with (2 ^ 11) in Hle.
  exists m, e. split; [exact Hr|]. split; [lia|].
  change (2 ^ 64) with (2 ^ 53 * 2 ^ 11). lia.
Qed.

(** The difference of a population and nothing, on aligned series, is not
    below what the population is not below. *)
Lemma sub_aligned_zero_ge (d : dtype) (x c : Z) :
  0 < c <= 2 ^ 53 -> c <= x -> x < 2 ^ 64 ->
  c <= sub_aligned d x 0.
Proof.
  intros Hc Hx Hhi.
  assert (H : c <= int_of_float (fsub (float_of_int x) (float_of_int 0))).
  { unfold float_of_int at 1. unfold round64_signed.
    replace (x <? 0) with false by (symmetry; apply Z.ltb_ge; lia).
    destruct (round64_between x 1 c ltac:(lia) ltac:(lia) ltac:(lia)
                ltac:(lia) ltac:(lia)) as (m1 & e1 & -> & Hlo1 & Hhi1).
    change (float_of_int 0) with (Fin 0 0).
    unfold fsub. set (e := Z.min e1 0).
    change (2 ^ Z.max e 0) with (pnum e).
    change (2 ^ Z.max (- e) 0) with (pden e).
    pose proof (pden_pos e) as Hde. pose proof (pden_pos e1) as Hde1.
    pose proof (pnum_pos e) as Hne.
    assert (Hsh : pnum e1 * pden e = 2 ^ (e1 - e) * pnum e * pden e1)
      by (apply pnum_pden_shift; unfold e; lia).
    set (a := (m1 * 2 ^ (e1 - e) - 0 * 2 ^ (0 - e)) * pnum e).
    assert (Ha : a * pden e1 = m1 * pnum e1 * pden e).
    { unfold a.
      replace ((m1 * 2 ^ (e1 - e) - 0 * 2 ^ (0 - e)) * pnum e * pden e1)
        with (m1 * (2 ^ (e1 - e) * pnum e * pden e1)) by ring.
      rewrite <- Hsh. ring. }
    assert (Hlo : c * pden e <= a).
    { apply (Z.mul_le_mono_pos_r _ _ (pden e1)); [lia|]. rewrite Ha.
      replace (c * pden e * pden e1) with (c * pden e1 * pden e) by ring.
      apply Z.mul_le_mono_nonneg_r; lia. }
    assert (Hup : a <= 2 ^ 64 * pden e).
    { apply (Z.mul_le_mono_pos_r _ _ (pden e1)); [lia|]. rewrite Ha.
      replace (2 ^ 64 * pden e * pden e1) with (2 ^ 64 * pden e1 * pden e)
        by ring.
      apply Z.mul_le_mono_nonneg_r; lia. }
    assert (Hapos : 0 < a) by nia.
    unfold round64_signed.
    replace (a <? 0) with false by (symmetry; apply Z.ltb_ge; lia).
    destruct (round64_between a (pden e) c Hapos Hde ltac:(lia) Hlo Hup)
      as (m & e' & -> & Hlo' & _).
    unfold int_of_float.
    change (fnum (Fin m e')) with (m * pnum e').
    change (fden (Fin m e')) with (pden e').
    pose proof (pden_pos e') as Hde'.
    apply Z.div_le_lower_bound; lia. }
  destruct d; simpl; [exact H | exact H | lia].
Qed.

(** ** Year-over-year differences: [calculate_population_difference] *)

(** C6.  For every table and year, the frame returned by
    [calculate_population_difference] is ordered descending by
    [population_difference]: every row's difference is greater than or equal
    to that of the row after it. *)
Theorem calculate_population_difference_descending :
  forall (K : SortKernel) (input_df : list Row) (input_year : Z),
    descending Delta.population_difference
      (calculate_population_difference input_df input_year).
Proof.
  intros K df y. unfold calculate_population_difference.
  apply sort_values_descending.
Qed.

(** C1, at a table where the code leaves the claim.  In [table_new_state]
    state B has a row for 2011 and none for 2010, and comes before state A in
    the 2011 slice.  The subtraction pairs rows by position, not by state: B
    gets 250 - 100 = 150 (A's 2010 population is subtracted from it) and A
    gets 200 - 0 = 200, whereas pairing on the state gives 250 for B
    (nothing to subtract) and 100 for A. *)
Theorem calculate_population_difference_pairs_by_position :
  forall K : SortKernel,
    calculate_population_difference table_new_state 2011
    = [ Delta.mk (Some "A"%string) (Some 1) (Some 200) 200;
        Delta.mk (Some "B"%string) (Some 2) (Some 250) 150 ]
    /\ population_of table_new_state 2011 "B"
       - population_of table_new_state 2010 "B" = 250
    /\ population_of table_new_state 2011 "A"
       - population_of table_new_state 2010 "A" = 100.
Proof.
  intros K. split; [|split; reflexivity].
  unfold calculate_population_difference.
  change (population_difference_frame table_new_state 2011)
    with [ Delta.mk (Some "B"%string) (Some 2) (Some 250) 150;
           Delta.mk (Some "A"%string) (Some 1) (Some 200) 200 ].
  apply sort_values_two. simpl. lia.
Qed.

Lemma total_app (l1 l2 : list Z) : total (l1 ++ l2) = total l1 + total l2.
Proof. induction l1 as [|x l1 IH]; simpl; [reflexivity | rewrite IH; lia]. Qed.

Lemma total_perm (l1 l2 : list Z) : Permutation l1 l2 -> total l1 = total l2.
Proof. induction 1; simpl; lia. Qed.

Lemma total_cons (x : Z) (l : list Z) : total (x :: l) = x + total l.
Proof. reflexivity. Qed.

Lemma total_map_opp (l : list Z) : total (map (fun y => 0 - y) l) = - total l.
Proof.
  induction l as [|x l IH]; [reflexivity|].
  rewrite map_cons, !total_cons, IH. lia.
Qed.

Lemma total_map_sub0 (l : list Z) : total (map (fun x => x - 0) l) = total l.
Proof.
  induction l as [|x l IH]; [reflexivity|].
  rewrite map_cons, !total_cons, IH. lia.
Qed.

(** *** The subtraction of the two series *)

Lemma zip_fill0_nil_r (f : Z -> Z -> Z) (a : list Z) :
  zip_fill0 f a [] = map (fun x => f x 0) a.
Proof. destruct a; reflexivity. Qed.

Lemma length_zip_fill0 (f : Z -> Z -> Z) (a b : list Z) :
  List.length (zip_fill0 f a b) = Nat.max (List.length a) (List.length b).
Proof.
  revert b. induction a as [|x a IH]; intros b.
  - simpl. apply length_map.
  - destruct b as [|y b].
    + rewrite zip_fill0_nil_r, length_map. reflexivity.
    + simpl. rewrite IH. reflexivity.
Qed.

Lemma length_sub_fill0 (d : dtype) (a b : list Z) :
  List.length (sub_fill0 d a b) = Nat.max (List.length a) (List.length b).
Proof.
  unfold sub_fill0.
  destruct (List.length a =? List.length b)%nat; apply length_zip_fill0.
Qed.

(** Two subtractions that agree on the values of the series and on 0 give
    the same column. *)
Lemma zip_fill0_ext (f g : Z -> Z -> Z) (a b : list Z) :
  (forall x y : Z,
     (x = 0 \/ In x a) -> (y = 0 \/ In y b) -> f x y = g x y) ->
  zip_fill0 f a b = zip_fill0 g a b.
Proof.
  revert b. induction a as [|x a IH]; intros b H.
  - simpl. apply map_ext_in. intros y Hy. apply H; [left|right]; tauto.
  - destruct b as [|y b].
    + rewrite !zip_fill0_nil_r. apply map_ext_in. intros x' Hx'.
      apply H; [right|left]; tauto.
    + simpl. f_equal.
      * apply H; right; left; reflexivity.
      * apply IH. intros x' y' Hx' Hy'.
        apply H; simpl; tauto.
Qed.

Lemma total_zip_sub (a b : list Z) :
  total (zip_fill0 Z.sub a b) = total a - total b.
Proof.
  revert b. induction a as [|x a IH]; intros b.
  - change (zip_fill0 Z.sub [] b) with (map (fun y => 0 - y) b).
    rewrite total_map_opp. reflexivity.
  - destruct b as [|y b].
    + rewrite zip_fill0_nil_r, total_map_sub0. simpl. lia.
    + simpl. rewrite IH. lia.
Qed.

(** On populations from 0 to [2^53], in a column of machine integers, the
    subtraction is the exact one, whatever the lengths. *)
Lemma sub_fill0_exact (d : dtype) (a b : list Z) :
  d <> uint64 ->
  Forall (fun v => 0 <= v <= 2 ^ 53) a ->
  Forall (fun v => 0 <= v <= 2 ^ 53) b ->
  sub_fill0 d a b = zip_fill0 Z.sub a b.
Proof.
  intros Hd Ha Hb. rewrite Forall_forall in Ha, Hb.
  assert (H53 : 0 < 2 ^ 53 < 2 ^ 63) by (split; reflexivity).
  assert (Hv : forall x y, (x = 0 \/ In x a) -> (y = 0 \/ In y b) ->
                           0 <= x <= 2 ^ 53 /\ 0 <= y <= 2 ^ 53).
  { intros x y [->|Hx] [->|Hy]; try specialize (Ha _ Hx);
      try specialize (Hb _ Hy); lia. }
  unfold sub_fill0.
  destruct (List.length a =? List.length b)%nat; apply zip_fill0_ext;
    intros x y Hx Hy; destruct (Hv x y Hx Hy) as [H1 H2].
  - apply sub_same_exact; [lia | lia | exact Hd].
  - apply sub_aligned_exact; lia.
Qed.

(** With as many rows on both sides, it is exact on all populations that
    are not negative and fit [int64]. *)
Lemma sub_fill0_exact_same_length (d : dtype) (a b : list Z) :
  d <> uint64 ->
  List.length a = List.length b ->
  Forall (fun v => 0 <= v <= 2 ^ 63 - 1) a ->
  Forall (fun v => 0 <= v <= 2 ^ 63 - 1) b ->
  sub_fill0 d a b = zip_fill0 Z.sub a b.
Proof.
  intros Hd Hlen Ha Hb. rewrite Forall_forall in Ha, Hb.
  assert (H63 : 0 < 2 ^ 63) by reflexivity.
  unfold sub_fill0. rewrite Hlen, Nat.eqb_refl.
  apply zip_fill0_ext. intros x y Hx Hy.
  apply sub_same_exact; [| |exact Hd].
  - destruct Hx as [->|Hx]; [lia|]. specialize (Ha _ Hx). lia.
  - destruct Hy as [->|Hy]; [lia|]. specialize (Hb _ Hy). lia.
Qed.

Lemma populations_upto_dtype (hi : Z) (df : list Row) :
  hi <= 2 ^ 63 - 1 -> populations_upto hi df ->
  column_dtype (map population df) <> uint64.
Proof.
  intros Hhi H.
  assert (E : column_dtype (map population df) = int64); [|congruence].
  apply column_dtype_int64. apply Forall_map.
  eapply Forall_impl; [|exact H]. simpl. intros r Hr.
  assert (0 < 2 ^ 63) by reflexivity. lia.
Qed.

Lemma populations_upto_slice (hi : Z) (df : list Row) (y : Z) :
  populations_upto hi df ->
  Forall (fun v => 0 <= v <= hi) (map population (df_selected_year df y)).
Proof.
  intros H. apply Forall_map. unfold df_selected_year.
  apply Forall_forall. intros r Hr. apply filter_In in Hr.
  unfold populations_upto in H. rewrite Forall_forall in H.
  apply H, Hr.
Qed.

(** The frame before it is sorted, on such populations. *)
Lemma population_difference_frame_exact {K : SortKernel} (df : list Row) (y : Z) :
  populations_upto (2 ^ 53) df ->
  population_difference_frame df y
  = set_population_difference (df_selected_year df y)
      (zip_fill0 Z.sub (map population (df_selected_year df y))
                       (map population (df_selected_year df (y - 1)))).
Proof.
  intros H. unfold population_difference_frame.
  rewrite sub_fill0_exact; [reflexivity | | |].
  - apply (populations_upto_dtype (2 ^ 53)); [|exact H].
    apply Z.leb_le. reflexivity.
  - apply populations_upto_slice, H.
  - apply populations_upto_slice, H.
Qed.

Lemma population_difference_frame_exact_same_length {K : SortKernel}
    (df : list Row) (y : Z) :
  populations_upto (2 ^ 63 - 1) df ->
  List.length (df_selected_year df y)
  = List.length (df_selected_year df (y - 1)) ->
  population_difference_frame df y
  = set_population_difference (df_selected_year df y)
      (zip_fill0 Z.sub (map population (df_selected_year df y))
                       (map population (df_selected_year df (y - 1)))).
Proof.
  intros H Hlen. unfold population_difference_frame.
  rewrite sub_fill0_exact_same_length; [reflexivity | | | |].
  - apply (populations_upto_dtype (2 ^ 63 - 1)); [lia | exact H].
  - rewrite !length_map. exact Hlen.
  - apply populations_upto_slice, H.
  - apply populations_upto_slice, H.
Qed.

(** When the column is as long as the frame, the frame gets the column. *)
Lemma set_population_difference_column (frame : list Row) (col : list Z) :
  List.length col = List.length frame ->
  map Delta.population_difference (set_population_difference frame col) = col.
Proof.
  intros Hlen. destruct frame as [|r frame].
  - simpl. rewrite map_map. simpl. apply map_id.
  - unfold set_population_difference. rewrite map_map. simpl.
    change (map (fun x : Row * Z => snd x) (combine (r :: frame) col) = col).
    revert Hlen. generalize (r :: frame) as f. clear.
    induction col as [|c col IH]; intros f Hlen.
    + destruct f; reflexivity.
    + destruct f as [|x f]; [discriminate|].
      simpl. f_equal. apply IH. simpl in Hlen. lia.
Qed.

Lemma one_record_per_state_length (df : list Row) (y : Z) :
  one_record_per_state df y ->
  List.length (df_selected_year df y)
  = List.length (df_selected_year df (y - 1)).
Proof.
  intros (H1 & H2 & H3).
  rewrite <- (length_map states (df_selected_year df y)).
  rewrite <- (length_map states (df_selected_year df (y - 1))).
  apply Permutation_length, NoDup_Permutation; assumption.
Qed.

(** C5, as the code has it.  For every table whose populations lie between
    0 and [2^63 - 1] and every year [y] present in the table with [y - 1]
    also present, with one record per state in each of the two Year Slices
    (no state twice in a slice, the same states in both), the sum of
    [population_difference] over the result of
    [calculate_population_difference] equals the total population of [y]
    minus the total population of [y - 1]. *)
Theorem calculate_population_difference_conservation :
  forall (K : SortKernel) (input_df : list Row) (y : Z),
    populations_upto (2 ^ 63 - 1) input_df ->
    In y (map year input_df) ->
    In (y - 1) (map year input_df) ->
    one_record_per_state input_df y ->
    total (map Delta.population_difference
             (calculate_population_difference input_df y))
    = total (map population (df_selected_year input_df y))
      - total (map population (df_selected_year input_df (y - 1))).
Proof.
  intros K df y Hpop _ _ Hy.
  pose proof (one_record_per_state_length df y Hy) as Hlen.
  unfold calculate_population_difference.
  rewrite <- (total_perm _ _
    (Permutation_map Delta.population_difference
       (sort_values_perm _ Delta.population_difference
          (population_difference_frame df y)))).
  rewrite (population_difference_frame_exact_same_length df y Hpop Hlen).
  rewrite set_population_difference_column.
  - apply total_zip_sub.
  - rewrite length_zip_fill0, !length_map. lia.
Qed.

Lemma calculate_population_difference_conservation_witness :
  total (map Delta.population_difference
           (@calculate_population_difference kernel_stable table_two_states 2011))
  = total (map population (df_selected_year table_two_states 2011))
    - total (map population (df_selected_year table_two_states (2011 - 1))).
Proof.
  apply (calculate_population_difference_conservation
           kernel_stable table_two_states 2011).
  - repeat constructor; simpl; lia.
  - simpl. tauto.
  - simpl. tauto.
  - split; [|split].
    + simpl. repeat constructor; simpl; intuition discriminate.
    + simpl. repeat constructor; simpl; intuition discriminate.
    + intros s. simpl. tauto.
Defined.

(** C5, as stated, fails.  In [table_uint64] both years are present and
    each state has one record in each Year Slice; state A has [2^63]
    inhabitants, so the column is [uint64], and the difference [3 - 5] of
    state B wraps around to [2^64 - 2]: the differences add up to
    [2^64 - 2], the totals differ by [-2]. *)
Lemma calculate_population_difference_conservation_wraps :
  In 2011 (map year table_uint64)
  /\ In (2011 - 1) (map year table_uint64)
  /\ one_record_per_state table_uint64 2011
  /\ @calculate_population_difference kernel_stable table_uint64 2011
     = [ Delta.mk (Some "B"%string) (Some 2) (Some 3) 18446744073709551614;
         Delta.mk (Some "A"%string) (Some 1) (Some (2 ^ 63)) 0 ]
  /\ total (map Delta.population_difference
              (@calculate_population_difference kernel_stable table_uint64 2011))
     = 18446744073709551614
  /\ total (map population (df_selected_year table_uint64 2011))
     - total (map population (df_selected_year table_uint64 (2011 - 1)))
     = - 2.
Proof.
  split; [simpl; tauto|]. split; [simpl; tauto|]. split.
  { split; [|split].
    - simpl. repeat constructor; simpl; intuition discriminate.
    - simpl. repeat constructor; simpl; intuition discriminate.
    - intros s. simpl. tauto. }
  split; [vm_compute; reflexivity|].
  split; vm_compute; reflexivity.
Qed.

Lemma df_selected_year_absent (df : list Row) (y : Z) :
  ~ In y (map year df) -> df_selected_year df y = [].
Proof.
  intros H. unfold df_selected_year.
  induction df as [|r df IH]; simpl; [reflexivity|].
  destruct (year r =? y) eqn:E.
  - apply Z.eqb_eq in E. exfalso. apply H. simpl. left. exact E.
  - apply IH. intros Hin. apply H. simpl. right. exact Hin.
Qed.

(** C9, as the code has it.  [calculate_population_difference] raises no
    error for any year.  For every table whose populations lie between 0
    and [2^53] and every year [y] that does not occur in the table, the
    selected Year Slice is empty; the function returns the empty frame when
    [y - 1] does not occur either, and otherwise one row per row of the
    slice of [y - 1], with [states], [id] and [population] missing and
    [population_difference] equal to minus that row's population. *)
Theorem calculate_population_difference_unknown_year :
  forall (K : SortKernel) (input_df : list Row) (y : Z),
    populations_upto (2 ^ 53) input_df ->
    ~ In y (map year input_df) ->
    df_selected_year input_df y = []
    /\ Permutation
         (map (fun r => Delta.mk None None None (0 - population r))
              (df_selected_year input_df (y - 1)))
         (calculate_population_difference input_df y)
    /\ (~ In (y - 1) (map year input_df) ->
        calculate_population_difference input_df y = []).
Proof.
  intros K df y Hpop Hy.
  pose proof (df_selected_year_absent df y Hy) as E.
  assert (F : population_difference_frame df y
              = map (fun r => Delta.mk None None None (0 - population r))
                    (df_selected_year df (y - 1))).
  { rewrite (population_difference_frame_exact df y Hpop). rewrite E.
    change (zip_fill0 Z.sub (map population [])
              (map population (df_selected_year df (y - 1))))
      with (map (fun v => 0 - v) (map population (df_selected_year df (y - 1)))).
    unfold set_population_difference. rewrite !map_map. reflexivity. }
  split; [exact E|]. split.
  - unfold calculate_population_difference. rewrite F.
    apply sort_values_perm.
  - intros Hp. unfold calculate_population_difference. rewrite F.
    rewrite (df_selected_year_absent df (y - 1) Hp). simpl.
    apply sort_values_nil.
Qed.

Lemma calculate_population_difference_unknown_year_witness :
  df_selected_year table_two_states 2012 = []
  /\ Permutation
       (map (fun r => Delta.mk None None None (0 - population r))
            (df_selected_year table_two_states (2012 - 1)))
       (@calculate_population_difference kernel_stable table_two_states 2012)
  /\ (~ In (2012 - 1) (map year table_two_states) ->
      @calculate_population_difference kernel_stable table_two_states 2012 = []).
Proof.
  apply (calculate_population_difference_unknown_year
           kernel_stable table_two_states 2012).
  - repeat constructor; simpl; lia.
  - simpl. intros [H|[H|[H|[H|[]]]]]; discriminate H.
Defined.

(** C9, as stated, fails: in [table_tie], whose only year is 2010, the year
    2011 does not occur, and the result for 2011 is not empty: it has two
    rows, without state, with [population_difference] -500. *)
Lemma calculate_population_difference_unknown_year_not_empty :
  ~ In 2011 (map year table_tie)
  /\ @calculate_population_difference kernel_stable table_tie 2011
     = [ Delta.mk None None None (- 500); Delta.mk None None None (- 500) ]
  /\ forall K : SortKernel,
       @calculate_population_difference K table_tie 2011 <> [].
Proof.
  split; [simpl; intros [H|[H|[]]]; discriminate H|].
  split; [reflexivity|].
  intros K E.
  pose proof (sort_values_perm _ Delta.population_difference
                (@population_difference_frame table_tie 2011)) as Hp.
  unfold calculate_population_difference in E. rewrite E in Hp.
  apply Permutation_sym, Permutation_nil in Hp. discriminate Hp.
Qed.

(** ** The migration percentage in binary64 *)

Lemma float_of_int_100 : float_of_int 100 = Fin (100 * 2 ^ 46) (- 46).
Proof. reflexivity. Qed.

Lemma round64_zero (b : Z) : round64 0 b = Fin 0 0.
Proof. reflexivity. Qed.

Lemma truediv_nonneg (k n : Z) :
  0 <= k -> 0 < n ->
  truediv k n = match round64 k n with
                | Inf _ => Raise OverflowError
                | x => Ok x
                end.
Proof.
  intros Hk Hn. unfold truediv.
  replace (n =? 0) with false by (symmetry; apply Z.eqb_neq; lia).
  rewrite Z.sgn_pos, Z.abs_eq, Z.mul_1_r by lia.
  unfold round64_signed.
  replace (k <? 0) with false by (symmetry; apply Z.ltb_ge; lia).
  reflexivity.
Qed.

Lemma scale_bound (c d x : Z) :
  0 <= c -> - d <= x <= d -> - (c * d) <= c * x <= c * d.
Proof. intros Hc Hx. nia. Qed.

(** The three roundings of [round((k / n) * 100)] (quotient [m / D1],
    product [m' / D2], integer [p]) together stay within one of
    [100 * k / n], and land on the nearest integer when that is not a tie
    and [n] is at most [2^44]. *)
Lemma percent_error (k n m D1 m' D2 p : Z) :
  0 < n -> 2 ^ 52 <= D1 -> 2 ^ 46 <= D2 ->
  - n <= 2 * (m * n - k * D1) <= n ->
  - D1 <= 2 * (m' * D1 - 100 * m * D2) <= D1 ->
  - D2 <= 2 * (p * D2 - m') <= D2 ->
  - n < p * n - 100 * k < n
  /\ (n <= 2 ^ 44 -> forall z : Z, - n < 2 * (z * n - 100 * k) < n -> p = z).
Proof.
  intros Hn HD1 HD2 E1 E2 E3.
  assert (H52 : 2 ^ 52 = 64 * 2 ^ 46) by reflexivity.
  assert (H46 : 2 ^ 46 = 4 * 2 ^ 44) by reflexivity.
  assert (H44 : 0 < 2 ^ 44) by reflexivity.
  revert HD1 HD2 H52 H46 H44. generalize (2 ^ 52) (2 ^ 46) (2 ^ 44).
  intros S52 S46 S44 HD1 HD2 H52 H46 H44.
  set (X := p * D2 - m') in *.
  set (Y := m' * D1 - 100 * m * D2) in *.
  set (W := m * n - k * D1) in *.
  assert (Hid : 2 * (p * n - 100 * k) * (D1 * D2)
                = n * D1 * (2 * X) + n * (2 * Y) + 100 * D2 * (2 * W)).
  { unfold X, Y, W. ring. }
  assert (HD1p : 0 < D1) by lia.
  assert (HD2p : 0 < D2) by lia.
  assert (HnD1 : 0 < n * D1) by (apply Z.mul_pos_pos; lia).
  assert (B1 : - (n * D1 * D2) <= n * D1 * (2 * X) <= n * D1 * D2)
    by (apply scale_bound; lia).
  assert (B2 : - (n * D1) <= n * (2 * Y) <= n * D1)
    by (apply scale_bound; lia).
  assert (B3 : - (100 * D2 * n) <= 100 * D2 * (2 * W) <= 100 * D2 * n)
    by (apply scale_bound; lia).
  clearbody X Y W. clear E1 E2 E3.
  set (Q := D1 * D2) in *.
  assert (HQ : 0 < Q) by (apply Z.mul_pos_pos; lia).
  assert (Hsum : - (n * Q + n * D1 + 100 * D2 * n)
                 <= 2 * (p * n - 100 * k) * Q
                 <= n * Q + n * D1 + 100 * D2 * n).
  { rewrite Hid. replace (n * D1 * D2) with (n * Q) in B1 by (unfold Q; ring). lia. }
  (* D1 + 100 D2 is far below Q / (4 S44) *)
  assert (Hs1 : D1 * (4 * S44) <= Q).
  { unfold Q. apply Z.mul_le_mono_nonneg_l; lia. }
  assert (Hs2 : D2 * (256 * S44) <= Q).
  { unfold Q. rewrite (Z.mul_comm D1 D2).
    apply Z.mul_le_mono_nonneg_l; lia. }
  assert (Hsmall : (D1 + 100 * D2) * (256 * S44) <= 164 * Q) by lia.
  split.
  - (* n * (D1 + 100 D2) < n * Q since 256 * S44 > 101 *)
    assert (HnQ : n * (D1 + 100 * D2) < n * Q).
    { apply Z.mul_lt_mono_pos_l; [lia|].
      assert ((D1 + 100 * D2) * (256 * 1) <= (D1 + 100 * D2) * (256 * S44)).
      { apply Z.mul_le_mono_nonneg_l; lia. }
      lia. }
    assert (Hb : - (2 * n * Q) < 2 * (p * n - 100 * k) * Q < 2 * n * Q) by lia.
    assert (Hb' : (- n) * Q < (p * n - 100 * k) * Q < n * Q) by lia.
    destruct Hb' as [Hb1 Hb2].
    apply Z.mul_lt_mono_pos_r in Hb1; [|exact HQ].
    apply Z.mul_lt_mono_pos_r in Hb2; [|exact HQ].
    lia.
  - intros Hn44 z Hz.
    assert (Hz' : - ((n - 1) * Q) <= 2 * (z * n - 100 * k) * Q <= (n - 1) * Q).
    { replace (2 * (z * n - 100 * k) * Q) with (Q * (2 * (z * n - 100 * k))) by ring.
      replace ((n - 1) * Q) with (Q * (n - 1)) by ring.
      apply scale_bound; lia. }
    assert (Hsm : n * (D1 + 100 * D2) < Q).
    { assert (n * ((D1 + 100 * D2) * 256) <= S44 * ((D1 + 100 * D2) * 256)).
      { apply Z.mul_le_mono_nonneg_r; lia. }
      replace (S44 * ((D1 + 100 * D2) * 256))
        with ((D1 + 100 * D2) * (256 * S44)) in H by ring.
      lia. }
    assert (Hd : - (2 * n * Q) < 2 * ((p - z) * n) * Q < 2 * n * Q).
    { replace (2 * ((p - z) * n) * Q)
        with (2 * (p * n - 100 * k) * Q - 2 * (z * n - 100 * k) * Q) by ring.
      lia. }
    assert (Hd' : (- 1) * (n * Q) < (p - z) * (n * Q) < 1 * (n * Q)) by lia.
    assert (HnQ : 0 < n * Q) by (apply Z.mul_pos_pos; lia).
    destruct Hd' as [Hd1 Hd2].
    apply Z.mul_lt_mono_pos_r in Hd1; [|exact HnQ].
    apply Z.mul_lt_mono_pos_r in Hd2; [|exact HnQ].
    lia.
Qed.

(** What [round((k / n) * 100)] returns for [0 <= k <= n]. *)
Lemma percent_spec (k n : Z) :
  0 <= k <= n -> 0 < n ->
  exists p : Z,
    (x <- truediv k n ;; round (fmul x (float_of_int 100))) = Ok p
    /\ 0 <= p <= 100
    /\ - n < p * n - 100 * k < n
    /\ (n <= 2 ^ 44 ->
        forall z : Z, - n < 2 * (z * n - 100 * k) < n -> p = z).
Proof.
  intros Hk Hn.
  rewrite truediv_nonneg by lia.
  rewrite float_of_int_100.
  destruct (Z.eq_dec k 0) as [->|Hk0].
  { exists 0. rewrite round64_zero. split; [reflexivity|].
    split; [lia|]. split; [lia|]. intros _ z Hz. nia. }
  assert (HM1 : 2 ^ 52 <= 2 ^ 52 < 2 ^ 53) by (split; [lia | reflexivity]).
  assert (Hh1 : 2 * (k * pden (- 52)) < (2 * 2 ^ 52 + 1) * (n * pnum (- 52))).
  { rewrite pnum_neg, pden_neg by lia. change (- - 52) with 52.
    assert (0 < 2 ^ 52) by reflexivity. nia. }
  destruct (round64_upper k n (2 ^ 52) (- 52) ltac:(lia) Hn HM1 ltac:(lia) Hh1)
    as (m & e & Hx & He & Hm0 & Hval & Herr).
  rewrite Hx. cbn [bind].
  rewrite (pnum_neg e) in Hval, Herr by lia.
  rewrite (pnum_neg (- 52)), (pden_neg (- 52)) in Hval by lia.
  change (- - 52) with 52 in Hval.
  pose proof (pden_pos e) as HD1.
  assert (HD1ge : 2 ^ 52 <= pden e).
  { rewrite pden_neg by lia. apply pow2_le. lia. }
  assert (HmD : m <= pden e).
  { assert (0 < 2 ^ 52) by reflexivity. nia. }
  unfold fmul.
  replace (Z.max (e + - 46) 0) with 0 by lia.
  replace (Z.max (- (e + - 46)) 0) with (46 - e) by lia.
  change (2 ^ 0) with 1. rewrite Z.mul_1_r.
  assert (Hb' : 2 ^ (46 - e) = 2 ^ 46 * pden e).
  { rewrite pden_neg by lia. rewrite <- Z.pow_add_r by lia. f_equal; lia. }
  rewrite Hb'.
  unfold round64_signed.
  assert (H46 : 0 < 2 ^ 46) by reflexivity.
  replace (m * (100 * 2 ^ 46) <? 0) with false
    by (symmetry; apply Z.ltb_ge; nia).
  destruct (Z.eq_dec m 0) as [->|Hm1].
  { exists 0. split; [reflexivity|].
    split; [lia|].
    assert (Hkn : 2 * k * pden e <= n) by lia.
    assert (Hk53 : 2 * k * 2 ^ 52 <= 2 * k * pden e) by nia.
    assert (H52 : 2 ^ 52 = 2 ^ 44 * 256) by reflexivity.
    assert (H44 : 0 < 2 ^ 44) by reflexivity.
    split; [nia|]. intros Hn44 z Hz. nia. }
  assert (Ha2 : 0 < m * (100 * 2 ^ 46)) by nia.
  assert (Hb2 : 0 < 2 ^ 46 * pden e) by nia.
  assert (HM2 : 2 ^ 52 <= 100 * 2 ^ 46 < 2 ^ 53)
    by (split; [apply Z.leb_le; reflexivity | reflexivity]).
  assert (Hh2 : 2 * (m * (100 * 2 ^ 46) * pden (- 46))
                < (2 * (100 * 2 ^ 46) + 1) * (2 ^ 46 * pden e * pnum (- 46))).
  { rewrite pnum_neg, pden_neg by lia. change (- - 46) with 46.
    rewrite Z.mul_1_r.
    assert (m * (100 * 2 ^ 46) * 2 ^ 46 <= pden e * (100 * 2 ^ 46) * 2 ^ 46).
    { apply Z.mul_le_mono_nonneg_r; [lia|].
      apply Z.mul_le_mono_nonneg_r; lia. }
    nia. }
  destruct (round64_upper (m * (100 * 2 ^ 46)) (2 ^ 46 * pden e)
              (100 * 2 ^ 46) (- 46) Ha2 Hb2 HM2 ltac:(lia) Hh2)
    as (m' & e' & Hy & He' & Hm0' & Hval' & Herr').
  rewrite Hy. cbn [round fnum fden].
  fold (pnum e') (pden e').
  rewrite (pnum_neg e') in * by lia.
  rewrite (pnum_neg (- 46)), (pden_neg (- 46)) in Hval' by lia.
  change (- - 46) with 46 in Hval'.
  rewrite !Z.mul_1_r in *.
  pose proof (pden_pos e') as HD2.
  assert (HD2ge : 2 ^ 46 <= pden e').
  { rewrite pden_neg by lia. apply pow2_le. lia. }
  assert (Hm'D : m' <= 100 * pden e').
  { apply (Z.mul_le_mono_pos_r _ _ (2 ^ 46)); [lia|]. lia. }
  set (p := rne_div m' (pden e')).
  pose proof (rne_div_error m' (pden e') HD2) as Hp. fold p in Hp.
  exists p. split; [reflexivity|]. split.
  - split.
    + apply rne_div_nonneg; lia.
    + apply rne_div_le; lia.
  - apply (percent_error k n m (pden e) m' (pden e') p); lia.
Qed.

(** ** The migration percentages *)

Lemma all_distinct_NoDup (l : list (option string)) :
  all_distinct l = true -> NoDup l.
Proof.
  induction l as [|x l IH]; simpl; intros H.
  - constructor.
  - destruct (in_dec opt_string_dec x l) as [Hin|Hnin]; [discriminate|].
    constructor; [exact Hnin | apply IH, H].
Qed.

Lemma present_all (l : list (option string)) :
  Forall (fun o => o <> None) l -> map Some (present l) = l.
Proof.
  induction 1 as [|o l Ho _ IH]; simpl.
  - reflexivity.
  - destruct o as [s|]; [|congruence]. simpl. rewrite IH. reflexivity.
Qed.

Lemma nunique_one_state_per_row (df : list Delta.t) :
  one_state_per_row df -> nunique (map Delta.states df) = len df /\ 0 < len df.
Proof.
  intros [Hne [Hall Hnd]]. split.
  - unfold nunique, len. f_equal.
    assert (Hl : Forall (fun o : option string => o <> None)
                        (map Delta.states df)).
    { apply Forall_map. exact Hall. }
    pose proof (present_all _ Hl) as Hp.
    rewrite <- Hp in Hnd. apply NoDup_map_inv in Hnd.
    rewrite (nodup_fixed_point string_dec Hnd).
    rewrite <- (length_map Some), Hp. apply length_map.
  - unfold len. destruct df; [congruence|]. simpl. lia.
Qed.

Lemma len_filter_le {A : Type} (f : A -> bool) (l : list A) :
  0 <= len (filter f l) <= len l.
Proof.
  unfold len. pose proof (filter_length_le f l). lia.
Qed.

Lemma rne_div_not_tie (a b : Z) :
  0 < b -> (forall j : Z, 2 * a <> (2 * j + 1) * b) ->
  - b < 2 * (rne_div a b * b - a) < b.
Proof.
  intros Hb Hnt. pose proof (rne_div_error a b Hb) as He.
  pose proof (Hnt (rne_div a b)) as H1.
  pose proof (Hnt (rne_div a b - 1)) as H2.
  nia.
Qed.

Lemma migration_percent_spec (selected df : list Delta.t) :
  one_state_per_row df ->
  0 <= len selected <= len df ->
  exists p : Z,
    migration_percent selected df = Ok p
    /\ percent_of (len selected) (len df) p.
Proof.
  intros Hdf Hk.
  destruct (nunique_one_state_per_row df Hdf) as [Hn Hpos].
  unfold migration_percent. rewrite Hn.
  destruct (percent_spec (len selected) (len df) Hk Hpos)
    as (p & Hp & Hb & Hnear & Hexact).
  exists p. split; [exact Hp|].
  split; [exact Hb|]. split; [exact Hnear|].
  intros H44 Hnt. apply Hexact; [exact H44|].
  unfold exact_percent.
  pose proof (rne_div_not_tie (100 * len selected) (len df) Hpos Hnt). lia.
Qed.

(** C7, as the code has it.  For every non-empty frame of Delta Records with
    one record per state ([n] states), the two percentages are computed
    without error as [round((k / n) * 100)] in binary64 arithmetic, [k] the
    number of records with [population_difference] above 50000 (resp. below
    -50000).  Each is an integer within [0, 100], less than one away from
    [100 * k / n]; for [n] up to [2^44] it equals [round(100 * k / n)]
    whenever [100 * k / n] is not exactly halfway between two integers. *)
Theorem states_migration_percentages :
  forall df : list Delta.t,
    one_state_per_row df ->
    exists p q : Z,
      states_migration_greater df = Ok p
      /\ states_migration_less df = Ok q
      /\ percent_of (len (df_greater_50000 df)) (len df) p
      /\ percent_of (len (df_less_50000 df)) (len df) q.
Proof.
  intros df Hdf.
  destruct (migration_percent_spec (df_greater_50000 df) df Hdf
              (len_filter_le _ df)) as (p & Hp & Hpp).
  destruct (migration_percent_spec (df_less_50000 df) df Hdf
              (len_filter_le _ df)) as (q & Hq & Hqq).
  exists p, q. repeat split; assumption || apply Hpp || apply Hqq.
Qed.

Lemma states_migration_percentages_witness :
  exists p q : Z,
    states_migration_greater (delta_frame 1 2) = Ok p
    /\ states_migration_less (delta_frame 1 2) = Ok q
    /\ percent_of (len (df_greater_50000 (delta_frame 1 2)))
                  (len (delta_frame 1 2)) p
    /\ percent_of (len (df_less_50000 (delta_frame 1 2)))
                  (len (delta_frame 1 2)) q.
Proof.
  apply (states_migration_percentages (delta_frame 1 2)).
  split; [discriminate|]. split.
  - repeat constructor; discriminate.
  - apply all_distinct_NoDup. reflexivity.
Defined.

(** C7, as stated, fails: with 40 states of which 23 gained more than
    50000, the code returns 57 ([23 / 40] is rounded to a float just below
    0.575, and the product with 100 to 57.49999999999999), whereas
    [round(100 * 23 / 40)] is [round(57.5) = 58]. *)
Lemma states_migration_greater_not_exact :
  one_state_per_row (delta_frame 23 40)
  /\ len (df_greater_50000 (delta_frame 23 40)) = 23
  /\ nunique (map Delta.states (delta_frame 23 40)) = 40
  /\ states_migration_greater (delta_frame 23 40) = Ok 57
  /\ exact_percent 23 40 = 58.
Proof.
  split.
  { split; [discriminate|]. split.
    - apply Forall_forall. intros r Hr.
      unfold delta_frame in Hr. apply in_map_iff in Hr.
      destruct Hr as [i [<- _]]. discriminate.
    - apply all_distinct_NoDup. vm_compute. reflexivity. }
  repeat split; vm_compute; reflexivity.
Qed.

(** C8.  On a frame without any state ([nunique] is 0), as the empty frame
    is, the computation of either percentage raises [ZeroDivisionError]: no
    percentage is returned. *)
Theorem states_migration_zero_states :
  forall df : list Delta.t,
    nunique (map Delta.states df) = 0 ->
    states_migration_greater df = Raise ZeroDivisionError
    /\ states_migration_less df = Raise ZeroDivisionError.
Proof.
  intros df H.
  unfold states_migration_greater, states_migration_less, migration_percent.
  rewrite H. split; reflexivity.
Qed.

Lemma states_migration_zero_states_witness :
  states_migration_greater [] = Raise ZeroDivisionError
  /\ states_migration_less [] = Raise ZeroDivisionError.
Proof.
  apply (states_migration_zero_states []). reflexivity.
Defined.

(** ** [format_number] *)

(** C2, as the code has it: the test is [num > 1000000], so exactly one
    million takes the last branch and is printed in thousands. *)
Theorem format_number_one_million :
  format_number 1000000 = Ok "1000 K"%string.
Proof. vm_compute. reflexivity. Qed.

(** C2, as stated, fails: [format_number(1000000)] is not ["1 M"]. *)
Lemma format_number_one_million_not_1M :
  format_number 1000000 <> Ok "1 M"%string.
Proof. vm_compute. discriminate. Qed.

(** A non-negative integer prints as digits only: what follows it in
    ["1e+16 M"] is not a decimal point. *)
Lemma str_int_not_exponent (a : Z) (rest : string) :
  0 <= a -> (str_int a ++ "." ++ rest)%string <> "1e+16 M"%string.
Proof.
  intros Ha H. unfold str_int in H.
  destruct a as [|p|p]; [| |lia].
  - simpl in H. discriminate.
  - simpl in H. destruct (Pos.to_uint p) as [|d|d|d|d|d|d|d|d|d|d];
      simpl in H; try discriminate.
    destruct d; simpl in H; discriminate.
Qed.

(** C3, as stated, fails from [10^22] on: [(10^22 + 1) / 1000000] is the
    float [1e16], which [round(x, 1)] leaves as it is and which prints with
    an exponent, not with one decimal digit. *)
Lemma format_number_exponent :
  0 <= 10000000000000000000001
  /\ 1000000 < 10000000000000000000001
  /\ 10000000000000000000001 mod 1000000 <> 0
  /\ format_number 10000000000000000000001 = Ok "1e+16 M"%string
  /\ ~ one_decimal_M "1e+16 M".
Proof.
  split; [lia|]. split; [lia|]. split; [vm_compute; discriminate|].
  split; [vm_compute; reflexivity|].
  intros (a & d & Ha & _ & H).
  apply (str_int_not_exponent a (str_int d ++ " M") Ha). symmetry. exact H.
Qed.

(** The quotient by one million as a float: below [1e16], and close to the
    exact quotient. *)
Lemma truediv_million (n : Z) :
  1000000 < n -> n < 9999999999999999000000 ->
  exists m e : Z,
    truediv n 1000000 = Ok (Fin m e)
    /\ 0 <= m /\ e <= 1
    /\ m * pnum e <= 9999999999999998 * pden e
    /\ - (1000000 * pnum e) <= 2 * (m * (1000000 * pnum e) - n * pden e)
       <= 1000000 * pnum e
    /\ (n <= 100000000000000000000 -> e <= - 4).
Proof.
  intros Hlo Hhi.
  assert (HM : 2 ^ 52 <= 4999999999999999 < 2 ^ 53)
    by (split; [apply Z.leb_le | apply Z.ltb_lt]; reflexivity).
  assert (Hh : 2 * (n * pden 1) < (2 * 4999999999999999 + 1) * (1000000 * pnum 1)).
  { change (pden 1) with 1. change (pnum 1) with 2. lia. }
  destruct (round64_upper n 1000000 4999999999999999 1
              ltac:(lia) ltac:(lia) HM ltac:(lia) Hh)
    as (m & e & Hr & He & Hm & Hv & Herr).
  exists m, e.
  assert (Ht : truediv n 1000000 = Ok (Fin m e)).
  { unfold truediv, round64_signed.
    change (1000000 =? 0) with false. cbv iota.
    change (Z.sgn 1000000) with 1. change (Z.abs 1000000) with 1000000.
    rewrite Z.mul_1_r.
    destruct (n * 1 <? 0) eqn:E; [apply Z.ltb_lt in E; lia|].
    destruct (n <? 0) eqn:E'; [apply Z.ltb_lt in E'; lia|].
    rewrite Hr. reflexivity. }
  split; [exact Ht|]. split; [exact Hm|]. split; [exact He|].
  split.
  { change (pden 1) with 1 in Hv. change (pnum 1) with 2 in Hv. lia. }
  split; [exact Herr|].
  intros Hn.
  assert (HM' : 2 ^ 52 <= 2 ^ 53 - 1 < 2 ^ 53)
    by (split; [apply Z.leb_le | apply Z.ltb_lt]; reflexivity).
  assert (Hh' : 2 * (n * pden (- 4))
                < (2 * (2 ^ 53 - 1) + 1) * (1000000 * pnum (- 4))).
  { change (pden (- 4)) with 16. change (pnum (- 4)) with 1.
    change (2 ^ 53) with 9007199254740992. lia. }
  destruct (round64_upper n 1000000 (2 ^ 53 - 1) (- 4)
              ltac:(lia) ltac:(lia) HM' ltac:(lia) Hh')
    as (m' & e' & Hr' & He' & _).
  rewrite Hr in Hr'. injection Hr' as _ ->. exact He'.
Qed.

(** ** [format_number] *)

Lemma format_int_small (n : Z) :
  Z.abs n < 10 ^ 22 -> format_int n = Ok (str_int n).
Proof.
  intros H. unfold format_int, int_max_str_digits.
  assert (H22 : 10 ^ 22 <= 10 ^ 4300) by (apply Z.pow_le_mono_r; lia).
  destruct (10 ^ 4300 <=? Z.abs n) eqn:E; [|reflexivity].
  apply Z.leb_le in E. revert H H22 E.
  generalize (10 ^ 4300) (10 ^ 22) (Z.abs n). intros; lia.
Qed.

(** A quotient between [lo] and [M]. *)
Lemma round64_range (a b lo M : Z) :
  0 < a -> 0 < b -> 0 <= lo <= 2 ^ 53 -> 0 <= M <= 2 ^ 53 ->
  lo * b <= a -> a <= M * b ->
  exists m e : Z,
    round64 a b = Fin m e
    /\ lo * pden e <= m * pnum e <= M * pden e
    /\ - (b * pnum e) <= 2 * (m * (b * pnum e) - a * pden e) <= b * pnum e.
Proof.
  intros Ha Hb Hlo HM Hge Hle.
  destruct (round64_le a b M 0 Ha Hb HM ltac:(lia))
    as (m & e & Hr & Hm & Hup & Herr).
  { change (pden 0) with 1. change (pnum 0) with 1. lia. }
  pose proof (round64_ge a b lo 0 m e Ha Hb Hlo ltac:(lia)) as Hlow.
  change (pden 0) with 1 in Hlow, Hup. change (pnum 0) with 1 in Hlow, Hup.
  specialize (Hlow ltac:(lia) Hr).
  exists m, e. split; [exact Hr|]. split; [lia | exact Herr].
Qed.

(** [float(n)] for a positive [int64]. *)
Lemma float_of_int64 (n lo : Z) :
  0 < lo <= 2 ^ 53 -> lo <= n -> n < 2 ^ 63 ->
  exists m e : Z,
    float_of_int n = Fin m e
    /\ lo * pden e <= m * pnum e <= 2 ^ 63 * pden e.
Proof.
  intros Hlo Hn Hhi.
  unfold float_of_int, round64_signed.
  replace (n <? 0) with false by (symmetry; apply Z.ltb_ge; lia).
  destruct (round64_le n 1 (2 ^ 53) 10 ltac:(lia) ltac:(lia) ltac:(lia)
              ltac:(lia)) as (m & e & Hr & Hm & Hup & _).
  { change (pden 10) with 1. change (pnum 10) with (2 ^ 10).
    change (2 ^ 53 * (1 * 2 ^ 10)) with (2 ^ 63). lia. }
  pose proof (round64_ge n 1 lo 0 m e ltac:(lia) ltac:(lia) ltac:(lia)
                ltac:(lia)) as Hlow.
  change (pden 0) with 1 in Hlow. change (pnum 0) with 1 in Hlow.
  specialize (Hlow ltac:(lia) Hr).
  change (pden 10) with 1 in Hup. change (pnum 10) with (2 ^ 10) in Hup.
  exists m, e. split; [exact Hr|]. split; [lia|].
  change (2 ^ 63) with (2 ^ 53 * 2 ^ 10). lia.
Qed.

Lemma float_of_int_million :
  float_of_int 1000000 = Fin 8589934592000000 (- 33).
Proof. vm_compute. reflexivity. Qed.

Lemma float_of_int_ten : float_of_int 10 = Fin 5629499534213120 (- 49).
Proof. vm_compute. reflexivity. Qed.

(** The quotient numpy takes of an [int64] above one million. *)
Lemma fdiv_million (n : Z) :
  1000000 < n -> n < 2 ^ 63 ->
  exists m e : Z,
    fdiv (float_of_int n) (float_of_int 1000000) = Fin m e
    /\ pden e <= m * pnum e <= 2 ^ 44 * pden e.
Proof.
  intros Hlo Hhi.
  destruct (float_of_int64 n 1000000 ltac:(split; [lia | apply Z.leb_le; reflexivity])
              ltac:(lia) Hhi) as (m1 & e1 & -> & Hlo1 & Hhi1).
  rewrite float_of_int_million. unfold fdiv.
  change (2 ^ Z.max e1 0) with (pnum e1).
  change (2 ^ Z.max (- e1) 0) with (pden e1).
  change (2 ^ Z.max (- - 33) 0) with (2 ^ 33).
  change (Z.sgn 8589934592000000) with 1.
  change (Z.abs 8589934592000000 * 2 ^ Z.max (- 33) 0)
    with (1000000 * 2 ^ 33).
  pose proof (pden_pos e1) as Hd1. pose proof (pnum_pos e1) as Hn1.
  assert (H33 : 0 < 2 ^ 33) by reflexivity.
  assert (H63 : 2 ^ 63 <= 2 ^ 44 * 1000000) by (apply Z.leb_le; reflexivity).
  assert (H44 : 0 <= 2 ^ 44 <= 2 ^ 53)
    by (split; apply Z.leb_le; reflexivity).
  set (a := m1 * pnum e1 * 2 ^ 33 * 1).
  set (b := pden e1 * (1000000 * 2 ^ 33)).
  assert (Hb : 0 < b) by (unfold b; nia).
  assert (Hab : 1 * b <= a) by (unfold a, b; nia).
  assert (Hba : a <= 2 ^ 44 * b).
  { unfold a, b.
    apply Z.le_trans with (2 ^ 63 * pden e1 * 2 ^ 33 * 1).
    - rewrite !Z.mul_1_r. apply Z.mul_le_mono_nonneg_r; lia.
    - replace (2 ^ 63 * pden e1 * 2 ^ 33 * 1)
        with (2 ^ 63 * (pden e1 * 2 ^ 33)) by ring.
      replace (2 ^ 44 * (pden e1 * (1000000 * 2 ^ 33)))
        with (2 ^ 44 * 1000000 * (pden e1 * 2 ^ 33)) by ring.
      apply Z.mul_le_mono_nonneg_r; [|exact H63].
      apply Z.mul_nonneg_nonneg; lia. }
  assert (Ha : 0 < a) by lia.
  unfold round64_signed.
  replace (a <? 0) with false by (symmetry; apply Z.ltb_ge; lia).
  destruct (round64_range a b 1 (2 ^ 44) Ha Hb ltac:(lia) H44 Hab Hba)
    as (m & e & Hr & Hv & _).
  exists m, e. split; [exact Hr | lia].
Qed.

Lemma pnum_pden_down (e k : Z) :
  0 <= k -> pnum (e - k) * 2 ^ k * pden e = pnum e * pden (e - k).
Proof.
  intros Hk. rewrite (pnum_pden_shift (e - k) e) by lia.
  replace (e - (e - k)) with k by lia. ring.
Qed.

(** Ten times a float between 1 and [2^44]. *)
Lemma fmul_ten (m e : Z) :
  pden e <= m * pnum e <= 2 ^ 44 * pden e ->
  exists m' e' : Z,
    fmul (Fin m e) (float_of_int 10) = Fin m' e'
    /\ 10 * pden e' <= m' * pnum e' <= 10 * 2 ^ 44 * pden e'.
Proof.
  intros Hv. rewrite float_of_int_ten. unfold fmul.
  replace (e + - 49) with (e - 49) by lia.
  change (2 ^ Z.max (e - 49) 0) with (pnum (e - 49)).
  change (2 ^ Z.max (- (e - 49)) 0) with (pden (e - 49)).
  change 5629499534213120 with (10 * 2 ^ 49).
  pose proof (pnum_pden_down e 49 ltac:(lia)) as Hs.
  pose proof (pden_pos e) as Hd. pose proof (pnum_pos e) as Hn.
  pose proof (pden_pos (e - 49)) as Hd'. pose proof (pnum_pos (e - 49)) as Hn'.
  assert (H49 : 0 < 2 ^ 49) by reflexivity.
  assert (H44 : 0 <= 10 * 2 ^ 44 <= 2 ^ 53)
    by (split; apply Z.leb_le; reflexivity).
  set (a := m * (10 * 2 ^ 49) * pnum (e - 49)).
  set (b := pden (e - 49)).
  assert (Hae : a * pden e = 10 * (m * pnum e) * b).
  { unfold a, b.
    replace (m * (10 * 2 ^ 49) * pnum (e - 49) * pden e)
      with (10 * m * (pnum (e - 49) * 2 ^ 49 * pden e)) by ring.
    rewrite Hs. ring. }
  assert (Hab : 10 * b <= a).
  { apply (Z.mul_le_mono_pos_r _ _ (pden e)); [lia|]. rewrite Hae.
    fold b in Hd'. nia. }
  assert (Hba : a <= 10 * 2 ^ 44 * b).
  { apply (Z.mul_le_mono_pos_r _ _ (pden e)); [lia|]. rewrite Hae.
    fold b in Hd'. revert Hv Hd Hd'. generalize (2 ^ 44) (pden e) (m * pnum e) b.
    intros; nia. }
  assert (Ha : 0 < a) by (fold b in Hd'; lia).
  unfold round64_signed.
  replace (a <? 0) with false by (symmetry; apply Z.ltb_ge; lia).
  destruct (round64_range a b 10 (10 * 2 ^ 44) Ha Hd' ltac:(lia) H44 Hab Hba)
    as (m' & e' & Hr & Hv' & _).
  exists m', e'. split; [exact Hr | exact Hv'].
Qed.

(** The float nearest to [K / 10] reads back as [K] tenths. *)
Lemma round1_tenths_of_tenths (K : Z) :
  0 < K <= 10 * 2 ^ 44 ->
  exists m e : Z,
    round64 K 10 = Fin m e /\ round1_tenths (Fin m e) = K.
Proof.
  intros HK.
  assert (HM : 2 ^ 52 <= 2 ^ 53 - 1 < 2 ^ 53)
    by (split; [apply Z.leb_le | apply Z.ltb_lt]; reflexivity).
  assert (Hh : 2 * (K * pden (- 5))
               < (2 * (2 ^ 53 - 1) + 1) * (10 * pnum (- 5))).
  { change (pden (- 5)) with 32. change (pnum (- 5)) with 1.
    assert (10 * 2 ^ 44 * 64 < (2 * (2 ^ 53 - 1) + 1) * 10)
      by (apply Z.ltb_lt; reflexivity).
    lia. }
  destruct (round64_upper K 10 (2 ^ 53 - 1) (- 5)
              ltac:(lia) ltac:(lia) HM ltac:(lia) Hh)
    as (m & e & Hr & He & Hm & _ & Herr).
  exists m, e. split; [exact Hr|].
  unfold round1_tenths.
  change (fnum (Fin m e)) with (m * pnum e).
  change (fden (Fin m e)) with (pden e).
  rewrite (pnum_neg e) in * by lia.
  assert (HD : 32 <= pden e).
  { rewrite pden_neg by lia. change 32 with (2 ^ 5). apply pow2_le. lia. }
  apply rne_div_nearest; lia.
Qed.

Lemma append_assoc (a b c : string) :
  ((a ++ b) ++ c = a ++ (b ++ c))%string.
Proof.
  induction a as [|ch a IH]; simpl; [reflexivity | rewrite IH; reflexivity].
Qed.
(** The tenths printed by the one-decimal branch. *)
Lemma round1_tenths_million (n m e : Z) :
  0 <= m -> e <= 1 ->
  m * pnum e <= 9999999999999998 * pden e ->
  - (1000000 * pnum e) <= 2 * (m * (1000000 * pnum e) - n * pden e)
    <= 1000000 * pnum e ->
  (n <= 100000000000000000000 -> e <= - 4) ->
  let t := round1_tenths (Fin m e) in
  0 <= t < 10 ^ 17
  /\ (n <= 100000000000000000000 -> - 100000 < t * 100000 - n < 100000).
Proof.
  intros Hm He Hv Herr Hsmall t.
  assert (Ht : t = rne_div (10 * (m * pnum e)) (pden e)) by reflexivity.
  pose proof (pnum_pos e) as Hpn. pose proof (pden_pos e) as Hpd.
  split; [split|].
  - rewrite Ht. apply rne_div_nonneg; [exact Hpd|]. nia.
  - assert (t <= 10 ^ 17 - 1); [|lia].
    rewrite Ht. apply rne_div_le; [exact Hpd|].
    change (10 ^ 17) with 100000000000000000. lia.
  - intros Hn. specialize (Hsmall Hn).
    rewrite (pnum_neg e) in * by lia.
    assert (HD : 16 <= pden e).
    { rewrite pden_neg by lia. change 16 with (2 ^ 4).
      apply pow2_le. lia. }
    pose proof (rne_div_error (10 * (m * 1)) (pden e) Hpd) as Hr.
    rewrite <- Ht in Hr.
    set (D := pden e) in *. clearbody D.
    assert (H1 : - (100000 * D + 1000000)
                 <= 2 * ((t * 100000 - n) * D) <= 100000 * D + 1000000)
      by lia.
    split.
    + apply (Z.mul_lt_mono_pos_r D); lia.
    + apply (Z.mul_lt_mono_pos_r D); lia.
Qed.

(** A quotient not below 1 has a full mantissa. *)
Lemma round64_normal (a b m e : Z) :
  0 < b -> b <= a -> round64 a b = Fin m e ->
  2 ^ 52 <= m
  /\ - (b * pnum e) <= 2 * (m * (b * pnum e) - a * pden e) <= b * pnum e.
Proof.
  intros Hb Hab Hr.
  assert (Ha : 0 < a) by lia.
  destruct (exp_of_spec a b Ha Hb) as [Hlo [Hup Hnorm]].
  rewrite (round64_cases a b Ha) in Hr.
  destruct ((971 <? exp_of a b)
            || ((exp_of a b =? 971) && (mant_at a b (exp_of a b) =? 2 ^ 53)));
    [discriminate Hr|].
  injection Hr as Hm He. rewrite He in *. clear He.
  pose proof (pnum_pos e) as Hn. pose proof (pden_pos e) as Hd.
  assert (HB : 0 < b * pnum e) by nia.
  assert (Hm' : m = rne_div (a * pden e) (b * pnum e)) by (symmetry; exact Hm).
  pose proof (rne_div_error (a * pden e) (b * pnum e) HB) as Herr.
  rewrite <- Hm' in Herr.
  assert (Hfull : 2 ^ 52 * (b * pnum e) <= a * pden e).
  { destruct (Z.eq_dec e (- 1074)) as [->|Hne]; [|apply Hnorm; lia].
    exfalso. change (pnum (- 1074)) with 1 in Hup.
    assert (H53 : 2 ^ 53 <= pden (- 1074)).
    { change (pden (- 1074)) with (2 ^ 1074). apply pow2_le. lia. }
    revert Hup H53 Hd. generalize (pden (- 1074)). intros P Hup H53 HP.
    assert (b * 2 ^ 53 <= b * P) by (apply Z.mul_le_mono_nonneg_l; lia).
    assert (b * P <= a * P) by (apply Z.mul_le_mono_nonneg_r; lia).
    lia. }
  split; [|lia].
  rewrite Hm'. apply rne_div_ge; [exact HB|].
  revert Hfull HB. generalize (2 ^ 52) (b * pnum e) (a * pden e). intros; nia.
Qed.

(** A quotient between [lo >= 1] and [M <= 2^53] rounds to a float in the
    same range, at most [M * 2^-53] away from it. *)
Lemma round64_step (a b lo M : Z) :
  0 < b -> 1 <= lo -> lo <= M -> M <= 2 ^ 53 ->
  lo * b <= a -> a <= M * b ->
  exists m e : Z,
    round64 a b = Fin m e
    /\ lo * pden e <= m * pnum e <= M * pden e
    /\ - (M * (b * pden e)) <= 2 ^ 53 * (m * pnum e * b - a * pden e)
       <= M * (b * pden e).
Proof.
  intros Hb Hlo HloM HM Hge Hle.
  assert (Hba : b <= a) by nia.
  destruct (round64_range a b lo M ltac:(lia) Hb ltac:(lia) ltac:(lia) Hge Hle)
    as (m & e & Hr & Hv & _).
  destruct (round64_normal a b m e Hb Hba Hr) as [Hm Herr].
  exists m, e. split; [exact Hr|]. split; [exact Hv|].
  pose proof (pnum_pos e) as Hn. pose proof (pden_pos e) as Hd.
  assert (H1 : 2 ^ 52 * pnum e <= M * pden e).
  { apply Z.le_trans with (m * pnum e); [|lia].
    apply Z.mul_le_mono_nonneg_r; lia. }
  assert (H2 : b * (2 ^ 52 * pnum e) <= b * (M * pden e))
    by (apply Z.mul_le_mono_nonneg_l; lia).
  replace (m * pnum e * b) with (m * (b * pnum e)) by ring.
  set (X := m * (b * pnum e) - a * pden e) in *.
  assert (H53 : 2 ^ 53 = 2 ^ 52 * 2) by reflexivity.
  assert (H3 : - (2 ^ 52 * (b * pnum e)) <= 2 ^ 52 * (2 * X)
               <= 2 ^ 52 * (b * pnum e)).
  { split.
    - rewrite <- Z.mul_opp_r. apply Z.mul_le_mono_nonneg_l; lia.
    - apply Z.mul_le_mono_nonneg_l; lia. }
  rewrite H53.
  replace (2 ^ 52 * 2 * X) with (2 ^ 52 * (2 * X)) by ring.
  replace (M * (b * pden e)) with (b * (M * pden e)) by ring.
  replace (2 ^ 52 * (b * pnum e)) with (b * (2 ^ 52 * pnum e)) in H3 by ring.
  lia.
Qed.

Lemma scale_error (t c q : Z) :
  0 <= q -> - c <= t <= c -> - (c * q) <= t * q <= c * q.
Proof. intros Hq H. nia. Qed.

(** [float(n)] for an [int64], with its error. *)
Lemma float_of_int64_error (n lo : Z) :
  0 < lo <= 2 ^ 53 -> lo <= n -> n < 2 ^ 63 ->
  exists m e : Z,
    float_of_int n = Fin m e
    /\ lo * pden e <= m * pnum e <= 2 ^ 63 * pden e
    /\ - (2 ^ 10 * pden e) <= m * pnum e - n * pden e <= 2 ^ 10 * pden e.
Proof.
  intros Hlo Hn Hhi.
  destruct (float_of_int64 n lo Hlo Hn Hhi) as (m & e & Hf & Hv).
  exists m, e. split; [exact Hf|]. split; [exact Hv|].
  unfold float_of_int, round64_signed in Hf.
  replace (n <? 0) with false in Hf by (symmetry; apply Z.ltb_ge; lia).
  destruct (round64_normal n 1 m e ltac:(lia) ltac:(lia) Hf) as [Hm Herr].
  pose proof (pnum_pos e) as Hpn. pose proof (pden_pos e) as Hpd.
  assert (H1 : 2 ^ 52 * pnum e <= 2 ^ 63 * pden e).
  { apply Z.le_trans with (m * pnum e); [|lia].
    apply Z.mul_le_mono_nonneg_r; lia. }
  change (2 ^ 63) with (2 ^ 52 * 2 ^ 11) in H1.
  assert (H2 : pnum e <= 2 ^ 11 * pden e).
  { apply (Z.mul_le_mono_pos_l _ _ (2 ^ 52)); [reflexivity|].
    rewrite Z.mul_assoc. exact H1. }
  change (2 ^ 11) with (2 * 2 ^ 10) in H2.
  lia.
Qed.

(** The quotient numpy takes of a float between one million and
    [M] million, with its error. *)
Lemma fdiv_million_error (m1 e1 M : Z) :
  1 <= M <= 2 ^ 53 ->
  1000000 * pden e1 <= m1 * pnum e1 <= M * 1000000 * pden e1 ->
  exists m e : Z,
    fdiv (Fin m1 e1) (float_of_int 1000000) = Fin m e
    /\ pden e <= m * pnum e <= M * pden e
    /\ - (M * (1000000 * pden e1 * pden e))
       <= 2 ^ 53 * (m * pnum e * (1000000 * pden e1) - m1 * pnum e1 * pden e)
       <= M * (1000000 * pden e1 * pden e).
Proof.
  intros HM Hv1.
  rewrite float_of_int_million. unfold fdiv.
  change (2 ^ Z.max e1 0) with (pnum e1).
  change (2 ^ Z.max (- e1) 0) with (pden e1).
  change (2 ^ Z.max (- - 33) 0) with (2 ^ 33).
  change (Z.sgn 8589934592000000) with 1.
  change (Z.abs 8589934592000000 * 2 ^ Z.max (- 33) 0)
    with (1000000 * 2 ^ 33).
  pose proof (pden_pos e1) as Hd1. pose proof (pnum_pos e1) as Hn1.
  assert (H33 : 0 < 2 ^ 33) by reflexivity.
  set (N1 := m1 * pnum e1) in *.
  set (a := N1 * 2 ^ 33 * 1).
  set (b := pden e1 * (1000000 * 2 ^ 33)).
  assert (Ha' : a = N1 * 2 ^ 33) by (unfold a; ring).
  assert (Hb' : b = 1000000 * pden e1 * 2 ^ 33) by (unfold b; ring).
  assert (Hb : 0 < b) by (unfold b; nia).
  assert (Hab : 1 * b <= a).
  { rewrite Ha', Hb', Z.mul_1_l. apply Z.mul_le_mono_nonneg_r; lia. }
  assert (Hba : a <= M * b).
  { rewrite Ha', Hb'.
    replace (M * (1000000 * pden e1 * 2 ^ 33))
      with (M * 1000000 * pden e1 * 2 ^ 33) by ring.
    apply Z.mul_le_mono_nonneg_r; lia. }
  assert (Ha : 0 < a) by lia.
  unfold round64_signed.
  replace (a <? 0) with false by (symmetry; apply Z.ltb_ge; lia).
  destruct (round64_step a b 1 M Hb ltac:(lia) ltac:(lia) ltac:(lia) Hab Hba)
    as (m & e & Hr & Hv & Herr).
  exists m, e. split; [exact Hr|]. split; [lia|].
  pose proof (pden_pos e) as Hd.
  rewrite Ha', Hb' in Herr.
  replace (M * (1000000 * pden e1 * 2 ^ 33 * pden e))
    with (2 ^ 33 * (M * (1000000 * pden e1 * pden e))) in Herr by ring.
  replace (2 ^ 53 * (m * pnum e * (1000000 * pden e1 * 2 ^ 33)
                     - N1 * 2 ^ 33 * pden e))
    with (2 ^ 33 * (2 ^ 53 * (m * pnum e * (1000000 * pden e1)
                              - N1 * pden e))) in Herr by ring.
  rewrite <- Z.mul_opp_r in Herr.
  split.
  - apply (Z.mul_le_mono_pos_l _ _ (2 ^ 33)); [exact H33 | apply Herr].
  - apply (Z.mul_le_mono_pos_l _ _ (2 ^ 33)); [exact H33 | apply Herr].
Qed.

(** Ten times a float between 1 and [M], with its error. *)
Lemma fmul_ten_error (m e M : Z) :
  1 <= M -> 10 * M <= 2 ^ 53 ->
  pden e <= m * pnum e <= M * pden e ->
  exists m' e' : Z,
    fmul (Fin m e) (float_of_int 10) = Fin m' e'
    /\ 10 * pden e' <= m' * pnum e' <= 10 * M * pden e'
    /\ - (10 * M * (pden e * pden e'))
       <= 2 ^ 53 * (m' * pnum e' * pden e - 10 * (m * pnum e) * pden e')
       <= 10 * M * (pden e * pden e').
Proof.
  intros HM1 HM Hv. rewrite float_of_int_ten. unfold fmul.
  replace (e + - 49) with (e - 49) by lia.
  change (2 ^ Z.max (e - 49) 0) with (pnum (e - 49)).
  change (2 ^ Z.max (- (e - 49)) 0) with (pden (e - 49)).
  change 5629499534213120 with (10 * 2 ^ 49).
  pose proof (pnum_pden_down e 49 ltac:(lia)) as Hs.
  pose proof (pden_pos e) as Hd. pose proof (pnum_pos e) as Hn.
  pose proof (pden_pos (e - 49)) as Hd'.
  set (N := m * pnum e) in *.
  set (a := m * (10 * 2 ^ 49) * pnum (e - 49)).
  set (b := pden (e - 49)) in *.
  assert (Hae : a * pden e = 10 * N * b).
  { unfold a, N.
    replace (m * (10 * 2 ^ 49) * pnum (e - 49) * pden e)
      with (10 * m * (pnum (e - 49) * 2 ^ 49 * pden e)) by ring.
    rewrite Hs. ring. }
  assert (Hab : 10 * b <= a).
  { apply (Z.mul_le_mono_pos_r _ _ (pden e)); [lia|]. rewrite Hae.
    replace (10 * b * pden e) with (10 * pden e * b) by ring.
    apply Z.mul_le_mono_nonneg_r; lia. }
  assert (Hba : a <= 10 * M * b).
  { apply (Z.mul_le_mono_pos_r _ _ (pden e)); [lia|]. rewrite Hae.
    replace (10 * M * b * pden e) with (10 * (M * pden e) * b) by ring.
    apply Z.mul_le_mono_nonneg_r; lia. }
  assert (Ha : 0 < a) by lia.
  unfold round64_signed.
  replace (a <? 0) with false by (symmetry; apply Z.ltb_ge; lia).
  destruct (round64_step a b 10 (10 * M) Hd' ltac:(lia) ltac:(lia) HM Hab Hba)
    as (m' & e' & Hr & Hv' & Herr).
  exists m', e'. split; [exact Hr|]. split; [exact Hv'|].
  pose proof (pden_pos e') as Hde'.
  pose proof (scale_error _ _ (pden e) ltac:(lia)
                (conj (proj1 Herr) (proj2 Herr))) as Hsc.
  replace (2 ^ 53 * (m' * pnum e' * b - a * pden e') * pden e)
    with (2 ^ 53 * (m' * pnum e' * b * pden e - (a * pden e) * pden e'))
    in Hsc by ring.
  rewrite Hae in Hsc.
  replace (2 ^ 53 * (m' * pnum e' * b * pden e - 10 * N * b * pden e'))
    with (b * (2 ^ 53 * (m' * pnum e' * pden e - 10 * N * pden e')))
    in Hsc by ring.
  replace (10 * M * (b * pden e') * pden e)
    with (b * (10 * M * (pden e * pden e'))) in Hsc by ring.
  rewrite <- Z.mul_opp_r in Hsc.
  split.
  - apply (Z.mul_le_mono_pos_l _ _ b); [exact Hd' | apply Hsc].
  - apply (Z.mul_le_mono_pos_l _ _ b); [exact Hd' | apply Hsc].
Qed.

(** [(x / 1000000) * 10] for a float [x] within [c1] of the integer [n] and
    between one million and [M] million: the product is within
    [20 * M * 2^-53 + c1 / 100000] of [n / 100000]. *)
Lemma np_tenths_error (n m1 e1 M c1 : Z) :
  1 <= M -> 10 * M <= 2 ^ 53 -> 0 <= c1 ->
  1000000 * pden e1 <= m1 * pnum e1 <= M * 1000000 * pden e1 ->
  - (c1 * pden e1) <= m1 * pnum e1 - n * pden e1 <= c1 * pden e1 ->
  exists m e : Z,
    fmul (fdiv (Fin m1 e1) (float_of_int 1000000)) (float_of_int 10)
    = Fin m e
    /\ 10 * pden e <= m * pnum e <= 10 * M * pden e
    /\ - ((2000000 * M + 2 ^ 53 * c1) * pden e)
       <= 2 ^ 53 * (100000 * (m * pnum e) - n * pden e)
       <= (2000000 * M + 2 ^ 53 * c1) * pden e.
Proof.
  intros HM1 HM Hc1 Hv1 Herr1.
  destruct (fdiv_million_error m1 e1 M ltac:(lia) Hv1)
    as (m2 & e2 & -> & Hv2 & Herr2).
  destruct (fmul_ten_error m2 e2 M HM1 HM Hv2)
    as (m & e & -> & Hv & Herr3).
  exists m, e. split; [reflexivity|]. split; [exact Hv|].
  pose proof (pden_pos e1) as Hd1. pose proof (pden_pos e2) as Hd2.
  pose proof (pden_pos e) as Hd.
  set (N1 := m1 * pnum e1) in *. set (N2 := m2 * pnum e2) in *.
  set (N := m * pnum e) in *.
  set (D1 := pden e1) in *. set (D2 := pden e2) in *. set (D := pden e) in *.
  assert (HDD : 0 < D1 * D2) by (apply Z.mul_pos_pos; assumption).
  pose proof (scale_error _ _ (100000 * D1) ltac:(lia)
                (conj (proj1 Herr3) (proj2 Herr3))) as S3.
  pose proof (scale_error _ _ D ltac:(lia)
                (conj (proj1 Herr2) (proj2 Herr2))) as S2.
  pose proof (scale_error _ _ (2 ^ 53 * (D2 * D))
                ltac:(apply Z.mul_nonneg_nonneg;
                      [apply Z.pow_nonneg; lia
                      | apply Z.mul_nonneg_nonneg; lia])
                (conj (proj1 Herr1) (proj2 Herr1))) as S1.
  assert (Hsum :
    (D1 * D2) * (2 ^ 53 * (100000 * N - n * D))
    = 2 ^ 53 * (N * D2 - 10 * N2 * D) * (100000 * D1)
      + 2 ^ 53 * (N2 * (1000000 * D1) - N1 * D2) * D
      + (N1 - n * D1) * (2 ^ 53 * (D2 * D))) by ring.
  assert (Hbound :
    (D1 * D2) * ((2000000 * M + 2 ^ 53 * c1) * D)
    = 10 * M * (D2 * D) * (100000 * D1)
      + M * (1000000 * D1 * D2) * D
      + c1 * D1 * (2 ^ 53 * (D2 * D))) by ring.
  split.
  - apply (Z.mul_le_mono_pos_l _ _ (D1 * D2)); [exact HDD|].
    rewrite Z.mul_opp_r, Hsum, Hbound. lia.
  - apply (Z.mul_le_mono_pos_l _ _ (D1 * D2)); [exact HDD|].
    rewrite Hsum, Hbound. lia.
Qed.

(** What numpy's [round(x, 1)] makes of the quotient: the integer [K]
    nearest to [(x / 1000000) * 10], and the float nearest to [K / 10],
    which prints as [K] tenths. *)
Lemma np_round1_tenths (x : float) (m e M : Z) :
  1 <= M <= 2 ^ 44 ->
  fmul x (float_of_int 10) = Fin m e ->
  10 * pden e <= m * pnum e <= 10 * M * pden e ->
  let K := rne_div (m * pnum e) (pden e) in
  round (fmul x (float_of_int 10)) = Ok K
  /\ 10 <= K <= 10 * M
  /\ - pden e <= 2 * (K * pden e - m * pnum e) <= pden e
  /\ fstr_round1 (np_round1 x)
     = (str_int (K / 10) ++ "." ++ str_int (K mod 10))%string.
Proof.
  intros HM Hy Hv K.
  pose proof (pden_pos e) as Hd.
  assert (HK : 10 <= K <= 10 * M).
  { split.
    - apply rne_div_ge; [exact Hd | lia].
    - apply rne_div_le; [exact Hd | lia]. }
  assert (H44 : 10 * M <= 10 * 2 ^ 44) by lia.
  split; [rewrite Hy; reflexivity|]. split; [exact HK|].
  split; [apply rne_div_error; exact Hd|].
  unfold np_round1. rewrite Hy.
  change (rne_div (fnum (Fin m e)) (fden (Fin m e))) with K.
  unfold round64_signed.
  replace (K <? 0) with false by (symmetry; apply Z.ltb_ge; lia).
  destruct (round1_tenths_of_tenths K ltac:(lia)) as (m' & e' & -> & Ht).
  unfold fstr_round1. rewrite Ht.
  assert (Hlt : K < 10 ^ 17).
  { assert (10 * 2 ^ 44 < 10 ^ 17) by (apply Z.ltb_lt; reflexivity). lia. }
  apply Z.ltb_lt in Hlt. rewrite Hlt. reflexivity.
Qed.

(** [format_number] on a [numpy.int64] above one million that is not a
    multiple of one million. *)
Lemma format_number_int64_tenths (n : Z) :
  1000000 < n -> n < 2 ^ 63 -> n mod 1000000 <> 0 ->
  exists K : Z,
    round (fmul (fdiv (float_of_int n) (float_of_int 1000000))
                (float_of_int 10)) = Ok K
    /\ format_number_int64 n
       = (str_int (K / 10) ++ "." ++ str_int (K mod 10) ++ " M")%string
    /\ 10 <= K
    /\ - 100000 < K * 100000 - n < 100000.
Proof.
  intros Hlo Hhi Hmod.
  assert (H53 : 0 < 1000000 <= 2 ^ 53)
    by (split; [lia | apply Z.leb_le; reflexivity]).
  destruct (float_of_int64_error n 1000000 H53 ltac:(lia) Hhi)
    as (m1 & e1 & Hf & Hv1 & Herr1).
  assert (H44 : 1 <= 2 ^ 44 /\ 10 * 2 ^ 44 <= 2 ^ 53
                /\ 2 ^ 63 <= 2 ^ 44 * 1000000)
    by (repeat split; apply Z.leb_le; reflexivity).
  destruct H44 as (H44a & H44b & H44c).
  pose proof (pden_pos e1) as Hd1.
  assert (Hv1' : 1000000 * pden e1 <= m1 * pnum e1
                 <= 2 ^ 44 * 1000000 * pden e1).
  { split; [lia|]. apply Z.le_trans with (2 ^ 63 * pden e1); [lia|].
    apply Z.mul_le_mono_nonneg_r; lia. }
  destruct (np_tenths_error n m1 e1 (2 ^ 44) (2 ^ 10) H44a H44b
              ltac:(apply Z.pow_nonneg; lia) Hv1' Herr1)
    as (m & e & Hy & Hv & Herr).
  rewrite <- Hf in Hy.
  destruct (np_round1_tenths _ m e (2 ^ 44) ltac:(lia) Hy Hv)
    as (HK & HKr & HKe & Hs).
  set (K := rne_div (m * pnum e) (pden e)) in *.
  exists K. split; [exact HK|]. split; [|split; [lia|]].
  - unfold format_number_int64.
    destruct (1000000 <? n) eqn:E; [|apply Z.ltb_ge in E; lia].
    destruct (n mod 1000000 =? 0) eqn:E'; [apply Z.eqb_eq in E'; lia|].
    rewrite Hs, append_assoc. reflexivity.
  - pose proof (pden_pos e) as Hd.
    assert (HB : 2000000 * 2 ^ 44 + 2 ^ 53 * 2 ^ 10 < 2 ^ 53 * 5000)
      by (apply Z.ltb_lt; reflexivity).
    assert (HX : - (2 ^ 53 * 5000 * pden e)
                 <= 2 ^ 53 * (100000 * (m * pnum e) - n * pden e)
                 <= 2 ^ 53 * 5000 * pden e).
    { revert HB Herr Hd.
      generalize (2000000 * 2 ^ 44 + 2 ^ 53 * 2 ^ 10) (2 ^ 53 * 5000)
                 (2 ^ 53 * (100000 * (m * pnum e) - n * pden e)) (pden e).
      intros B C X D HB Herr Hd.
      assert (B * D <= C * D) by (apply Z.mul_le_mono_nonneg_r; lia). lia. }
    assert (HY : - (5000 * pden e)
                 <= 100000 * (m * pnum e) - n * pden e
                 <= 5000 * pden e).
    { assert (Hp : 0 < 2 ^ 53) by reflexivity.
      rewrite <- Z.mul_assoc, <- Z.mul_opp_r in HX.
      split; apply (Z.mul_le_mono_pos_l _ _ (2 ^ 53)); (exact Hp || apply HX). }
    assert (HZ : - (100000 * pden e) < (K * 100000 - n) * pden e
                 < 100000 * pden e) by lia.
    split.
    + apply (Z.mul_lt_mono_pos_r (pden e)); lia.
    + apply (Z.mul_lt_mono_pos_r (pden e)); lia.
Qed.

(** C3, as the code has it.  Called with a Python integer
    [0 <= n <= 10^22 - 10^6]: up to one million (the boundary included)
    the result is [n // 1000] followed by [" K"]; above it, a multiple of
    one million gives [n // 1000000] followed by [" M"], without a decimal;
    any other [n] gives [round(n / 1000000, 1)] printed with exactly one
    decimal digit and [" M"], and up to [10^20] that number is less than a
    tenth away from [n / 1000000].  Called with a [numpy.int64]
    [0 <= n < 2^63], which is what the script passes: the same two strings
    in the first two cases; in the third, numpy's [round(x, 1)] is
    [rint(x * 10) / 10], and the result is that number, [K / 10] for the
    integer [K = rint((n / 1000000) * 10)], printed with exactly one decimal
    digit and [" M"], less than a tenth away from [n / 1000000].  Either
    way 500 gives ["0 K"] and 999999 gives ["999 K"]. *)
Theorem format_number_contract :
  (forall n : Z,
      0 <= n <= 9999999999999999000000 ->
      (n <= 1000000 ->
         format_number n = Ok (str_int (n / 1000) ++ " K")%string)
      /\ (1000000 < n -> n mod 1000000 = 0 ->
         format_number n = Ok (str_int (n / 1000000) ++ " M")%string)
      /\ (1000000 < n -> n mod 1000000 <> 0 ->
         exists x : float,
           truediv n 1000000 = Ok x
           /\ format_number n
              = Ok (str_int (round1_tenths x / 10) ++ "."
                      ++ str_int (round1_tenths x mod 10) ++ " M")%string
           /\ (exists s : string, format_number n = Ok s /\ one_decimal_M s)
           /\ (n <= 100000000000000000000 ->
               - 100000 < round1_tenths x * 100000 - n < 100000)))
  /\ (forall n : Z,
      0 <= n < 2 ^ 63 ->
      (n <= 1000000 ->
         format_number_int64 n = (str_int (n / 1000) ++ " K")%string)
      /\ (1000000 < n -> n mod 1000000 = 0 ->
         format_number_int64 n = (str_int (n / 1000000) ++ " M")%string)
      /\ (1000000 < n -> n mod 1000000 <> 0 ->
         exists K : Z,
           round (fmul (fdiv (float_of_int n) (float_of_int 1000000))
                       (float_of_int 10)) = Ok K
           /\ format_number_int64 n
              = (str_int (K / 10) ++ "." ++ str_int (K mod 10) ++ " M")%string
           /\ one_decimal_M (format_number_int64 n)
           /\ - 100000 < K * 100000 - n < 100000))
  /\ format_number 500 = Ok "0 K"%string
  /\ format_number 999999 = Ok "999 K"%string
  /\ format_number_int64 500 = "0 K"%string
  /\ format_number_int64 999999 = "999 K"%string.
Proof.
  split; [|split].
  - intros n Hn. split; [|split].
    + intros Hle. unfold format_number.
      destruct (1000000 <? n) eqn:E; [apply Z.ltb_lt in E; lia|].
      rewrite format_int_small; [reflexivity|].
      assert (0 <= n / 1000 <= 1000) by (split; [apply Z.div_pos; lia
        | apply Z.div_le_upper_bound; lia]).
      rewrite Z.abs_eq by lia.
      change (10 ^ 22) with 10000000000000000000000. lia.
    + intros Hlt Hmod. unfold format_number.
      destruct (1000000 <? n) eqn:E; [|apply Z.ltb_ge in E; lia].
      rewrite Hmod. cbv iota beta. change (0 =? 0) with true. cbv iota.
      rewrite format_int_small; [reflexivity|].
      assert (0 <= n / 1000000 <= n) by (split; [apply Z.div_pos; lia
        | apply Z.div_le_upper_bound; lia]).
      rewrite Z.abs_eq by lia.
      change (10 ^ 22) with 10000000000000000000000. lia.
    + intros Hlt Hmod.
      assert (Hhi : n < 9999999999999999000000).
      { destruct (Z.eq_dec n 9999999999999999000000) as [->|]; [|lia].
        exfalso. apply Hmod. reflexivity. }
      destruct (truediv_million n Hlt Hhi)
        as (m & e & Hx & Hm & He & Hv & Herr & Hsmall).
      destruct (round1_tenths_million n m e Hm He Hv Herr Hsmall)
        as [Ht Hacc].
      assert (Hf : format_number n
                   = Ok (str_int (round1_tenths (Fin m e) / 10) ++ "."
                           ++ str_int (round1_tenths (Fin m e) mod 10)
                           ++ " M")%string).
      { unfold format_number.
        destruct (1000000 <? n) eqn:E; [|apply Z.ltb_ge in E; lia].
        destruct (n mod 1000000 =? 0) eqn:E'; [apply Z.eqb_eq in E'; lia|].
        rewrite Hx. unfold bind, fstr_round1.
        destruct (round1_tenths (Fin m e) <? 10 ^ 17) eqn:E'';
          [|apply Z.ltb_ge in E''; lia].
        rewrite append_assoc. reflexivity. }
      exists (Fin m e). split; [exact Hx|]. split; [exact Hf|].
      split; [|exact Hacc].
      eexists. split; [exact Hf|].
      exists (round1_tenths (Fin m e) / 10), (round1_tenths (Fin m e) mod 10).
      split; [apply Z.div_pos; lia|].
      split; [apply Z.mod_pos_bound; lia|]. reflexivity.
  - intros n Hn. split; [|split].
    + intros Hle. unfold format_number_int64.
      destruct (1000000 <? n) eqn:E; [apply Z.ltb_lt in E; lia|]. reflexivity.
    + intros Hlt Hmod. unfold format_number_int64.
      destruct (1000000 <? n) eqn:E; [|apply Z.ltb_ge in E; lia].
      rewrite Hmod. reflexivity.
    + intros Hlt Hmod.
      destruct (format_number_int64_tenths n Hlt ltac:(lia) Hmod)
        as (K & HK & Hs & HK10 & Hacc).
      exists K. split; [exact HK|]. split; [exact Hs|]. split; [|exact Hacc].
      rewrite Hs. exists (K / 10), (K mod 10).
      split; [apply Z.div_pos; lia|].
      split; [apply Z.mod_pos_bound; lia|]. reflexivity.
  - repeat split; vm_compute; reflexivity.
Qed.

Lemma format_number_contract_witness :
  (exists s : string, format_number 1500000 = Ok s /\ one_decimal_M s)
  /\ one_decimal_M (format_number_int64 1500000).
Proof.
  destruct format_number_contract as (Hpy & Hnp & _).
  split.
  - destruct (Hpy 1500000 ltac:(lia)) as (_ & _ & H).
    destruct (H ltac:(lia) ltac:(vm_compute; discriminate))
      as (x & _ & _ & Hs & _).
    exact Hs.
  - assert (H63 : 0 <= 1500000 < 2 ^ 63)
      by (split; [lia | apply Z.ltb_lt; reflexivity]).
    destruct (Hnp 1500000 H63) as (_ & _ & H).
    destruct (H ltac:(lia) ltac:(vm_compute; discriminate))
      as (K & _ & _ & Hs & _).
    exact Hs.
Defined.

(** ** The tenths numpy prints *)

(** Up to [4 * 10^15] the three float operations of numpy's path lose less
    than the distance of [n / 100000] to the nearest half: an [int64] that
    is not halfway between two tenths of a million is printed as the tenth
    nearest to it. *)
Lemma format_number_nearest_tenth_int64 (n : Z) :
  1000000 < n <= 4000000000000000 ->
  n mod 1000000 <> 0 ->
  n mod 100000 <> 50000 ->
  format_number_int64 n
  = (str_int (rne_div n 100000 / 10) ++ "."
       ++ str_int (rne_div n 100000 mod 10) ++ " M")%string.
Proof.
  intros Hn Hmod Htie.
  set (z := rne_div n 100000).
  assert (Hz : - 100000 < 2 * (z * 100000 - n) < 100000).
  { pose proof (rne_div_error n 100000 ltac:(lia)) as H. fold z in H.
    assert (2 * (z * 100000 - n) <> 100000).
    { intros E. apply Htie. symmetry.
      apply (Z.mod_unique_pos n 100000 (z - 1) 50000); lia. }
    assert (2 * (z * 100000 - n) <> - 100000).
    { intros E. apply Htie. symmetry.
      apply (Z.mod_unique_pos n 100000 z 50000); lia. }
    lia. }
  assert (H53 : 2 ^ 53 = 9007199254740992) by reflexivity.
  assert (H32 : 2 ^ 32 = 4294967296) by reflexivity.
  destruct (float_of_int_exact n ltac:(rewrite Z.abs_eq; lia))
    as (m1 & e1 & Hf & Hv1).
  pose proof (pden_pos e1) as Hd1.
  destruct (np_tenths_error n m1 e1 (2 ^ 32) 0 ltac:(lia) ltac:(lia)
              ltac:(lia)) as (m & e & Hy & Hv & Herr).
  { rewrite Hv1, H32. nia. }
  { rewrite Hv1. lia. }
  rewrite <- Hf in Hy.
  destruct (np_round1_tenths _ m e (2 ^ 32) ltac:(lia) Hy Hv)
    as (_ & _ & _ & Hs).
  pose proof (pden_pos e) as Hd.
  assert (HK : rne_div (m * pnum e) (pden e) = z).
  { apply rne_div_nearest; [exact Hd|].
    rewrite H32, H53, Z.mul_0_r, Z.add_0_r in Herr.
    set (N := m * pnum e) in *. set (D := pden e) in *.
    assert (HX : - D < 100000 * N - n * D < D) by lia.
    assert (HY : - (100000 * D) < 2 * ((z * D - N) * 100000) < 100000 * D)
      by nia.
    split; apply (Z.mul_lt_mono_pos_r 100000); lia. }
  rewrite HK in Hs.
  unfold format_number_int64.
  destruct (1000000 <? n) eqn:E; [|apply Z.ltb_ge in E; lia].
  destruct (n mod 1000000 =? 0) eqn:E'; [apply Z.eqb_eq in E'; lia|].
  rewrite Hs, append_assoc. reflexivity.
Qed.

Lemma pden_gt_1 (e : Z) : 1 < pden e -> pnum e = 1 /\ e < 0.
Proof.
  intros H. destruct (Z.le_gt_cases 0 e) as [He|He].
  - unfold pden in H. rewrite Z.max_r in H by lia. simpl in H. lia.
  - split; [apply pnum_neg; lia | lia].
Qed.

Lemma pden_ge_pow (e k : Z) : 0 <= k -> e < 0 -> 2 ^ k <= pden e -> k <= - e.
Proof.
  intros Hk He H. rewrite pden_neg in H by lia.
  destruct (Z.le_gt_cases k (- e)) as [Hle|Hgt]; [exact Hle|exfalso].
  assert (2 ^ (- e) < 2 ^ k) by (apply Z.pow_lt_mono_r; lia). lia.
Qed.

(** What a finite result of [round64] is made of. *)
Lemma round64_inv (a b m e : Z) :
  0 < a -> 0 < b -> round64 a b = Fin m e ->
  m = rne_div (a * pden e) (b * pnum e)
  /\ a * pden e < b * pnum e * 2 ^ 53.
Proof.
  intros Ha Hb Hr.
  destruct (exp_of_spec a b Ha Hb) as [_ [Hup _]].
  rewrite (round64_cases a b Ha) in Hr.
  destruct ((971 <? exp_of a b)
            || ((exp_of a b =? 971) && (mant_at a b (exp_of a b) =? 2 ^ 53)));
    [discriminate Hr|].
  injection Hr as Hm He. rewrite He in *.
  split; [symmetry; exact Hm | exact Hup].
Qed.

(** The mantissa of the quotient numpy takes of an integer between one
    million and [2^32] million. *)
Lemma fdiv_million_mantissa (n m1 e1 : Z) :
  1000000 < n <= 2 ^ 32 * 1000000 ->
  m1 * pnum e1 = n * pden e1 ->
  exists m e : Z,
    fdiv (Fin m1 e1) (float_of_int 1000000) = Fin m e
    /\ e <= - 20 /\ 2 ^ 52 <= m
    /\ pden e <= m <= 2 ^ 32 * pden e
    /\ m = rne_div (n * pden e) 1000000.
Proof.
  intros Hn Hv1.
  pose proof (pden_pos e1) as Hd1.
  assert (H32 : 1 <= 2 ^ 32 <= 2 ^ 53) by (split; apply Z.leb_le; reflexivity).
  destruct (fdiv_million_error m1 e1 (2 ^ 32) H32) as (m & e & Hx & Hv & _).
  { rewrite Hv1. split; [nia|].
    replace (2 ^ 32 * 1000000 * pden e1) with (2 ^ 32 * 1000000 * pden e1) by ring.
    apply Z.mul_le_mono_nonneg_r; lia. }
  exists m, e. split; [exact Hx|].
  rewrite float_of_int_million in Hx. unfold fdiv in Hx.
  change (2 ^ Z.max e1 0) with (pnum e1) in Hx.
  change (2 ^ Z.max (- e1) 0) with (pden e1) in Hx.
  change (2 ^ Z.max (- - 33) 0) with (2 ^ 33) in Hx.
  change (Z.sgn 8589934592000000) with 1 in Hx.
  change (Z.abs 8589934592000000 * 2 ^ Z.max (- 33) 0)
    with (1000000 * 2 ^ 33) in Hx.
  rewrite Hv1 in Hx.
  assert (H33 : 0 < 2 ^ 33) by reflexivity.
  set (A := n * pden e1 * 2 ^ 33 * 1) in Hx.
  set (B := pden e1 * (1000000 * 2 ^ 33)) in Hx.
  assert (HB : 0 < B) by (unfold B; nia).
  assert (HAB : B <= A).
  { unfold A, B.
    replace (pden e1 * (1000000 * 2 ^ 33)) with (1000000 * (pden e1 * 2 ^ 33))
      by ring.
    replace (n * pden e1 * 2 ^ 33 * 1) with (n * (pden e1 * 2 ^ 33)) by ring.
    apply Z.mul_le_mono_nonneg_r; nia. }
  unfold round64_signed in Hx.
  replace (A <? 0) with false in Hx by (symmetry; apply Z.ltb_ge; lia).
  destruct (round64_normal A B m e HB HAB Hx) as [Hm _].
  destruct (round64_inv A B m e ltac:(lia) HB Hx) as [Hmant _].
  pose proof (pnum_pos e) as Hpn. pose proof (pden_pos e) as Hpd.
  assert (H20 : 2 ^ 20 <= pden e).
  { assert (H1 : 2 ^ 52 * pnum e <= 2 ^ 32 * pden e).
    { apply Z.le_trans with (m * pnum e); [|lia].
      apply Z.mul_le_mono_nonneg_r; lia. }
    change (2 ^ 52) with (2 ^ 32 * 2 ^ 20) in H1.
    assert (2 ^ 20 * pnum e <= pden e).
    { apply (Z.mul_le_mono_pos_l _ _ (2 ^ 32)); [reflexivity|].
      rewrite Z.mul_assoc. exact H1. }
    assert (2 ^ 20 * 1 <= 2 ^ 20 * pnum e)
      by (apply Z.mul_le_mono_nonneg_l; [apply Z.pow_nonneg|]; lia).
    lia. }
  assert (Hgt : 1 < pden e).
  { assert (1 < 2 ^ 20) by reflexivity. lia. }
  destruct (pden_gt_1 e Hgt) as [Hp1 Hneg].
  rewrite Hp1 in *.
  split; [pose proof (pden_ge_pow e 20 ltac:(lia) Hneg H20); lia|].
  split; [exact Hm|]. split; [lia|].
  rewrite Hmant. apply rne_div_cross; [lia | lia|].
  unfold A, B. ring.
Qed.

Lemma pden_shift_49 (e : Z) : e <= 0 -> pden (e - 49) = 2 ^ 49 * pden e.
Proof.
  intros He. rewrite !pden_neg by lia.
  replace (- (e - 49)) with (49 + - e) by lia.
  apply Z.pow_add_r; lia.
Qed.

(** The mantissa of ten times a float between 1 and [2^32]. *)
Lemma fmul_ten_mantissa (m e : Z) :
  e <= - 20 -> 2 ^ 52 <= m -> pden e <= m <= 2 ^ 32 * pden e ->
  exists m' e' : Z,
    fmul (Fin m e) (float_of_int 10) = Fin m' e'
    /\ e + 3 <= e' /\ e' <= - 16
    /\ 10 * pden e' <= m' <= 10 * 2 ^ 32 * pden e'
    /\ m' = rne_div (10 * m * pden e') (pden e).
Proof.
  intros He Hm Hv.
  assert (H32 : 1 <= 2 ^ 32 /\ 10 * 2 ^ 32 <= 2 ^ 53)
    by (split; apply Z.leb_le; reflexivity).
  pose proof (pnum_neg e ltac:(lia)) as Hp1.
  destruct (fmul_ten_error m e (2 ^ 32) (proj1 H32) (proj2 H32))
    as (m' & e' & Hy & Hv' & _).
  { rewrite Hp1, Z.mul_1_r. exact Hv. }
  exists m', e'. split; [exact Hy|].
  rewrite float_of_int_ten in Hy. unfold fmul in Hy.
  replace (e + - 49) with (e - 49) in Hy by lia.
  change (2 ^ Z.max (e - 49) 0) with (pnum (e - 49)) in Hy.
  change (2 ^ Z.max (- (e - 49)) 0) with (pden (e - 49)) in Hy.
  rewrite (pnum_neg (e - 49)) in Hy by lia.
  rewrite (pden_shift_49 e) in Hy by lia.
  change 5629499534213120 with (10 * 2 ^ 49) in Hy.
  pose proof (pden_pos e) as Hd. pose proof (pden_pos e') as Hd'.
  pose proof (pnum_pos e') as Hn'.
  assert (H49 : 0 < 2 ^ 49) by reflexivity.
  set (A := m * (10 * 2 ^ 49) * 1) in Hy.
  set (B := 2 ^ 49 * pden e) in Hy.
  assert (HA : A = 10 * m * 2 ^ 49) by (unfold A; ring).
  assert (HB : 0 < B) by (unfold B; nia).
  assert (HAB : B <= A).
  { rewrite HA. unfold B. rewrite (Z.mul_comm (2 ^ 49)).
    apply Z.mul_le_mono_nonneg_r; lia. }
  unfold round64_signed in Hy.
  replace (A <? 0) with false in Hy by (symmetry; apply Z.ltb_ge; lia).
  destruct (round64_normal A B m' e' HB HAB Hy) as [Hm' _].
  destruct (round64_inv A B m' e' ltac:(lia) HB Hy) as [Hmant Hup].
  assert (H17 : 2 ^ 16 <= pden e').
  { assert (H1 : 2 ^ 52 * pnum e' <= 10 * 2 ^ 32 * pden e').
    { apply Z.le_trans with (m' * pnum e'); [|lia].
      apply Z.mul_le_mono_nonneg_r; lia. }
    change (2 ^ 52) with (2 ^ 32 * 2 ^ 20) in H1.
    assert (H2 : 2 ^ 20 * pnum e' <= 10 * pden e').
    { apply (Z.mul_le_mono_pos_l _ _ (2 ^ 32)); [reflexivity|].
      replace (2 ^ 32 * (10 * pden e')) with (10 * 2 ^ 32 * pden e') by ring.
      rewrite Z.mul_assoc. exact H1. }
    change (2 ^ 20) with 1048576 in H2. change (2 ^ 16) with 65536. lia. }
  assert (Hgt : 1 < pden e').
  { assert (1 < 2 ^ 16) by reflexivity. lia. }
  destruct (pden_gt_1 e' Hgt) as [Hp1' Hneg'].
  rewrite Hp1' in *. rewrite Z.mul_1_r in Hv', Hup, Hmant.
  pose proof (pden_ge_pow e' 16 ltac:(lia) Hneg' H17) as He17.
  assert (H5 : 5 * pden e' < pden e).
  { rewrite HA in Hup. unfold B in Hup.
    assert (H1 : 10 * 2 ^ 52 * pden e' <= 10 * m * pden e').
    { apply Z.mul_le_mono_nonneg_r; lia. }
    assert (H2 : 2 ^ 49 * (10 * m * pden e') < 2 ^ 49 * (pden e * 2 ^ 53)).
    { replace (2 ^ 49 * (10 * m * pden e'))
        with (10 * m * 2 ^ 49 * pden e') by ring.
      replace (2 ^ 49 * (pden e * 2 ^ 53))
        with (2 ^ 49 * pden e * 2 ^ 53) by ring.
      exact Hup. }
    apply Z.mul_lt_mono_pos_l in H2; [|exact H49].
    change (2 ^ 53) with (2 * 2 ^ 52) in H2.
    change (10 * 2 ^ 52) with (2 ^ 52 * 10) in H1.
    assert (H3 : 2 ^ 52 * (10 * pden e') < 2 ^ 52 * (2 * pden e)) by lia.
    apply Z.mul_lt_mono_pos_l in H3; [lia | reflexivity]. }
  split.
  { destruct (Z.le_gt_cases (e + 3) e') as [Hle|Hgt']; [exact Hle|exfalso].
    rewrite (pden_neg e), (pden_neg e') in H5 by lia.
    assert (2 ^ (- e) <= 2 ^ (- e' + 2)) by (apply pow2_le; lia).
    rewrite Z.pow_add_r in H by lia. change (2 ^ 2) with 4 in H. lia. }
  split; [lia|]. split; [exact Hv'|].
  rewrite Hmant. apply rne_div_cross; [lia | lia|].
  rewrite HA. unfold B. ring.
Qed.

(** A quotient within half of an even integer goes to it. *)
Lemma rne_div_near_even (M c r : Z) :
  0 < c -> - 2 <= r <= 2 -> Z.even M = true ->
  rne_div (4 * c * M + r) (4 * c) = M.
Proof.
  intros Hc Hr Hev.
  destruct (Z.eq_dec r 2) as [->|H2]; [|destruct (Z.eq_dec r (- 2)) as [->|H2']].
  - destruct (Z.eq_dec c 1) as [->|Hc1].
    + rewrite (rne_div_tie (4 * 1 * M + 2) (4 * 1) M ltac:(lia) ltac:(lia)).
      rewrite Hev. reflexivity.
    + apply rne_div_nearest; lia.
  - destruct (Z.eq_dec c 1) as [->|Hc1].
    + rewrite (rne_div_tie (4 * 1 * M + - 2) (4 * 1) (M - 1)
                 ltac:(lia) ltac:(lia)).
      replace (Z.even (M - 1)) with false; [lia|].
      symmetry. rewrite Z.even_sub, Hev. reflexivity.
    + apply rne_div_nearest; lia.
  - apply rne_div_nearest; lia.
Qed.

(** A number halfway between two tenths of a million: the quotient is off
    by at most two fifths of a unit in its last place, and ten times the
    quotient rounds back to the halfway point itself. *)
Lemma np_tenths_tie (n j m e m' e' : Z) :
  n = 50000 * (2 * j + 1) -> 0 <= j ->
  e <= - 20 -> e + 3 <= e' -> e' <= - 2 ->
  m = rne_div (n * pden e) 1000000 ->
  m' = rne_div (10 * m * pden e') (pden e) ->
  2 * m' = (2 * j + 1) * pden e'.
Proof.
  intros Hn Hj He Hee He' Hm Hm'.
  set (c := 2 ^ (e' - e - 3)).
  set (D2 := 2 ^ (- e' - 2)).
  assert (Hc : 0 < c) by (apply Z.pow_pos_nonneg; lia).
  assert (HD2 : 0 < D2) by (apply Z.pow_pos_nonneg; lia).
  assert (HD' : pden e' = 4 * D2).
  { rewrite pden_neg by lia. unfold D2.
    replace (- e') with (2 + (- e' - 2)) at 1 by lia.
    rewrite Z.pow_add_r by lia. reflexivity. }
  assert (HD : pden e = 8 * c * pden e').
  { rewrite !pden_neg by lia. unfold c.
    replace (- e) with (3 + (e' - e - 3) + - e') at 1 by lia.
    rewrite !Z.pow_add_r by lia. reflexivity. }
  set (T := (2 * j + 1) * D2).
  assert (Hm5 : m = rne_div (8 * c * T) 5).
  { rewrite Hm. apply rne_div_cross; [lia | lia|].
    rewrite HD, HD', Hn. unfold T. ring. }
  pose proof (rne_div_error (8 * c * T) 5 ltac:(lia)) as Herr.
  rewrite <- Hm5 in Herr.
  set (r := 5 * m - 8 * c * T).
  assert (Hr : - 2 <= r <= 2) by (unfold r; lia).
  assert (Hm4 : m' = rne_div (4 * c * (2 * T) + r) (4 * c)).
  { rewrite Hm'. apply rne_div_cross.
    - rewrite HD, HD'. nia.
    - lia.
    - rewrite HD. unfold r. ring. }
  rewrite (rne_div_near_even (2 * T) c r Hc Hr) in Hm4.
  - rewrite Hm4, HD'. unfold T. ring.
  - rewrite Z.even_mul. reflexivity.
Qed.

(** Up to [2^32] million, numpy's path sends a number halfway between two
    tenths of a million to the even one. *)
Lemma format_number_tie_int64 (n : Z) :
  1000000 < n <= 2 ^ 32 * 1000000 ->
  n mod 100000 = 50000 ->
  format_number_int64 n
  = (str_int (rne_div n 100000 / 10) ++ "."
       ++ str_int (rne_div n 100000 mod 10) ++ " M")%string.
Proof.
  intros Hn Htie.
  assert (H32 : 2 ^ 32 = 4294967296) by reflexivity.
  assert (H53 : 2 ^ 53 = 9007199254740992) by reflexivity.
  pose proof (Z.div_mod n 100000 ltac:(lia)) as Hdm. rewrite Htie in Hdm.
  set (j := n / 100000) in *.
  assert (Hnj : n = 50000 * (2 * j + 1)) by lia.
  assert (Hj : 0 <= j) by lia.
  assert (Hmod : n mod 1000000 <> 0).
  { intros H0. pose proof (Z.div_mod n 1000000 ltac:(lia)) as H1.
    rewrite H0 in H1. lia. }
  destruct (float_of_int_exact n ltac:(rewrite Z.abs_eq; lia))
    as (m1 & e1 & Hf & Hv1).
  destruct (fdiv_million_mantissa n m1 e1 ltac:(lia) Hv1)
    as (m & e & Hx & He & Hm52 & Hmv & Hm).
  destruct (fmul_ten_mantissa m e He Hm52 Hmv)
    as (m' & e' & Hy & Hee & He' & Hv' & Hm').
  pose proof (np_tenths_tie n j m e m' e' Hnj Hj He Hee ltac:(lia) Hm Hm')
    as Hval.
  rewrite <- Hx, <- Hf in Hy.
  pose proof (pden_pos e') as Hd'.
  destruct (np_round1_tenths _ m' e' (2 ^ 32) ltac:(lia) Hy)
    as (_ & _ & _ & Hs).
  { rewrite (pnum_neg e') by lia. lia. }
  assert (HK : rne_div (m' * pnum e') (pden e') = rne_div n 100000).
  { apply rne_div_cross; [exact Hd' | lia|].
    rewrite (pnum_neg e') by lia. rewrite Hnj. lia. }
  rewrite HK in Hs.
  unfold format_number_int64.
  destruct (1000000 <? n) eqn:E; [|apply Z.ltb_ge in E; lia].
  destruct (n mod 1000000 =? 0) eqn:E'; [apply Z.eqb_eq in E'; lia|].
  rewrite Hs, append_assoc. reflexivity.
Qed.

(** ** The rounding rule *)

Lemma fden_pos (x : float) : 0 < fden x.
Proof.
  destruct x as [m e|s]; simpl; [apply Z.pow_pos_nonneg; lia | lia].
Qed.

Lemma pnum_pden_add (e1 e2 : Z) :
  pnum (e1 + e2) * pden e1 * pden e2 = pnum e1 * pnum e2 * pden (e1 + e2).
Proof.
  destruct (Z.le_gt_cases 0 e1); destruct (Z.le_gt_cases 0 e2);
    destruct (Z.le_gt_cases 0 (e1 + e2)); try lia; pow2_cases.
Qed.

(** A quotient of integers that is [q / 2^a], [q] at most [2^53], is a
    float. *)
Lemma truediv_dyadic (p c q a : Z) :
  0 <= p -> 0 < c -> 0 <= q <= 2 ^ 53 -> 0 <= a <= 1074 ->
  p * 2 ^ a = q * c ->
  exists m e : Z,
    truediv p c = Ok (Fin m e) /\ m * pnum e * 2 ^ a = q * pden e.
Proof.
  intros Hp Hc Hq Ha Hv.
  assert (H2a : 0 < 2 ^ a) by (apply Z.pow_pos_nonneg; lia).
  destruct (round64_signed_exact p c q (- a) Hc Hq ltac:(lia))
    as (m & e & Hr & He).
  { rewrite Z.abs_eq by lia. rewrite pnum_neg, pden_neg by lia.
    replace (- - a) with a by lia. lia. }
  exists m, e. split.
  - unfold truediv.
    replace (c =? 0) with false by (symmetry; apply Z.eqb_neq; lia).
    rewrite Z.sgn_pos, Z.abs_eq, Z.mul_1_r by lia. rewrite Hr. reflexivity.
  - apply (Z.mul_cancel_r _ _ c); [lia|].
    replace (m * pnum e * 2 ^ a * c) with (m * pnum e * c * 2 ^ a) by ring.
    rewrite He.
    replace (p * pden e * 2 ^ a) with (p * 2 ^ a * pden e) by ring.
    rewrite Hv. ring.
Qed.

(** The product of a float [k / 2^a] and an integer float [c], when
    [c * k] is at most [2^53], is [c * k / 2^a]. *)
Lemma fmul_dyadic (m1 e1 m2 e2 k c a : Z) :
  0 <= a <= 1074 -> Z.abs (c * k) <= 2 ^ 53 ->
  m1 * pnum e1 * 2 ^ a = k * pden e1 ->
  m2 * pnum e2 = c * pden e2 ->
  exists m e : Z,
    fmul (Fin m1 e1) (Fin m2 e2) = Fin m e
    /\ m * pnum e * 2 ^ a = c * k * pden e.
Proof.
  intros Ha Hck H1 H2. unfold fmul.
  change (2 ^ Z.max (e1 + e2) 0) with (pnum (e1 + e2)).
  change (2 ^ Z.max (- (e1 + e2)) 0) with (pden (e1 + e2)).
  pose proof (pnum_pden_add e1 e2) as Hadd.
  pose proof (pden_pos e1) as Hd1. pose proof (pden_pos e2) as Hd2.
  pose proof (pden_pos (e1 + e2)) as Hds.
  assert (H2a : 0 < 2 ^ a) by (apply Z.pow_pos_nonneg; lia).
  set (A := m1 * m2 * pnum (e1 + e2)).
  assert (HA : A * 2 ^ a = c * k * pden (e1 + e2)).
  { apply (Z.mul_cancel_r _ _ (pden e1 * pden e2)); [nia|].
    unfold A.
    replace (m1 * m2 * pnum (e1 + e2) * 2 ^ a * (pden e1 * pden e2))
      with (m1 * m2 * 2 ^ a * (pnum (e1 + e2) * pden e1 * pden e2)) by ring.
    rewrite Hadd.
    replace (m1 * m2 * 2 ^ a * (pnum e1 * pnum e2 * pden (e1 + e2)))
      with ((m1 * pnum e1 * 2 ^ a) * (m2 * pnum e2) * pden (e1 + e2)) by ring.
    rewrite H1, H2. ring. }
  destruct (round64_signed_exact A (pden (e1 + e2)) (Z.abs (c * k)) (- a)
              Hds ltac:(lia) ltac:(lia)) as (m & e & Hr & He).
  { rewrite pnum_neg, pden_neg by lia. replace (- - a) with a by lia.
    rewrite <- (Z.abs_eq (2 ^ a)) by lia. rewrite <- Z.abs_mul, HA.
    rewrite Z.abs_mul, (Z.abs_eq (pden (e1 + e2))) by lia. ring. }
  exists m, e. split; [exact Hr|].
  apply (Z.mul_cancel_r _ _ (pden (e1 + e2))); [lia|].
  replace (m * pnum e * 2 ^ a * pden (e1 + e2))
    with (m * pnum e * pden (e1 + e2) * 2 ^ a) by ring.
  rewrite He.
  replace (A * pden e * 2 ^ a) with (A * 2 ^ a * pden e) by ring.
  rewrite HA. ring.
Qed.

(** With a number of states that is a power of two, the quotient and its
    product with 100 are floats: nothing is rounded before [round]. *)
Lemma migration_percent_power_of_two (selected df : list Delta.t) (a : Z) :
  one_state_per_row df ->
  0 <= len selected <= len df ->
  0 <= a <= 46 -> len df = 2 ^ a ->
  migration_percent selected df
  = Ok (exact_percent (len selected) (len df)).
Proof.
  intros Hdf Hk Ha Hn.
  destruct (nunique_one_state_per_row df Hdf) as [Hu Hpos].
  unfold migration_percent. rewrite Hu.
  assert (H46 : 2 ^ a <= 2 ^ 46) by (apply pow2_le; lia).
  assert (H53 : 100 * 2 ^ 46 <= 2 ^ 53) by (apply Z.leb_le; reflexivity).
  destruct (truediv_dyadic (len selected) (len df) (len selected) a
              ltac:(lia) Hpos ltac:(lia) ltac:(lia)
              ltac:(rewrite Hn; reflexivity)) as (m & e & -> & Hv).
  cbn [bind].
  destruct (float_of_int_exact 100 ltac:(rewrite Z.abs_eq; lia))
    as (m2 & e2 & -> & Hv2).
  destruct (fmul_dyadic m e m2 e2 (len selected) 100 a ltac:(lia)
              ltac:(rewrite Z.abs_eq; lia) Hv Hv2) as (m' & e' & -> & Hv').
  unfold round, exact_percent. f_equal.
  change (fnum (Fin m' e')) with (m' * pnum e').
  change (fden (Fin m' e')) with (pden e').
  apply rne_div_cross; [apply pden_pos | exact Hpos|].
  rewrite Hn. exact Hv'.
Qed.

(** An odd multiple of 250000 divided by one million is a float ending in
    [.25] or [.75]: Python's [round(x, 1)] sees the exact number. *)
Lemma format_number_quarter (n : Z) :
  1000000 < n <= 2 ^ 53 -> n mod 500000 = 250000 ->
  format_number n
  = Ok (str_int (rne_div n 100000 / 10) ++ "."
          ++ str_int (rne_div n 100000 mod 10) ++ " M")%string.
Proof.
  intros Hn Hq.
  pose proof (Z.div_mod n 500000 ltac:(lia)) as Hdm. rewrite Hq in Hdm.
  set (k := n / 500000) in *.
  set (q := 16 * (2 * k + 1)).
  assert (Hnq : n = 15625 * q) by (unfold q; lia).
  assert (H53 : 2 ^ 53 = 9007199254740992) by reflexivity.
  assert (Hmod : n mod 1000000 <> 0).
  { intros H0. pose proof (Z.div_mod n 1000000 ltac:(lia)) as H1.
    rewrite H0 in H1. lia. }
  assert (Hz : 0 <= rne_div n 100000 < 10 ^ 17).
  { split; [apply rne_div_nonneg; lia|].
    assert (rne_div n 100000 <= 10 ^ 17 - 1); [|lia].
    apply rne_div_le; [lia|].
    change (10 ^ 17) with 100000000000000000. lia. }
  destruct (truediv_dyadic n 1000000 q 6 ltac:(lia) ltac:(lia)
              ltac:(lia) ltac:(lia)
              ltac:(change (2 ^ 6) with 64; lia))
    as (m & e & Hx & Hv).
  change (2 ^ 6) with 64 in Hv.
  assert (Ht : round1_tenths (Fin m e) = rne_div n 100000).
  { unfold round1_tenths.
    change (fnum (Fin m e)) with (m * pnum e).
    change (fden (Fin m e)) with (pden e).
    apply rne_div_cross; [apply pden_pos | lia | lia]. }
  unfold format_number.
  destruct (1000000 <? n) eqn:E; [|apply Z.ltb_ge in E; lia].
  destruct (n mod 1000000 =? 0) eqn:E'; [apply Z.eqb_eq in E'; lia|].
  rewrite Hx. unfold bind, fstr_round1. rewrite Ht.
  destruct (rne_div n 100000 <? 10 ^ 17) eqn:E'';
    [|apply Z.ltb_ge in E''; lia].
  rewrite append_assoc. reflexivity.
Qed.

(** The even one of the two tenths a number lies halfway between. *)
Lemma rne_div_half_tenth (n : Z) :
  n mod 100000 = 50000 ->
  rne_div n 100000
  = if Z.even (n / 100000) then n / 100000 else n / 100000 + 1.
Proof.
  intros H. pose proof (Z.div_mod n 100000 ltac:(lia)) as Hdm.
  rewrite H in Hdm. apply rne_div_tie; lia.
Qed.

(** C10, as stated, fails: [round] rounds the float it is given, and that
    float is not always the exact ratio.  With 109 states out of 200 above
    the threshold the ratio [100 * 109 / 200] is exactly 54.5, which
    half-to-even sends to 54; the code computes [109 / 200] and then
    [* 100] in floats, gets 54.50000000000001 and returns 55.  In
    [format_number], [1050000 / 1000000] is exactly 1.05, halfway between
    1.0 and 1.1, which half-to-even sends to 1.0; called with a Python
    integer the function rounds the float nearest to 1.05, which lies above
    it, and returns ["1.1 M"]. *)
Lemma round_not_half_to_even_on_ratio :
  2 * (100 * 109) = (2 * 54 + 1) * 200
  /\ exact_percent 109 200 = 54
  /\ one_state_per_row (delta_frame 109 200)
  /\ len (df_greater_50000 (delta_frame 109 200)) = 109
  /\ len (delta_frame 109 200) = 200
  /\ states_migration_greater (delta_frame 109 200) = Ok 55
  /\ 2 * 1050000 = (2 * 10 + 1) * 100000
  /\ rne_div 1050000 100000 = 10
  /\ format_number 1050000 = Ok "1.1 M"%string.
Proof.
  split; [reflexivity|]. split; [vm_compute; reflexivity|].
  split.
  { split; [discriminate|]. split.
    - apply Forall_forall. intros r Hr.
      unfold delta_frame in Hr. apply in_map_iff in Hr.
      destruct Hr as [i [<- _]]. discriminate.
    - apply all_distinct_NoDup. vm_compute. reflexivity. }
  repeat split; vm_compute; reflexivity.
Qed.

(** C10, as the code has it.  Both roundings send a float that lies
    exactly halfway to the even neighbour; what they are given is a float
    that has been rounded already.  (1) When the number of states is a power
    of two, up to [2^46], nothing is rounded before [round]: both migration
    percentages are [100 * k / n] rounded to the nearest integer, a tie
    going to the even one; 1 state out of 8 gives 12 (for 12.5) and 3 out of
    8 give 38 (for 37.5).  (2) [format_number] called with a [numpy.int64],
    as the script does: every [n] above one million, up to [4 * 10^15], that
    lies halfway between two tenths of a million is printed as the even one
    of the two; 1250000 gives ["1.2 M"], 1750000 gives ["1.8 M"], 1050000
    gives ["1.0 M"].  (3) [format_number] called with a Python integer: the
    same holds when [n] is an odd multiple of 250000 up to [2^53], where
    [n / 1000000] is a float; 1250000 gives ["1.2 M"], not ["1.3 M"], and
    1750000 gives ["1.8 M"].  On another halfway point Python rounds the
    float nearest to [n / 1000000]: 1050000 gives ["1.1 M"]. *)
Theorem round_half_to_even :
  (forall (df : list Delta.t) (a : Z),
      one_state_per_row df -> 0 <= a <= 46 -> len df = 2 ^ a ->
      states_migration_greater df
      = Ok (exact_percent (len (df_greater_50000 df)) (len df))
      /\ states_migration_less df
         = Ok (exact_percent (len (df_less_50000 df)) (len df)))
  /\ (forall n t : Z,
      1000000 < n <= 4000000000000000 -> n mod 100000 = 50000 ->
      t = (if Z.even (n / 100000) then n / 100000 else n / 100000 + 1) ->
      format_number_int64 n
      = (str_int (t / 10) ++ "." ++ str_int (t mod 10) ++ " M")%string)
  /\ (forall n t : Z,
      1000000 < n <= 2 ^ 53 -> n mod 500000 = 250000 ->
      t = (if Z.even (n / 100000) then n / 100000 else n / 100000 + 1) ->
      format_number n
      = Ok (str_int (t / 10) ++ "." ++ str_int (t mod 10) ++ " M")%string)
  /\ states_migration_greater (delta_frame 1 8) = Ok 12
  /\ states_migration_less (delta_frame_loss 1 8) = Ok 12
  /\ states_migration_greater (delta_frame 3 8) = Ok 38
  /\ format_number_int64 1250000 = "1.2 M"%string
  /\ format_number_int64 1750000 = "1.8 M"%string
  /\ format_number_int64 1050000 = "1.0 M"%string
  /\ format_number 1250000 = Ok "1.2 M"%string
  /\ format_number 1250000 <> Ok "1.3 M"%string
  /\ format_number 1750000 = Ok "1.8 M"%string
  /\ format_number 1050000 = Ok "1.1 M"%string.
Proof.
  split; [|split; [|split]].
  - intros df a Hdf Ha Hn. split.
    + apply (migration_percent_power_of_two _ df a Hdf (len_filter_le _ df)
               Ha Hn).
    + apply (migration_percent_power_of_two _ df a Hdf (len_filter_le _ df)
               Ha Hn).
  - intros n t Hn Htie ->. rewrite <- (rne_div_half_tenth n Htie).
    apply format_number_tie_int64; [|exact Htie].
    change (2 ^ 32) with 4294967296. lia.
  - intros n t Hn Hq ->.
    assert (Htie : n mod 100000 = 50000).
    { pose proof (Z.div_mod n 500000 ltac:(lia)) as Hdm. rewrite Hq in Hdm.
      symmetry.
      apply (Z.mod_unique_pos n 100000 (5 * (n / 500000) + 2) 50000); lia. }
    rewrite <- (rne_div_half_tenth n Htie).
    apply format_number_quarter; assumption.
  - repeat split; try (vm_compute; reflexivity); vm_compute; discriminate.
Qed.

Lemma round_half_to_even_witness :
  (states_migration_greater (delta_frame 1 8)
   = Ok (exact_percent (len (df_greater_50000 (delta_frame 1 8)))
                       (len (delta_frame 1 8)))
   /\ states_migration_less (delta_frame 1 8)
      = Ok (exact_percent (len (df_less_50000 (delta_frame 1 8)))
                          (len (delta_frame 1 8))))
  /\ format_number_int64 1050000
     = (str_int (10 / 10) ++ "." ++ str_int (10 mod 10) ++ " M")%string
  /\ format_number 1250000
     = Ok (str_int (12 / 10) ++ "." ++ str_int (12 mod 10) ++ " M")%string.
Proof.
  split; [|split].
  - apply (proj1 round_half_to_even (delta_frame 1 8) 3).
    + split; [discriminate|]. split.
      * repeat constructor; discriminate.
      * apply all_distinct_NoDup. reflexivity.
    + lia.
    + reflexivity.
  - apply (proj1 (proj2 round_half_to_even) 1050000 10).
    + lia.
    + reflexivity.
    + reflexivity.
  - apply (proj1 (proj2 (proj2 round_half_to_even)) 1250000 12).
    + split; [lia | apply Z.leb_le; reflexivity].
    + reflexivity.
    + reflexivity.
Defined.

(** * Further properties of the script *)

(** ** The year selector: [year_list] *)

Lemma existsb_eqb_In (x : Z) (seen : list Z) :
  existsb (Z.eqb x) seen = true <-> In x seen.
Proof.
  rewrite existsb_exists. split.
  - intros [y [Hy E]]. apply Z.eqb_eq in E. subst. exact Hy.
  - intros H. exists x. split; [exact H | apply Z.eqb_refl].
Qed.

Lemma unique_from_In (l seen : list Z) (x : Z) :
  In x (unique_from seen l) <-> In x l /\ ~ In x seen.
Proof.
  revert seen. induction l as [|a l IH]; intros seen; simpl.
  - tauto.
  - destruct (existsb (Z.eqb a) seen) eqn:E.
    + apply existsb_eqb_In in E. rewrite IH. split.
      * tauto.
      * intros [[->|H] Hn]; tauto.
    + assert (Ha : ~ In a seen).
      { intros H. apply existsb_eqb_In in H. congruence. }
      simpl. rewrite IH. simpl. split.
      * intros [->|[H Hn]]; [tauto|]. split; [tauto|]. tauto.
      * intros [[->|H] Hn]; [tauto|].
        destruct (Z.eq_dec a x) as [->|Hne]; [tauto|]. right. tauto.
Qed.

Lemma unique_from_NoDup (l seen : list Z) : NoDup (unique_from seen l).
Proof.
  revert seen. induction l as [|a l IH]; intros seen; simpl.
  - constructor.
  - destruct (existsb (Z.eqb a) seen); [apply IH|].
    constructor; [|apply IH].
    rewrite unique_from_In. simpl. tauto.
Qed.

Lemma df_selected_year_nonempty (df : list Row) (y : Z) :
  In y (map year df) <-> df_selected_year df y <> [].
Proof.
  split.
  - intros H E. apply in_map_iff in H. destruct H as [r [Hy Hr]].
    assert (Hin : In r (df_selected_year df y)).
    { apply filter_In. split; [exact Hr | apply Z.eqb_eq, Hy]. }
    rewrite E in Hin. exact Hin.
  - intros H. destruct (df_selected_year df y) as [|r l] eqn:E; [congruence|].
    assert (Hin : In r (df_selected_year df y)) by (rewrite E; left; reflexivity).
    apply filter_In in Hin. destruct Hin as [Hr Hy].
    apply Z.eqb_eq in Hy. apply in_map_iff. exists r. tauto.
Qed.

Lemma year_list_In (df : list Row) (y : Z) :
  In y (year_list df) <-> In y (map year df).
Proof.
  unfold year_list, unique. rewrite <- in_rev, unique_from_In.
  simpl. tauto.
Qed.

(** The selector offers every year of the table once, and nothing else: a
    year is in [year_list] exactly when the table has a row for it, which is
    exactly when the slice [df_selected_year] of that year has rows. *)
Theorem year_list_years :
  forall df_reshaped : list Row,
    NoDup (year_list df_reshaped)
    /\ (forall y : Z,
          In y (year_list df_reshaped) <-> In y (map year df_reshaped))
    /\ (forall y : Z,
          In y (year_list df_reshaped)
          <-> df_selected_year df_reshaped y <> []).
Proof.
  intros df. split; [|split].
  - unfold year_list, unique. apply NoDup_rev, unique_from_NoDup.
  - apply year_list_In.
  - intros y. rewrite year_list_In. apply df_selected_year_nonempty.
Qed.

Lemma StronglySorted_impl {A : Type} (R R' : A -> A -> Prop) (l : list A) :
  (forall a b, R a b -> R' a b) ->
  StronglySorted R l -> StronglySorted R' l.
Proof.
  intros H. induction 1 as [|a l Hs IH Ha]; constructor; [exact IH|].
  eapply Forall_impl; [|exact Ha]. intros b. apply H.
Qed.

Lemma StronglySorted_snoc {A : Type} (R : A -> A -> Prop) (l : list A) (x : A) :
  StronglySorted R l -> Forall (fun y => R y x) l ->
  StronglySorted R (l ++ [x]).
Proof.
  induction 1 as [|a l Hs IH Ha]; intros Hx; simpl.
  - repeat constructor.
  - inversion Hx; subst. constructor; [apply IH; assumption|].
    apply Forall_app. split; [exact Ha | repeat constructor; assumption].
Qed.

Lemma StronglySorted_rev {A : Type} (R : A -> A -> Prop) (l : list A) :
  StronglySorted R l -> StronglySorted (fun a b => R b a) (rev l).
Proof.
  induction 1 as [|a l Hs IH Ha]; simpl.
  - constructor.
  - apply StronglySorted_snoc; [exact IH|].
    apply Forall_rev. exact Ha.
Qed.

Lemma unique_from_increasing (l seen : list Z) :
  StronglySorted Z.le l -> StronglySorted Z.lt (unique_from seen l).
Proof.
  revert seen. induction l as [|a l IH]; intros seen Hs; simpl.
  - constructor.
  - inversion Hs as [|? ? Hs' Ha]; subst.
    destruct (existsb (Z.eqb a) seen); [apply IH; exact Hs'|].
    constructor; [apply IH; exact Hs'|].
    apply Forall_forall. intros x Hx. apply unique_from_In in Hx.
    destruct Hx as [Hx Hn]. rewrite Forall_forall in Ha.
    specialize (Ha x Hx). simpl in Hn. lia.
Qed.

(** When the rows of the table come in order of year, the selector lists
    the years from the latest to the earliest, each strictly before the
    earlier ones: its first entry is the latest year of the table. *)
Theorem year_list_latest_first :
  forall df_reshaped : list Row,
    Sorted Z.le (map year df_reshaped) ->
    StronglySorted Z.gt (year_list df_reshaped)
    /\ (forall top rest, year_list df_reshaped = top :: rest ->
        Forall (fun r => year r <= top) df_reshaped).
Proof.
  intros df Hs.
  assert (Hss : StronglySorted Z.le (map year df)).
  { apply Sorted_StronglySorted; [|exact Hs].
    intros a b c. apply Z.le_trans. }
  assert (Hd : StronglySorted Z.gt (year_list df)).
  { unfold year_list, unique.
    apply (StronglySorted_impl (fun a b => b < a)); [intros; lia|].
    apply (StronglySorted_rev Z.lt), unique_from_increasing, Hss. }
  split; [exact Hd|].
  intros top rest E. apply Forall_forall. intros r Hr.
  assert (Hy : In (year r) (year_list df)).
  { apply year_list_In. apply in_map, Hr. }
  rewrite E in Hy, Hd. inversion Hd as [|? ? _ Hf]; subst.
  destruct Hy as [<-|Hy]; [lia|].
  rewrite Forall_forall in Hf. specialize (Hf _ Hy). lia.
Qed.

Lemma year_list_latest_first_witness :
  StronglySorted Z.gt (year_list table_two_states)
  /\ (forall top rest, year_list table_two_states = top :: rest ->
      Forall (fun r => year r <= top) table_two_states).
Proof.
  apply (year_list_latest_first table_two_states).
  simpl. repeat constructor; lia.
Defined.

(** ** The largest population of the slice: [max] *)

Lemma fold_max_spec (l : list Z) (x : Z) :
  In (fold_left (fun m v => if m <? v then v else m) l x) (x :: l)
  /\ Forall (fun v => v <= fold_left (fun m v => if m <? v then v else m) l x)
            (x :: l).
Proof.
  revert x. induction l as [|a l IH]; intros x.
  - simpl. split; [tauto | repeat constructor; lia].
  - cbn [fold_left].
    destruct (IH (if x <? a then a else x)) as [Hin Hall].
    inversion Hall as [|? ? Hhd Htl]; subst.
    split.
    + destruct Hin as [E|Hin]; [|right; right; exact Hin].
      rewrite <- E. destruct (x <? a); [right; left | left]; reflexivity.
    + destruct (x <? a) eqn:E;
        [apply Z.ltb_lt in E | apply Z.ltb_ge in E];
        constructor; try (constructor; [|exact Htl]); lia.
Qed.

Lemma py_max_spec (l : list Z) :
  l <> [] ->
  exists M : Z, py_max l = Returns M /\ In M l /\ Forall (fun v => v <= M) l.
Proof.
  destruct l as [|x l]; [congruence|]. intros _.
  eexists. split; [reflexivity|]. apply fold_max_spec.
Qed.

Lemma max_unique (l l' : list Z) (M M' : Z) :
  Permutation l l' ->
  In M l -> Forall (fun v => v <= M) l ->
  In M' l' -> Forall (fun v => v <= M') l' ->
  M = M'.
Proof.
  intros Hp Hin Hall Hin' Hall'.
  rewrite Forall_forall in Hall, Hall'.
  assert (M <= M') by (apply Hall', (Permutation_in _ Hp), Hin).
  assert (M' <= M) by (apply Hall, (Permutation_in _ (Permutation_sym Hp)), Hin').
  lia.
Qed.

(** For every year the selector offers, [max(df_selected_year.population)]
    (the upper end of the map's colour range) and
    [max(df_selected_year_sorted.population)] (the full bar of the table)
    return the same number, without [ValueError]: it is the population of
    the first row of the ranking, and no row of the year exceeds it. *)
Theorem population_max_of_selected_year :
  forall (K : SortKernel) (df_reshaped : list Row) (selected_year : Z),
    In selected_year (year_list df_reshaped) ->
    exists (M : Z) (r : Row) (rest : list Row),
      py_max (map population (df_selected_year df_reshaped selected_year))
      = Returns M
      /\ py_max (map population
                   (df_selected_year_sorted df_reshaped selected_year))
         = Returns M
      /\ df_selected_year_sorted df_reshaped selected_year = r :: rest
      /\ population r = M
      /\ Forall (fun r' => population r' <= M)
                (df_selected_year df_reshaped selected_year).
Proof.
  intros K df y Hy.
  apply year_list_In, df_selected_year_nonempty in Hy.
  pose proof (sort_values_perm Row population (df_selected_year df y)) as Hp.
  pose proof (sort_values_sorted Row population (df_selected_year df y)) as Hs.
  fold (df_selected_year_sorted df y) in Hp, Hs.
  destruct (df_selected_year_sorted df y) as [|r rest] eqn:E.
  { apply Permutation_sym, Permutation_nil in Hp. congruence. }
  destruct (py_max_spec (map population (df_selected_year df y)))
    as (M & HM & Hin & Hall).
  { intros E'. apply map_eq_nil in E'. congruence. }
  destruct (py_max_spec (map population (r :: rest)))
    as (M' & HM' & Hin' & Hall'); [discriminate|].
  assert (Hr : In (population r) (map population (r :: rest))
               /\ Forall (fun v => v <= population r)
                         (map population (r :: rest))).
  { split; [left; reflexivity|].
    inversion Hs as [|? ? _ Hf]; subst.
    simpl. constructor; [lia|].
    apply Forall_map. eapply Forall_impl; [|exact Hf]. simpl. intros; lia. }
  destruct Hr as [Hrin Hrall].
  assert (E1 : M' = population r)
    by (apply (max_unique _ _ _ _ (Permutation_refl _) Hin' Hall' Hrin Hrall)).
  assert (E2 : M = population r).
  { apply (max_unique _ _ _ _ (Permutation_map population Hp)
             Hin Hall Hrin Hrall). }
  exists M, r, rest. subst M'. rewrite HM, HM', E2.
  repeat split; try reflexivity.
  rewrite <- E2. rewrite Forall_forall in Hall. apply Forall_forall.
  intros r' Hr'. apply Hall, in_map, Hr'.
Qed.

Lemma population_max_of_selected_year_witness :
  exists (M : Z) (r : Row) (rest : list Row),
    py_max (map population (df_selected_year table_two_states 2011))
    = Returns M
    /\ py_max (map population
                 (@df_selected_year_sorted kernel_stable table_two_states 2011))
       = Returns M
    /\ @df_selected_year_sorted kernel_stable table_two_states 2011 = r :: rest
    /\ population r = M
    /\ Forall (fun r' => population r' <= M)
              (df_selected_year table_two_states 2011).
Proof.
  apply (population_max_of_selected_year kernel_stable table_two_states 2011).
  vm_compute. tauto.
Defined.

(** ** More on [calculate_population_difference] *)

Lemma population_difference_frame_rows {K : SortKernel} (df : list Row) (y : Z) :
  df_selected_year df y <> [] ->
  population_difference_frame df y
  = map delta_row
      (combine (df_selected_year df y)
               (sub_fill0 (column_dtype (map population df))
                          (map population (df_selected_year df y))
                          (map population (df_selected_year df (y - 1))))).
Proof.
  intros H. unfold population_difference_frame, set_population_difference.
  destruct (df_selected_year df y); [congruence | reflexivity].
Qed.

Lemma combine_fst {A B : Type} (l : list A) (l' : list B) :
  (List.length l <= List.length l')%nat -> map fst (combine l l') = l.
Proof.
  revert l'. induction l as [|a l IH]; intros l' H; simpl.
  - reflexivity.
  - destruct l' as [|b l']; simpl in *; [lia|].
    rewrite IH by lia. reflexivity.
Qed.

Lemma combine_map_r {A B : Type} (g : A -> B) (l : list A) :
  combine l (map g l) = map (fun a => (a, g a)) l.
Proof.
  induction l as [|a l IH]; simpl; [reflexivity | rewrite IH; reflexivity].
Qed.

Lemma frame_slice_columns {K : SortKernel} (df : list Row) (y : Z) :
  df_selected_year df y <> [] ->
  map (fun d => (Delta.states d, Delta.id d, Delta.population d))
      (population_difference_frame df y)
  = map (fun r => (Some (states r), Some (id r), Some (population r)))
        (df_selected_year df y).
Proof.
  intros H. rewrite population_difference_frame_rows by exact H.
  rewrite map_map. simpl.
  rewrite <- (map_map fst
    (fun r => (Some (states r), Some (id r), Some (population r)))).
  rewrite combine_fst; [reflexivity|].
  rewrite length_sub_fill0, !length_map. lia.
Qed.

(** For a year the table has rows for, the result has exactly the rows of
    the Year Slice: the [states], [id] and [population] cells of the result
    are those of the slice, row for row up to the order, none missing, and
    there are as many rows; this whether the slice of the year before is
    shorter, longer or empty. *)
Theorem calculate_population_difference_keeps_rows :
  forall (K : SortKernel) (input_df : list Row) (input_year : Z),
    In input_year (map year input_df) ->
    Permutation
      (map (fun r => (Some (states r), Some (id r), Some (population r)))
           (df_selected_year input_df input_year))
      (map (fun d => (Delta.states d, Delta.id d, Delta.population d))
           (calculate_population_difference input_df input_year))
    /\ len (calculate_population_difference input_df input_year)
       = len (df_selected_year input_df input_year).
Proof.
  intros K df y Hy. apply df_selected_year_nonempty in Hy.
  assert (Hp : Permutation
      (map (fun r => (Some (states r), Some (id r), Some (population r)))
           (df_selected_year df y))
      (map (fun d => (Delta.states d, Delta.id d, Delta.population d))
           (calculate_population_difference df y))).
  { rewrite <- (frame_slice_columns df y Hy).
    apply Permutation_map. unfold calculate_population_difference.
    apply sort_values_perm. }
  split; [exact Hp|].
  apply Permutation_length in Hp. rewrite !length_map in Hp.
  unfold len. congruence.
Qed.

Lemma calculate_population_difference_keeps_rows_witness :
  Permutation
    (map (fun r => (Some (states r), Some (id r), Some (population r)))
         (df_selected_year table_new_state 2011))
    (map (fun d => (Delta.states d, Delta.id d, Delta.population d))
         (@calculate_population_difference kernel_stable table_new_state 2011))
  /\ len (@calculate_population_difference kernel_stable table_new_state 2011)
     = len (df_selected_year table_new_state 2011).
Proof.
  apply (calculate_population_difference_keeps_rows
           kernel_stable table_new_state 2011).
  simpl. tauto.
Defined.

(** Without a previous year the two series differ in length as soon as the
    year has a row, and the subtraction is the one of aligned series. *)
Lemma first_year_frame_aligned {K : SortKernel} (df : list Row) (y : Z) :
  ~ In (y - 1) (map year df) ->
  population_difference_frame df y
  = map (fun r => Delta.mk (Some (states r)) (Some (id r))
                           (Some (population r))
                           (sub_aligned (column_dtype (map population df))
                                        (population r) 0))
        (df_selected_year df y).
Proof.
  intros Hp. unfold population_difference_frame.
  rewrite (df_selected_year_absent df (y - 1) Hp).
  destruct (df_selected_year df y) as [|r l] eqn:E; [reflexivity|].
  unfold sub_fill0. simpl List.length. cbv iota beta.
  change ((S (List.length (map population l)) =? 0)%nat) with false.
  cbv iota. change (map population []) with (@nil Z).
  rewrite zip_fill0_nil_r.
  unfold set_population_difference. rewrite map_map.
  rewrite (combine_map_r
             (fun x => sub_aligned (column_dtype (map population df))
                                   (population x) 0)).
  rewrite map_map. reflexivity.
Qed.

Lemma first_year_frame {K : SortKernel} (df : list Row) (y : Z) :
  populations_upto (2 ^ 53) df ->
  ~ In (y - 1) (map year df) ->
  population_difference_frame df y
  = map (fun r => Delta.mk (Some (states r)) (Some (id r))
                           (Some (population r)) (population r))
        (df_selected_year df y).
Proof.
  intros Hb Hp. rewrite (first_year_frame_aligned df y Hp).
  apply map_ext_in. intros r Hr. f_equal.
  assert (H : 0 <= population r <= 2 ^ 53).
  { unfold populations_upto in Hb. rewrite Forall_forall in Hb.
    apply Hb. unfold df_selected_year in Hr. apply filter_In in Hr.
    apply Hr. }
  rewrite sub_aligned_exact.
  - lia.
  - rewrite Z.abs_eq; lia.
  - apply Z.leb_le. reflexivity.
  - rewrite Z.sub_0_r, Z.abs_eq; lia.
Qed.

(** For a year whose previous year has no row in the table (the first year
    of the data), on a table whose populations lie between 0 and [2^53]
    (the two series differ in length, so pandas subtracts them as float64,
    which is exact up to there), every row of the result has its population
    as [population_difference]: the result is the Year Slice, each row with
    [population_difference = population], in descending order. *)
Theorem calculate_population_difference_first_year :
  forall (K : SortKernel) (input_df : list Row) (input_year : Z),
    populations_upto (2 ^ 53) input_df ->
    ~ In (input_year - 1) (map year input_df) ->
    Permutation
      (map (fun r => Delta.mk (Some (states r)) (Some (id r))
                              (Some (population r)) (population r))
           (df_selected_year input_df input_year))
      (calculate_population_difference input_df input_year)
    /\ Forall (fun d => Delta.population d
                        = Some (Delta.population_difference d))
              (calculate_population_difference input_df input_year).
Proof.
  intros K df y Hb Hp.
  assert (P : Permutation
      (map (fun r => Delta.mk (Some (states r)) (Some (id r))
                              (Some (population r)) (population r))
           (df_selected_year df y))
      (calculate_population_difference df y)).
  { unfold calculate_population_difference.
    rewrite <- (first_year_frame df y Hb Hp). apply sort_values_perm. }
  split; [exact P|].
  apply (Permutation_Forall P). apply Forall_map, Forall_forall.
  intros r _. reflexivity.
Qed.

Lemma calculate_population_difference_first_year_witness :
  Permutation
    (map (fun r => Delta.mk (Some (states r)) (Some (id r))
                            (Some (population r)) (population r))
         (df_selected_year table_two_states 2010))
    (@calculate_population_difference kernel_stable table_two_states 2010)
  /\ Forall (fun d => Delta.population d
                      = Some (Delta.population_difference d))
            (@calculate_population_difference kernel_stable table_two_states 2010).
Proof.
  apply (calculate_population_difference_first_year
           kernel_stable table_two_states 2010).
  - repeat constructor; simpl; try lia; apply Z.leb_le; reflexivity.
  - simpl. intros [H|[H|[H|[H|[]]]]]; discriminate H.
Defined.

Lemma find_by_state (a : list Row) (r : Row) :
  NoDup (map states a) -> In r a ->
  find (fun r' => String.eqb (states r') (states r)) a = Some r.
Proof.
  induction a as [|x a IH]; intros Hnd Hin; [destruct Hin|].
  simpl in Hnd. inversion Hnd as [|? ? Hx Hnd']; subst.
  simpl. destruct Hin as [->|Hin].
  - rewrite String.eqb_refl. reflexivity.
  - destruct (String.eqb (states x) (states r)) eqn:E.
    + apply String.eqb_eq in E. exfalso. apply Hx. rewrite E.
      apply in_map, Hin.
    + apply IH; assumption.
Qed.

Lemma combine_sub_in (a b : list Row) (r : Row) (d : Z) :
  map states a = map states b ->
  In (r, d) (combine a (zip_fill0 Z.sub (map population a)
                                  (map population b))) ->
  In r a /\ exists r' : Row,
    In r' b /\ states r' = states r /\ d = population r - population r'.
Proof.
  revert b. induction a as [|x a IH]; intros b Hst Hin; [destruct Hin|].
  destruct b as [|x' b]; [discriminate|].
  simpl in Hst. injection Hst as Hx Hst.
  simpl in Hin. destruct Hin as [E|Hin].
  - injection E as -> <-. split; [left; reflexivity|].
    exists x'. split; [left; reflexivity|]. split; [congruence | reflexivity].
  - destruct (IH b Hst Hin) as [Hr (r' & Hr' & Hs & Hd)].
    split; [right; exact Hr|]. exists r'. split; [right; exact Hr'|]. tauto.
Qed.

(** When the slices of the year and of the year before list the same
    states in the same order, no state twice, on a table whose populations
    lie between 0 and [2^63 - 1] (an [int64] column, whose differences do
    not wrap), the positional subtraction is the subtraction by state:
    every row of the result carries a state [s] and the population of [s]
    in the year minus its population the year before. *)
Theorem calculate_population_difference_by_state :
  forall (K : SortKernel) (input_df : list Row) (input_year : Z),
    populations_upto (2 ^ 63 - 1) input_df ->
    map states (df_selected_year input_df input_year)
    = map states (df_selected_year input_df (input_year - 1)) ->
    NoDup (map states (df_selected_year input_df input_year)) ->
    forall d : Delta.t,
      In d (calculate_population_difference input_df input_year) ->
      exists s : string,
        Delta.states d = Some s
        /\ In s (map states (df_selected_year input_df input_year))
        /\ Delta.population_difference d
           = population_of input_df input_year s
             - population_of input_df (input_year - 1) s.
Proof.
  intros K df y Hb Hst Hnd d Hd.
  unfold calculate_population_difference in Hd.
  apply (Permutation_in _ (Permutation_sym (sort_values_perm _ _ _))) in Hd.
  rewrite (population_difference_frame_exact_same_length df y Hb) in Hd.
  2:{ rewrite <- (length_map states (df_selected_year df y)), Hst.
      apply length_map. }
  destruct (df_selected_year df y) as [|r0 l0] eqn:E.
  { symmetry in Hst. apply map_eq_nil in Hst. rewrite Hst in Hd.
    destruct Hd. }
  unfold set_population_difference in Hd. apply in_map_iff in Hd.
  destruct Hd as [[r dd] [<- Hin]].
  destruct (combine_sub_in _ _ r dd Hst Hin) as [Hr (r' & Hr' & Hs & Hdd)].
  exists (states r). split; [reflexivity|].
  split; [apply in_map, Hr|].
  unfold population_of. rewrite E.
  rewrite (find_by_state _ r Hnd Hr).
  rewrite <- Hs. rewrite (find_by_state _ r'); [|congruence|exact Hr'].
  exact Hdd.
Qed.

Lemma calculate_population_difference_by_state_witness :
  exists s : string,
    Delta.states (Delta.mk (Some "B"%string) (Some 2) (Some 250) (- 50))
    = Some s
    /\ In s (map states (df_selected_year table_two_states 2011))
    /\ Delta.population_difference
         (Delta.mk (Some "B"%string) (Some 2) (Some 250) (- 50))
       = population_of table_two_states 2011 s
         - population_of table_two_states (2011 - 1) s.
Proof.
  apply (calculate_population_difference_by_state
           kernel_stable table_two_states 2011).
  - repeat constructor; simpl; try lia; apply Z.leb_le; reflexivity.
  - reflexivity.
  - simpl. repeat constructor; simpl; intuition discriminate.
  - vm_compute. tauto.
Defined.

(** ** The "Gains/Losses" metrics: first and last row *)

Lemma iloc_first {A : Type} (x : A) (l : list A) : iloc (x :: l) 0 = Returns x.
Proof.
  unfold iloc, len. cbn [Z.ltb Z.compare].
  destruct (Z.of_nat (List.length (x :: l)) <=? 0) eqn:E.
  - apply Z.leb_le in E. simpl List.length in E. lia.
  - reflexivity.
Qed.

Lemma iloc_last {A : Type} (l : list A) (x : A) :
  iloc (l ++ [x]) (- 1) = Returns x.
Proof.
  unfold iloc, len. cbn [Z.ltb Z.compare].
  rewrite length_app. simpl List.length.
  replace (Z.of_nat (List.length l + 1) + - 1) with (Z.of_nat (List.length l))
    by lia.
  destruct (Z.of_nat (List.length l) <? 0) eqn:E1;
    [apply Z.ltb_lt in E1; lia|].
  destruct (Z.of_nat (List.length l + 1) <=? Z.of_nat (List.length l)) eqn:E2;
    [apply Z.leb_le in E2; lia|].
  simpl orb. cbv iota. rewrite Nat2Z.id.
  rewrite nth_error_app2 by lia. rewrite Nat.sub_diag. reflexivity.
Qed.

Lemma iloc_empty {A : Type} (i : Z) : iloc (@nil A) i = Raises IndexError.
Proof.
  unfold iloc, len. simpl List.length. change (Z.of_nat 0) with 0.
  destruct (i <? 0) eqn:E.
  - apply Z.ltb_lt in E.
    destruct (0 + i <? 0) eqn:E'; [reflexivity | apply Z.ltb_ge in E'; lia].
  - apply Z.ltb_ge in E.
    destruct (i <? 0) eqn:E1; [apply Z.ltb_lt in E1; lia|].
    destruct (0 <=? i) eqn:E2; [reflexivity | apply Z.leb_gt in E2; lia].
Qed.

Lemma StronglySorted_last {A : Type} (R : A -> A -> Prop) (l : list A) (x : A) :
  StronglySorted R (l ++ [x]) -> Forall (fun y => R y x) l.
Proof.
  induction l as [|a l IH]; intros H; simpl in *.
  - constructor.
  - inversion H as [|? ? Hs Hf]; subst.
    apply Forall_app in Hf. destruct Hf as [_ Hx].
    inversion Hx; subst. constructor; [assumption | apply IH, Hs].
Qed.

Lemma frame_states {K : SortKernel} (df : list Row) (y : Z) :
  df_selected_year df y <> [] ->
  map Delta.states (population_difference_frame df y)
  = map Some (map states (df_selected_year df y)).
Proof.
  intros H. rewrite population_difference_frame_rows by exact H.
  rewrite !map_map. simpl.
  rewrite <- (map_map fst (fun r => Some (states r))).
  rewrite combine_fst; [reflexivity|].
  rewrite length_sub_fill0, !length_map. lia.
Qed.

Lemma calculate_states_perm {K : SortKernel} (df : list Row) (y : Z) :
  df_selected_year df y <> [] ->
  Permutation (map Some (map states (df_selected_year df y)))
              (map Delta.states (calculate_population_difference df y)).
Proof.
  intros H. rewrite <- (frame_states df y H).
  apply Permutation_map. unfold calculate_population_difference.
  apply sort_values_perm.
Qed.

Lemma calculate_population_difference_rows_of_slice
    (K : SortKernel) (df : list Row) (y : Z) :
  In y (map year df) ->
  calculate_population_difference df y <> []
  /\ Forall (fun d => exists s : string,
                Delta.states d = Some s
                /\ In s (map states (df_selected_year df y)))
            (calculate_population_difference df y).
Proof.
  intros Hy. apply df_selected_year_nonempty in Hy.
  pose proof (calculate_states_perm df y Hy) as Hp.
  split.
  - intros E. rewrite E in Hp. apply Permutation_sym, Permutation_nil in Hp.
    apply map_eq_nil, map_eq_nil in Hp. congruence.
  - apply Forall_forall. intros d Hd.
    apply (in_map Delta.states) in Hd.
    apply (Permutation_in _ (Permutation_sym Hp)) in Hd.
    apply in_map_iff in Hd. destruct Hd as [s [Hs Hin]].
    exists s. split; [symmetry; exact Hs | exact Hin].
Qed.

(** For a year the table has rows for, [iloc[0]] and [iloc[-1]] on the
    result raise no [IndexError]: the first row carries the largest
    [population_difference] of the year and the last row the smallest, and
    both carry the name of a state of the Year Slice. *)
Theorem gains_losses_rows :
  forall (K : SortKernel) (df_reshaped : list Row) (selected_year : Z),
    In selected_year (map year df_reshaped) ->
    let df := calculate_population_difference df_reshaped selected_year in
    let slice := df_selected_year df_reshaped selected_year in
    exists (first_state_name last_state_name : string) (first last : Z),
      iloc (map Delta.states df) 0 = Returns (Some first_state_name)
      /\ iloc (map Delta.states df) (- 1) = Returns (Some last_state_name)
      /\ In first_state_name (map states slice)
      /\ In last_state_name (map states slice)
      /\ iloc (map Delta.population_difference df) 0 = Returns first
      /\ iloc (map Delta.population_difference df) (- 1) = Returns last
      /\ Forall (fun d => last <= Delta.population_difference d <= first) df.
Proof.
  intros K df0 y Hy df slice.
  destruct (calculate_population_difference_rows_of_slice K df0 y Hy)
    as [Hne Hnames].
  fold df in Hne, Hnames.
  pose proof (sort_values_sorted _ Delta.population_difference
                (population_difference_frame df0 y)) as Hs.
  fold (calculate_population_difference df0 y) in Hs. fold df in Hs.
  destruct df as [|d0 rest] eqn:E; [congruence|].
  destruct (exists_last Hne) as (front & dl & El).
  assert (Hd0 : In d0 (d0 :: rest)) by (left; reflexivity).
  assert (Hdl : In dl (d0 :: rest)).
  { rewrite El. apply in_or_app. right. left. reflexivity. }
  rewrite Forall_forall in Hnames.
  destruct (Hnames _ Hd0) as (s0 & Hs0 & Hin0).
  destruct (Hnames _ Hdl) as (sl & Hsl & Hinl).
  exists s0, sl, (Delta.population_difference d0),
         (Delta.population_difference dl).
  split; [simpl map; rewrite iloc_first, Hs0; reflexivity|].
  split; [rewrite El, map_app; simpl map; rewrite iloc_last, Hsl; reflexivity|].
  split; [exact Hin0|]. split; [exact Hinl|].
  split; [simpl map; apply iloc_first|].
  split; [rewrite El, map_app; simpl map; apply iloc_last|].
  assert (Hhi : Forall (fun d => Delta.population_difference d
                                 <= Delta.population_difference d0)
                       (d0 :: rest)).
  { inversion Hs as [|? ? _ Hf]; subst. constructor; [lia|].
    eapply Forall_impl; [|exact Hf]. simpl. intros; lia. }
  assert (Hlo : Forall (fun d => Delta.population_difference dl
                                 <= Delta.population_difference d)
                       (d0 :: rest)).
  { rewrite El in Hs |- *. apply Forall_app. split.
    - apply StronglySorted_last in Hs.
      eapply Forall_impl; [|exact Hs]. simpl. intros; lia.
    - repeat constructor. lia. }
  rewrite Forall_forall in Hhi, Hlo. apply Forall_forall.
  intros d Hd. split; [apply Hlo | apply Hhi]; exact Hd.
Qed.

Lemma gains_losses_rows_witness :
  exists (first_state_name last_state_name : string) (first last : Z),
    iloc (map Delta.states
            (@calculate_population_difference kernel_stable table_two_states 2011))
         0
    = Returns (Some first_state_name)
    /\ iloc (map Delta.states
               (@calculate_population_difference kernel_stable table_two_states 2011))
            (- 1)
       = Returns (Some last_state_name)
    /\ In first_state_name (map states (df_selected_year table_two_states 2011))
    /\ In last_state_name (map states (df_selected_year table_two_states 2011))
    /\ iloc (map Delta.population_difference
               (@calculate_population_difference kernel_stable table_two_states 2011))
            0
       = Returns first
    /\ iloc (map Delta.population_difference
               (@calculate_population_difference kernel_stable table_two_states 2011))
            (- 1)
       = Returns last
    /\ Forall (fun d => last <= Delta.population_difference d <= first)
              (@calculate_population_difference kernel_stable table_two_states 2011).
Proof.
  apply (gains_losses_rows kernel_stable table_two_states 2011).
  simpl. tauto.
Defined.

(** On a frame without rows, as for a year that neither occurs in the table
    nor follows a year that does, [iloc[0]] and [iloc[-1]] raise
    [IndexError]. *)
Theorem gains_losses_rows_unknown_year :
  forall (K : SortKernel) (df_reshaped : list Row) (selected_year : Z),
    ~ In selected_year (map year df_reshaped) ->
    ~ In (selected_year - 1) (map year df_reshaped) ->
    let df := calculate_population_difference df_reshaped selected_year in
    iloc (map Delta.states df) 0 = Raises IndexError
    /\ iloc (map Delta.states df) (- 1) = Raises IndexError
    /\ iloc (map Delta.population_difference df) 0 = Raises IndexError
    /\ iloc (map Delta.population_difference df) (- 1) = Raises IndexError.
Proof.
  intros K df0 y Hy Hp df.
  assert (E : df = []).
  { unfold df, calculate_population_difference, population_difference_frame.
    rewrite (df_selected_year_absent df0 y Hy).
    rewrite (df_selected_year_absent df0 (y - 1) Hp).
    apply sort_values_nil. }
  rewrite E. simpl map. repeat split; apply iloc_empty.
Qed.

Lemma gains_losses_rows_unknown_year_witness :
  iloc (map Delta.states
          (@calculate_population_difference kernel_stable table_two_states 2015))
       0
  = Raises IndexError
  /\ iloc (map Delta.states
             (@calculate_population_difference kernel_stable table_two_states 2015))
          (- 1)
     = Raises IndexError
  /\ iloc (map Delta.population_difference
             (@calculate_population_difference kernel_stable table_two_states 2015))
          0
     = Raises IndexError
  /\ iloc (map Delta.population_difference
             (@calculate_population_difference kernel_stable table_two_states 2015))
          (- 1)
     = Raises IndexError.
Proof.
  apply (gains_losses_rows_unknown_year kernel_stable table_two_states 2015).
  - simpl. intros [H|[H|[H|[H|[]]]]]; discriminate H.
  - simpl. intros [H|[H|[H|[H|[]]]]]; discriminate H.
Defined.

(** ** The "States Migration" panel *)

(** The two selections never share a row: every row of the frame is in
    [df_greater_50000], in [df_less_50000], or has a difference between
    -50000 and 50000 (both included) and is in neither. *)
Theorem migration_selections_disjoint :
  forall df : list Delta.t,
    len (df_greater_50000 df) + len (df_less_50000 df)
    + len (filter (fun r => (- 50000 <=? Delta.population_difference r)
                            && (Delta.population_difference r <=? 50000)) df)
    = len df
    /\ (forall d : Delta.t,
          In d (df_greater_50000 df) -> ~ In d (df_less_50000 df)).
Proof.
  intros df. split.
  - unfold len, df_greater_50000, df_less_50000.
    induction df as [|d df IH]; [reflexivity|].
    cbn [filter].
    destruct (50000 <? Delta.population_difference d) eqn:E1;
      destruct (Delta.population_difference d <? - 50000) eqn:E2;
      destruct (- 50000 <=? Delta.population_difference d) eqn:E3;
      destruct (Delta.population_difference d <=? 50000) eqn:E4;
      cbn [andb List.length];
      try apply Z.ltb_lt in E1; try apply Z.ltb_ge in E1;
      try apply Z.ltb_lt in E2; try apply Z.ltb_ge in E2;
      try apply Z.leb_le in E3; try apply Z.leb_gt in E3;
      try apply Z.leb_le in E4; try apply Z.leb_gt in E4;
      lia.
  - intros d Hg Hl.
    apply filter_In in Hg. apply filter_In in Hl.
    destruct Hg as [_ Hg]. destruct Hl as [_ Hl].
    apply Z.ltb_lt in Hg. apply Z.ltb_lt in Hl. lia.
Qed.

Lemma chart_color_known (c : string) :
  In c ["blue"; "green"; "orange"; "red"]%string ->
  exists dark light : string, chart_color c = Some [dark; light].
Proof.
  simpl. intros [<-|[<-|[<-|[<-|[]]]]]; eexists; eexists; reflexivity.
Qed.

Lemma chart_color_unknown (c : string) :
  ~ In c ["blue"; "green"; "orange"; "red"]%string -> chart_color c = None.
Proof.
  intros H. unfold chart_color.
  destruct (String.eqb_spec c "blue") as [->|_]; [exfalso; apply H; simpl; tauto|].
  destruct (String.eqb_spec c "green") as [->|_]; [exfalso; apply H; simpl; tauto|].
  destruct (String.eqb_spec c "orange") as [->|_]; [exfalso; apply H; simpl; tauto|].
  destruct (String.eqb_spec c "red") as [->|_]; [exfalso; apply H; simpl; tauto|].
  reflexivity.
Qed.

(** [make_donut] raises [UnboundLocalError] exactly when [input_color] is
    none of ['blue'], ['green'], ['orange'], ['red'].  When it returns, the
    two arcs are [100 - input_response] and [input_response], which add up
    to 100, the colour scale has two colours, and the text in the centre is
    [input_response] followed by [" %"]. *)
Theorem make_donut_colors :
  forall (input_response : Z) (input_text input_color : string),
    (make_donut input_response input_text input_color
     = Raises UnboundLocalError
     <-> ~ In input_color ["blue"; "green"; "orange"; "red"]%string)
    /\ (forall d : Donut,
          make_donut input_response input_text input_color = Returns d ->
          source d = [(EmptyString, 100 - input_response);
                      (input_text, input_response)]
          /\ total (map snd (source d)) = 100
          /\ List.length (scale_range d) = 2%nat
          /\ text d = (str_int input_response ++ " %")%string).
Proof.
  intros p t c. split.
  - split.
    + intros H Hin. destruct (chart_color_known c Hin) as (dk & lt & E).
      unfold make_donut in H. rewrite E in H. unfold format_int in H.
      destruct (10 ^ int_max_str_digits <=? Z.abs p); discriminate H.
    + intros H. unfold make_donut. rewrite (chart_color_unknown c H).
      reflexivity.
  - intros d H. unfold make_donut in H. cbv zeta in H.
    destruct (chart_color c) as [range|] eqn:E; [|discriminate H].
    unfold format_int in H.
    destruct (10 ^ int_max_str_digits <=? Z.abs p); [discriminate H|].
    injection H as <-. cbn [source text scale_range].
    split; [reflexivity|].
    split; [change (100 - p + (p + 0) = 100); lia|].
    split; [|reflexivity].
    unfold chart_color in E.
    destruct (String.eqb c "red"); [injection E as <-; reflexivity|].
    destruct (String.eqb c "orange"); [injection E as <-; reflexivity|].
    destruct (String.eqb c "green"); [injection E as <-; reflexivity|].
    destruct (String.eqb c "blue"); [injection E as <-; reflexivity|].
    discriminate E.
Qed.

Lemma calculate_one_state_per_row (K : SortKernel) (df : list Row) (y : Z) :
  In y (map year df) ->
  NoDup (map states (df_selected_year df y)) ->
  one_state_per_row (calculate_population_difference df y).
Proof.
  intros Hy Hnd.
  destruct (calculate_population_difference_rows_of_slice K df y Hy)
    as [Hne Hnames].
  split; [exact Hne|]. split.
  - eapply Forall_impl; [|exact Hnames].
    intros d (s & Hs & _). congruence.
  - apply df_selected_year_nonempty in Hy.
    apply (Permutation_NoDup (calculate_states_perm df y Hy)).
    apply Finite.Injective_map_NoDup; [|exact Hnd].
    intros a b E. congruence.
Qed.

Lemma migration_percent_bounds (selected df : list Delta.t) :
  one_state_per_row df ->
  0 <= len selected <= len df ->
  exists p : Z, migration_percent selected df = Ok p /\ 0 <= p <= 100.
Proof.
  intros Hdf Hk.
  destruct (migration_percent_spec selected df Hdf Hk) as (p & Hp & Hb & _).
  exists p. split; assumption.
Qed.

(** For every year the selector offers, in a table where no state has two
    rows for that year, the panel is computed without error, whichever side
    of 2010 the year is on: both percentages are between 0 and 100, and
    each donut is drawn with the arcs [100 - p] and [p], neither negative,
    in its two colours. *)
Theorem states_migration_panel_of_table :
  forall (K : SortKernel) (df_reshaped : list Row) (selected_year : Z),
    In selected_year (year_list df_reshaped) ->
    NoDup (map states (df_selected_year df_reshaped selected_year)) ->
    exists (g l : Z) (donut_chart_greater donut_chart_less : Donut),
      states_migration_panel selected_year
        (calculate_population_difference df_reshaped selected_year)
      = Returns (g, l, donut_chart_greater, donut_chart_less)
      /\ 0 <= g <= 100 /\ 0 <= l <= 100
      /\ source donut_chart_greater
         = [(EmptyString, 100 - g); ("Inbound Migration"%string, g)]
      /\ source donut_chart_less
         = [(EmptyString, 100 - l); ("Outbound Migration"%string, l)]
      /\ scale_range donut_chart_greater = ["#27AE60"; "#12783D"]%string
      /\ scale_range donut_chart_less = ["#E74C3C"; "#781F16"]%string
      /\ Forall (fun tv => 0 <= snd tv <= 100)
                (source donut_chart_greater ++ source donut_chart_less).
Proof.
  intros K df y Hy Hnd. apply year_list_In in Hy.
  pose proof (calculate_one_state_per_row K df y Hy Hnd) as Hdf.
  set (frame := calculate_population_difference df y) in *.
  assert (Hpanel : exists g l : Z,
             0 <= g <= 100 /\ 0 <= l <= 100
             /\ states_migration_panel y frame
                = (dg <~ make_donut g "Inbound Migration" "green" ;;
                   dl <~ make_donut l "Outbound Migration" "red" ;;
                   Returns (g, l, dg, dl))).
  { unfold states_migration_panel. destruct (2010 <? y).
    - destruct (migration_percent_bounds (df_greater_50000 frame) frame Hdf
                  (len_filter_le _ frame)) as (g & Hg & Hgb).
      destruct (migration_percent_bounds (df_less_50000 frame) frame Hdf
                  (len_filter_le _ frame)) as (l & Hl & Hlb).
      exists g, l. split; [exact Hgb|]. split; [exact Hlb|].
      unfold states_migration_greater, states_migration_less.
      rewrite Hg, Hl. reflexivity.
    - exists 0, 0. split; [lia|]. split; [lia|]. reflexivity. }
  destruct Hpanel as (g & l & Hg & Hl & ->).
  unfold make_donut. cbv zeta.
  change (chart_color "green") with (Some ["#27AE60"; "#12783D"]%string).
  change (chart_color "red") with (Some ["#E74C3C"; "#781F16"]%string).
  cbv iota beta.
  rewrite (format_int_small g), (format_int_small l)
    by (rewrite Z.abs_eq by lia; change (10 ^ 22) with 10000000000000000000000;
        lia).
  eexists g, l, _, _. split; [reflexivity|].
  cbn [source scale_range app].
  split; [exact Hg|]. split; [exact Hl|].
  split; [reflexivity|]. split; [reflexivity|].
  split; [reflexivity|]. split; [reflexivity|].
  repeat (apply Forall_cons; [cbn [snd]; lia|]). apply Forall_nil.
Qed.

Lemma states_migration_panel_of_table_witness :
  exists (g l : Z) (donut_chart_greater donut_chart_less : Donut),
    states_migration_panel 2011
      (@calculate_population_difference kernel_stable table_two_states 2011)
    = Returns (g, l, donut_chart_greater, donut_chart_less)
    /\ 0 <= g <= 100 /\ 0 <= l <= 100
    /\ source donut_chart_greater
       = [(EmptyString, 100 - g); ("Inbound Migration"%string, g)]
    /\ source donut_chart_less
       = [(EmptyString, 100 - l); ("Outbound Migration"%string, l)]
    /\ scale_range donut_chart_greater = ["#27AE60"; "#12783D"]%string
    /\ scale_range donut_chart_less = ["#E74C3C"; "#781F16"]%string
    /\ Forall (fun tv => 0 <= snd tv <= 100)
              (source donut_chart_greater ++ source donut_chart_less).
Proof.
  apply (states_migration_panel_of_table kernel_stable table_two_states 2011).
  - vm_compute. tauto.
  - simpl. repeat constructor; simpl; intuition discriminate.
Defined.

(** ** More on [format_number] *)

Lemma format_int_ok (n : Z) :
  Z.abs n < 10 ^ 4300 -> format_int n = Ok (str_int n).
Proof.
  intros H. unfold format_int, int_max_str_digits.
  destruct (10 ^ 4300 <=? Z.abs n) eqn:E; [|reflexivity].
  apply Z.leb_le in E. revert H E.
  generalize (10 ^ 4300) (Z.abs n). intros; lia.
Qed.

Lemma format_int_too_long (n : Z) :
  10 ^ 4300 <= Z.abs n -> format_int n = Raise Py.ValueError.
Proof.
  intros H. unfold format_int, int_max_str_digits.
  destruct (10 ^ 4300 <=? Z.abs n) eqn:E; [reflexivity|].
  apply Z.leb_gt in E. revert H E.
  generalize (10 ^ 4300) (Z.abs n). intros; lia.
Qed.

(** Everything up to one million, negative numbers included, is printed in
    thousands, rounded down: the result is [q] followed by [" K"] for the
    integer [q] with [1000 * q <= n < 1000 * q + 1000].  This for a
    [numpy.int64], and for a Python integer above [-10^4300]; a Python
    integer from [-10^4303] downwards has a quotient of more than 4300
    digits, which Python refuses to print: [ValueError].  A loss is never
    printed in millions: -2500000 gives ["-2500 K"], and -60500 gives
    ["-61 K"]. *)
Theorem format_number_thousands :
  forall n : Z,
    n <= 1000000 ->
    1000 * (n / 1000) <= n < 1000 * (n / 1000) + 1000
    /\ (- 10 ^ 4300 < n ->
        format_number n = Ok (str_int (n / 1000) ++ " K")%string)
    /\ (n <= - (1000 * 10 ^ 4300) -> format_number n = Raise Py.ValueError)
    /\ (- 2 ^ 63 <= n ->
        format_number_int64 n = (str_int (n / 1000) ++ " K")%string)
    /\ format_number (- 2500000) = Ok "-2500 K"%string
    /\ format_number (- 60500) = Ok "-61 K"%string
    /\ format_number_int64 (- 2500000) = "-2500 K"%string
    /\ format_number_int64 (- 60500) = "-61 K"%string.
Proof.
  intros n Hn.
  pose proof (Z.div_mod n 1000 ltac:(lia)) as Hdm.
  pose proof (Z.mod_pos_bound n 1000 ltac:(lia)) as Hmb.
  assert (HP : 1000000 < 10 ^ 4300).
  { apply Z.lt_le_trans with (10 ^ 7); [reflexivity|].
    apply Z.pow_le_mono_r; lia. }
  split; [lia|]. split; [|split; [|split]].
  - intros Hlo. unfold format_number.
    destruct (1000000 <? n) eqn:E; [apply Z.ltb_lt in E; lia|].
    rewrite format_int_ok; [reflexivity|].
    revert HP Hlo. generalize (10 ^ 4300). intros P HP Hlo. lia.
  - intros Hlo. unfold format_number.
    destruct (1000000 <? n) eqn:E; [apply Z.ltb_lt in E; lia|].
    rewrite format_int_too_long; [reflexivity|].
    revert HP Hlo. generalize (10 ^ 4300). intros P HP Hlo. lia.
  - intros _. unfold format_number_int64.
    destruct (1000000 <? n) eqn:E; [apply Z.ltb_lt in E; lia|]. reflexivity.
  - repeat split; vm_compute; reflexivity.
Qed.

Lemma format_number_thousands_witness :
  format_number (- 1) = Ok (str_int (- 1 / 1000) ++ " K")%string
  /\ format_number_int64 (- 1) = (str_int (- 1 / 1000) ++ " K")%string.
Proof.
  destruct (format_number_thousands (- 1) ltac:(lia))
    as (_ & Hpy & _ & Hnp & _).
  split.
  - apply Hpy. apply Z.ltb_lt. vm_compute. reflexivity.
  - apply Hnp. apply Z.leb_le. vm_compute. reflexivity.
Defined.

Lemma truediv_positive (n : Z) (x : float) :
  0 < n -> round64 n 1000000 = x ->
  truediv n 1000000 = match x with Inf _ => Raise OverflowError | _ => Ok x end.
Proof.
  intros Hn <-. unfold truediv, round64_signed.
  change (1000000 =? 0) with false. cbv iota.
  change (Z.sgn 1000000) with 1. change (Z.abs 1000000) with 1000000.
  rewrite Z.mul_1_r.
  destruct (n <? 0) eqn:E; [apply Z.ltb_lt in E; lia|].
  destruct (round64 n 1000000); reflexivity.
Qed.

(** Up to [10^16] the quotient by one million has an exponent of at most
    -19. *)
Lemma truediv_million_small (n : Z) :
  1000000 < n <= 10000000000000000 ->
  exists m e : Z,
    truediv n 1000000 = Ok (Fin m e)
    /\ 0 <= m /\ e <= - 19
    /\ - 1000000 <= 2 * (m * 1000000 - n * pden e) <= 1000000.
Proof.
  intros Hn.
  assert (HM : 2 ^ 52 <= 2 ^ 53 - 1 < 2 ^ 53)
    by (split; [apply Z.leb_le | apply Z.ltb_lt]; reflexivity).
  assert (Hh : 2 * (n * pden (- 19))
               < (2 * (2 ^ 53 - 1) + 1) * (1000000 * pnum (- 19))).
  { change (pden (- 19)) with 524288. change (pnum (- 19)) with 1.
    change (2 ^ 53) with 9007199254740992. lia. }
  destruct (round64_upper n 1000000 (2 ^ 53 - 1) (- 19)
              ltac:(lia) ltac:(lia) HM ltac:(lia) Hh)
    as (m & e & Hr & He & Hm & _ & Herr).
  exists m, e. split.
  - rewrite (truediv_positive n (Fin m e)) by (lia || exact Hr). reflexivity.
  - split; [exact Hm|]. split; [exact He|].
    rewrite (pnum_neg e) in Herr by lia. lia.
Qed.

(** Between one million and [10^16], the float division and [round] of a
    Python integer lose nothing: a number that is neither a multiple of one
    million nor halfway between two tenths of a million is printed as the
    tenth of a million nearest to it. *)
Lemma format_number_nearest_tenth_int :
  forall n : Z,
    1000000 < n <= 10000000000000000 ->
    n mod 1000000 <> 0 ->
    n mod 100000 <> 50000 ->
    format_number n
    = Ok (str_int (rne_div n 100000 / 10) ++ "."
            ++ str_int (rne_div n 100000 mod 10) ++ " M")%string
    /\ - 100000 < 2 * (rne_div n 100000 * 100000 - n) < 100000.
Proof.
  intros n Hn Hmod Htie.
  destruct (truediv_million_small n Hn) as (m & e & Hx & Hm & He & Herr).
  set (z := rne_div n 100000).
  assert (Hz : - 100000 < 2 * (z * 100000 - n) < 100000).
  { pose proof (rne_div_error n 100000 ltac:(lia)) as H. fold z in H.
    pose proof (Z.div_mod n 100000 ltac:(lia)) as Hd.
    pose proof (Z.mod_pos_bound n 100000 ltac:(lia)) as Hb.
    assert (2 * (z * 100000 - n) <> 100000).
    { intros E. apply Htie. symmetry.
      apply (Z.mod_unique_pos n 100000 (z - 1) 50000); lia. }
    assert (2 * (z * 100000 - n) <> - 100000).
    { intros E. apply Htie. symmetry.
      apply (Z.mod_unique_pos n 100000 z 50000); lia. }
    lia. }
  assert (Ht : round1_tenths (Fin m e) = z).
  { change (round1_tenths (Fin m e))
      with (rne_div (10 * (m * pnum e)) (pden e)).
    rewrite (pnum_neg e) by lia.
    assert (HD : 524288 <= pden e).
    { rewrite pden_neg by lia. change 524288 with (2 ^ 19).
      apply pow2_le. lia. }
    apply rne_div_nearest; [lia|].
    set (D := pden e) in *. clearbody D.
    assert (H1 : - (100000 * D) < 2 * ((z * D - 10 * (m * 1)) * 100000)
                 < 100000 * D) by nia.
    split; apply (Z.mul_lt_mono_pos_r 100000); lia. }
  split; [|exact Hz].
  unfold format_number.
  destruct (1000000 <? n) eqn:E; [|apply Z.ltb_ge in E; lia].
  destruct (n mod 1000000 =? 0) eqn:E'; [apply Z.eqb_eq in E'; lia|].
  rewrite Hx. unfold bind, fstr_round1. rewrite Ht.
  destruct (z <? 10 ^ 17) eqn:E''.
  - rewrite append_assoc. reflexivity.
  - apply Z.ltb_ge in E''. change (10 ^ 17) with 100000000000000000 in E''.
    lia.
Qed.

(** A number above one million that is neither a multiple of one million
    nor halfway between two tenths of a million is printed as the tenth of
    a million nearest to it, [t // 10], a point, [t % 10] and [" M"] for
    the integer [t] nearest to [n / 100000]: so for a Python integer up to
    [10^16], where the float division and Python's [round(x, 1)] lose
    nothing, and for a [numpy.int64] up to [4 * 10^15], where the division,
    the product by ten and [rint] of numpy's [round(x, 1)] lose less than
    what separates [n] from the halfway point. *)
Theorem format_number_nearest_tenth :
  forall n : Z,
    1000000 < n ->
    n mod 1000000 <> 0 ->
    n mod 100000 <> 50000 ->
    - 100000 < 2 * (rne_div n 100000 * 100000 - n) < 100000
    /\ (n <= 10000000000000000 ->
        format_number n
        = Ok (str_int (rne_div n 100000 / 10) ++ "."
                ++ str_int (rne_div n 100000 mod 10) ++ " M")%string)
    /\ (n <= 4000000000000000 ->
        format_number_int64 n
        = (str_int (rne_div n 100000 / 10) ++ "."
             ++ str_int (rne_div n 100000 mod 10) ++ " M")%string).
Proof.
  intros n Hlo Hmod Htie. split; [|split].
  - pose proof (rne_div_error n 100000 ltac:(lia)) as H.
    assert (2 * (rne_div n 100000 * 100000 - n) <> 100000).
    { intros E. apply Htie. symmetry.
      apply (Z.mod_unique_pos n 100000 (rne_div n 100000 - 1) 50000); lia. }
    assert (2 * (rne_div n 100000 * 100000 - n) <> - 100000).
    { intros E. apply Htie. symmetry.
      apply (Z.mod_unique_pos n 100000 (rne_div n 100000) 50000); lia. }
    lia.
  - intros Hhi.
    apply (format_number_nearest_tenth_int n ltac:(lia) Hmod Htie).
  - intros Hhi.
    apply (format_number_nearest_tenth_int64 n ltac:(lia) Hmod Htie).
Qed.

Lemma format_number_nearest_tenth_witness :
  format_number 12345678
  = Ok (str_int (rne_div 12345678 100000 / 10) ++ "."
          ++ str_int (rne_div 12345678 100000 mod 10) ++ " M")%string
  /\ format_number_int64 12345678
     = (str_int (rne_div 12345678 100000 / 10) ++ "."
          ++ str_int (rne_div 12345678 100000 mod 10) ++ " M")%string.
Proof.
  destruct (format_number_nearest_tenth 12345678 ltac:(lia)
              ltac:(vm_compute; discriminate) ltac:(vm_compute; discriminate))
    as (_ & Hpy & Hnp).
  split; [apply Hpy | apply Hnp]; lia.
Defined.

(** From [10^6 * 2^1024] on, a Python integer that is not a multiple of one
    million makes [format_number] raise [OverflowError]: the quotient does
    not fit a float.  The multiple of one million just below it goes through
    the integer branch: it is printed in full as long as its quotient has at
    most 4300 digits ([n < 10^4306]), and raises [ValueError] beyond. *)
Theorem format_number_overflow :
  forall n : Z,
    1000000 * 2 ^ 1024 <= n ->
    n mod 1000000 <> 0 ->
    format_number n = Raise OverflowError
    /\ (n < 1000000 * 10 ^ 4300 ->
        format_number (n - n mod 1000000)
        = Ok (str_int (n / 1000000) ++ " M")%string)
    /\ (1000000 * 10 ^ 4300 <= n ->
        format_number (n - n mod 1000000) = Raise Py.ValueError).
Proof.
  intros n Hn Hmod.
  assert (Hpos : 0 < 2 ^ 1024) by (apply Z.pow_pos_nonneg; lia).
  assert (Hbig : 1000000 < n) by nia.
  assert (Hbranch : format_number (n - n mod 1000000)
                    = (s <- format_int (n / 1000000) ;;
                       Ok (s ++ " M")%string)).
  { pose proof (Z.div_mod n 1000000 ltac:(lia)) as Hd.
    pose proof (Z.mod_pos_bound n 1000000 ltac:(lia)) as Hb.
    assert (Hq : n - n mod 1000000 = 1000000 * (n / 1000000)) by lia.
    assert (Hq1 : 2 <= n / 1000000).
    { assert (2 * 1000000 <= n) by nia.
      apply Z.div_le_lower_bound; lia. }
    unfold format_number. rewrite Hq.
    destruct (1000000 <? 1000000 * (n / 1000000)) eqn:E;
      [|apply Z.ltb_ge in E; lia].
    rewrite Z.mul_comm, Z.mod_mul by lia. simpl Z.eqb. cbv iota.
    rewrite Z.div_mul by lia. reflexivity. }
  assert (Hq0 : 0 <= n / 1000000) by (apply Z.div_pos; lia).
  split; [|split].
  - assert (Hr : exists s, round64 n 1000000 = Inf s).
    { unfold round64.
      destruct (n =? 0) eqn:E0; [apply Z.eqb_eq in E0; lia|].
      destruct (exp_of_spec n 1000000 ltac:(lia) ltac:(lia))
        as (_ & Hlt & _).
      assert (He : 971 < exp_of n 1000000).
      { destruct (Z.lt_ge_cases 971 (exp_of n 1000000)) as [H|H];
          [exact H|exfalso].
        set (e := exp_of n 1000000) in *. clearbody e.
        destruct (Z.le_gt_cases e 0) as [H0|H0].
        - rewrite (pnum_neg e H0) in Hlt.
          pose proof (pden_pos e) as Hd.
          assert (H53 : 2 ^ 53 <= 2 ^ 1024) by (apply pow2_le; lia).
          assert (H1 : n * 1 <= n * pden e)
            by (apply Z.mul_le_mono_nonneg_l; lia).
          assert (H2 : 1000000 * 2 ^ 53 <= 1000000 * 2 ^ 1024)
            by (apply Z.mul_le_mono_nonneg_l; lia).
          revert Hn Hlt H1 H2. generalize (2 ^ 1024), (2 ^ 53), (pden e).
          intros; lia.
        - unfold pnum, pden in Hlt.
          rewrite (Z.max_r (- e) 0) in Hlt by lia.
          rewrite (Z.max_l e 0) in Hlt by lia.
          change (2 ^ 0) with 1 in Hlt.
          assert (H2 : 2 ^ e * 2 ^ 53 <= 2 ^ 1024).
          { rewrite <- Z.pow_add_r by lia. apply pow2_le. lia. }
          assert (H3 : 1000000 * (2 ^ e * 2 ^ 53) <= 1000000 * 2 ^ 1024)
            by (apply Z.mul_le_mono_nonneg_l; lia).
          rewrite <- Z.mul_assoc in Hlt.
          revert Hn Hlt H3. generalize (2 ^ 1024), (2 ^ e * 2 ^ 53).
          intros; lia. }
      apply Z.ltb_lt in He. rewrite He. simpl orb. cbv iota.
      exists false. reflexivity. }
    destruct Hr as [s Hr].
    unfold format_number.
    destruct (1000000 <? n) eqn:E; [|apply Z.ltb_ge in E; lia].
    destruct (n mod 1000000 =? 0) eqn:E'; [apply Z.eqb_eq in E'; lia|].
    rewrite (truediv_positive n (Inf s)) by (lia || exact Hr). reflexivity.
  - intros Hlt. rewrite Hbranch, format_int_ok; [reflexivity|].
    rewrite Z.abs_eq by exact Hq0.
    apply Z.div_lt_upper_bound; [lia | exact Hlt].
  - intros Hge. rewrite Hbranch, format_int_too_long; [reflexivity|].
    rewrite Z.abs_eq by exact Hq0.
    apply Z.div_le_lower_bound; [lia | exact Hge].
Qed.

Lemma format_number_overflow_witness :
  format_number (1000000 * 2 ^ 1024 + 1) = Raise OverflowError
  /\ format_number (1000000 * 2 ^ 1024 + 1 - (1000000 * 2 ^ 1024 + 1) mod 1000000)
     = Ok (str_int ((1000000 * 2 ^ 1024 + 1) / 1000000) ++ " M")%string.
Proof.
  destruct (format_number_overflow (1000000 * 2 ^ 1024 + 1)) as (H1 & H2 & _).
  - apply Z.leb_le. vm_compute. reflexivity.
  - vm_compute. discriminate.
  - split; [exact H1|]. apply H2. apply Z.ltb_lt. vm_compute. reflexivity.
Defined.

(** ** Sums and end points *)

(** On a table whose populations lie between 0 and [2^53] (where the
    subtraction loses nothing, whether pandas does it on integers or on
    floats), the differences add up to the total of the year minus the
    total of the year before as soon as the slice of the year before has no
    more rows than the slice of the year, whatever the states in them. *)
Theorem calculate_population_difference_sum :
  forall (K : SortKernel) (input_df : list Row) (input_year : Z),
    populations_upto (2 ^ 53) input_df ->
    len (df_selected_year input_df (input_year - 1))
    <= len (df_selected_year input_df input_year) ->
    total (map Delta.population_difference
             (calculate_population_difference input_df input_year))
    = total (map population (df_selected_year input_df input_year))
      - total (map population (df_selected_year input_df (input_year - 1))).
Proof.
  intros K df y Hb Hlen. unfold len in Hlen.
  unfold calculate_population_difference.
  rewrite <- (total_perm _ _
    (Permutation_map Delta.population_difference
       (sort_values_perm _ Delta.population_difference
          (population_difference_frame df y)))).
  rewrite (population_difference_frame_exact df y Hb).
  rewrite set_population_difference_column.
  - apply total_zip_sub.
  - rewrite length_zip_fill0, !length_map. lia.
Qed.

Lemma calculate_population_difference_sum_witness :
  total (map Delta.population_difference
           (@calculate_population_difference kernel_stable table_new_state 2011))
  = total (map population (df_selected_year table_new_state 2011))
    - total (map population (df_selected_year table_new_state (2011 - 1))).
Proof.
  apply (calculate_population_difference_sum kernel_stable table_new_state 2011).
  - repeat constructor; simpl; try lia; apply Z.leb_le; reflexivity.
  - vm_compute. discriminate.
Defined.

Lemma migration_percent_all (df : list Delta.t) :
  one_state_per_row df -> migration_percent df df = Ok 100.
Proof.
  intros Hdf.
  destruct (nunique_one_state_per_row df Hdf) as [_ Hpos].
  destruct (migration_percent_spec df df Hdf ltac:(lia))
    as (p & Hp & _ & Hnear & _).
  rewrite Hp. f_equal. nia.
Qed.

Lemma migration_percent_none (df : list Delta.t) :
  one_state_per_row df -> migration_percent [] df = Ok 0.
Proof.
  intros Hdf.
  destruct (nunique_one_state_per_row df Hdf) as [_ Hpos].
  destruct (migration_percent_spec [] df Hdf
              ltac:(change (len (@nil Delta.t)) with 0; lia))
    as (p & Hp & _ & Hnear & _).
  change (len (@nil Delta.t)) with 0 in Hnear.
  rewrite Hp. f_equal. nia.
Qed.

Lemma filter_all {A : Type} (f : A -> bool) (l : list A) :
  Forall (fun a => f a = true) l -> filter f l = l.
Proof.
  induction 1 as [|a l Ha _ IH]; simpl; [reflexivity|].
  rewrite Ha, IH. reflexivity.
Qed.

Lemma filter_none {A : Type} (f : A -> bool) (l : list A) :
  Forall (fun a => f a = false) l -> filter f l = [].
Proof.
  induction 1 as [|a l Ha _ IH]; simpl; [reflexivity|].
  rewrite Ha, IH. reflexivity.
Qed.

(** The float arithmetic is exact at the two ends: on a frame with one
    record per state, the percentage is 100 when every record passes the
    threshold and 0 when none does. *)
Theorem states_migration_end_points :
  forall df : list Delta.t,
    one_state_per_row df ->
    (Forall (fun d => 50000 < Delta.population_difference d) df ->
     states_migration_greater df = Ok 100 /\ states_migration_less df = Ok 0)
    /\ (Forall (fun d => Delta.population_difference d < - 50000) df ->
     states_migration_greater df = Ok 0 /\ states_migration_less df = Ok 100)
    /\ (Forall (fun d => - 50000 <= Delta.population_difference d <= 50000) df ->
     states_migration_greater df = Ok 0 /\ states_migration_less df = Ok 0).
Proof.
  intros df Hdf.
  unfold states_migration_greater, states_migration_less,
    df_greater_50000, df_less_50000.
  split; [|split]; intros H.
  - rewrite filter_all, filter_none.
    + split; [apply migration_percent_all | apply migration_percent_none];
        exact Hdf.
    + eapply Forall_impl; [|exact H]. simpl. intros d Hd.
      apply Z.ltb_ge. lia.
    + eapply Forall_impl; [|exact H]. simpl. intros d Hd.
      apply Z.ltb_lt. lia.
  - rewrite filter_none, filter_all.
    + split; [apply migration_percent_none | apply migration_percent_all];
        exact Hdf.
    + eapply Forall_impl; [|exact H]. simpl. intros d Hd.
      apply Z.ltb_lt. lia.
    + eapply Forall_impl; [|exact H]. simpl. intros d Hd.
      apply Z.ltb_ge. lia.
  - rewrite !filter_none.
    + split; apply migration_percent_none; exact Hdf.
    + eapply Forall_impl; [|exact H]. simpl. intros d Hd.
      apply Z.ltb_ge. lia.
    + eapply Forall_impl; [|exact H]. simpl. intros d Hd.
      apply Z.ltb_ge. lia.
Qed.

Lemma states_migration_end_points_witness :
  states_migration_greater (delta_frame 2 2) = Ok 100
  /\ states_migration_less (delta_frame 2 2) = Ok 0.
Proof.
  apply (states_migration_end_points (delta_frame 2 2)).
  - split; [discriminate|]. split.
    + repeat constructor; discriminate.
    + apply all_distinct_NoDup. reflexivity.
  - repeat constructor.
Defined.

(** A population above 50000 minus nothing is above 50000, whatever the
    dtype of the column. *)
Lemma first_year_gain (df : list Row) (r : Row) :
  In r df -> 50000 < population r ->
  50000 < sub_aligned (column_dtype (map population df)) (population r) 0.
Proof.
  intros Hr Hpop.
  destruct (column_dtype (map population df)) eqn:Ed.
  - assert (Hb : Forall (fun v => - 2 ^ 63 <= v < 2 ^ 64)
                        (map population df)).
    { apply column_dtype_bounds. congruence. }
    rewrite Forall_forall in Hb.
    specialize (Hb (population r) (in_map population df r Hr)).
    assert (50001 <= sub_aligned int64 (population r) 0); [|lia].
    apply sub_aligned_zero_ge; [|lia|lia].
    split; [lia | apply Z.leb_le; reflexivity].
  - assert (Hb : Forall (fun v => - 2 ^ 63 <= v < 2 ^ 64)
                        (map population df)).
    { apply column_dtype_bounds. congruence. }
    rewrite Forall_forall in Hb.
    specialize (Hb (population r) (in_map population df r Hr)).
    assert (50001 <= sub_aligned uint64 (population r) 0); [|lia].
    apply sub_aligned_zero_ge; [|lia|lia].
    split; [lia | apply Z.leb_le; reflexivity].
  - simpl. lia.
Qed.

(** The guard of the panel is the year 2010, not the first year of the
    table.  For a table whose first year comes after 2010, where every
    state of that year has more than 50000 inhabitants, the panel of the
    first year reports 100 % inbound and 0 % outbound migration: each
    state's whole population counts as its gain. *)
Theorem states_migration_first_year_after_2010 :
  forall (K : SortKernel) (df_reshaped : list Row) (selected_year : Z),
    2010 < selected_year ->
    In selected_year (year_list df_reshaped) ->
    ~ In (selected_year - 1) (map year df_reshaped) ->
    NoDup (map states (df_selected_year df_reshaped selected_year)) ->
    Forall (fun r => 50000 < population r)
           (df_selected_year df_reshaped selected_year) ->
    exists donut_chart_greater donut_chart_less : Donut,
      states_migration_panel selected_year
        (calculate_population_difference df_reshaped selected_year)
      = Returns (100, 0, donut_chart_greater, donut_chart_less).
Proof.
  intros K df y Hgt Hy Hp Hnd Hpop. apply year_list_In in Hy.
  pose proof (calculate_one_state_per_row K df y Hy Hnd) as Hdf.
  assert (Hall : Forall (fun d => 50000 < Delta.population_difference d)
                        (calculate_population_difference df y)).
  { assert (P : Permutation
        (map (fun r => Delta.mk (Some (states r)) (Some (id r))
                                (Some (population r))
                                (sub_aligned (column_dtype (map population df))
                                             (population r) 0))
             (df_selected_year df y))
        (calculate_population_difference df y)).
    { unfold calculate_population_difference.
      rewrite <- (first_year_frame_aligned df y Hp). apply sort_values_perm. }
    apply (Permutation_Forall P). apply Forall_map.
    apply Forall_forall. intros r Hr. simpl.
    rewrite Forall_forall in Hpop. specialize (Hpop r Hr).
    apply (first_year_gain df r); [|exact Hpop].
    unfold df_selected_year in Hr. apply filter_In in Hr. apply Hr. }
  set (frame := calculate_population_difference df y) in *.
  assert (Hg : states_migration_greater frame = Ok 100).
  { unfold states_migration_greater, df_greater_50000.
    rewrite filter_all; [apply migration_percent_all, Hdf|].
    eapply Forall_impl; [|exact Hall]. simpl. intros d Hd.
    apply Z.ltb_lt. exact Hd. }
  assert (Hl : states_migration_less frame = Ok 0).
  { unfold states_migration_less, df_less_50000.
    rewrite filter_none; [apply migration_percent_none, Hdf|].
    eapply Forall_impl; [|exact Hall]. simpl. intros d Hd.
    apply Z.ltb_ge. lia. }
  unfold states_migration_panel.
  destruct (2010 <? y) eqn:E; [|apply Z.ltb_ge in E; lia].
  rewrite Hg, Hl. eexists _, _. reflexivity.
Qed.

Lemma states_migration_first_year_after_2010_witness :
  exists donut_chart_greater donut_chart_less : Donut,
    states_migration_panel 2015
      (@calculate_population_difference kernel_stable table_from_2015 2015)
    = Returns (100, 0, donut_chart_greater, donut_chart_less).
Proof.
  apply (states_migration_first_year_after_2010
           kernel_stable table_from_2015 2015).
  - lia.
  - vm_compute. tauto.
  - simpl. intros [H|[H|[H|[H|[]]]]]; discriminate H.
  - simpl. repeat constructor; simpl; intuition discriminate.
  - simpl. repeat constructor.
Defined.

(** ** [format_number] on a float64 *)

(** A float with the integer value [q]. *)
Lemma fneg_value (m e q : Z) :
  m * pnum e = q * pden e -> (- m) * pnum e = (- q) * pden e.
Proof. intros H. lia. Qed.

Lemma fltb_values (m1 e1 m2 e2 p q : Z) :
  m1 * pnum e1 = p * pden e1 -> m2 * pnum e2 = q * pden e2 ->
  fltb (Fin m1 e1) (Fin m2 e2) = (p <? q).
Proof.
  intros H1 H2. unfold fltb.
  change (fnum (Fin m1 e1)) with (m1 * pnum e1).
  change (fnum (Fin m2 e2)) with (m2 * pnum e2).
  change (fden (Fin m1 e1)) with (pden e1).
  change (fden (Fin m2 e2)) with (pden e2).
  rewrite H1, H2.
  pose proof (pden_pos e1) as Hd1. pose proof (pden_pos e2) as Hd2.
  assert (HD : 0 < pden e1 * pden e2) by (apply Z.mul_pos_pos; assumption).
  replace (p * pden e1 * pden e2) with (p * (pden e1 * pden e2)) by ring.
  replace (q * pden e2 * pden e1) with (q * (pden e1 * pden e2)) by ring.
  destruct (p <? q) eqn:E; [apply Z.ltb_lt in E | apply Z.ltb_ge in E].
  - apply Z.ltb_lt. apply Z.mul_lt_mono_pos_r; assumption.
  - apply Z.ltb_ge. apply Z.mul_le_mono_nonneg_r; lia.
Qed.

Lemma fis_zero_value (m e q : Z) :
  m * pnum e = q * pden e -> fis_zero (Fin m e) = (q =? 0).
Proof.
  intros H. unfold fis_zero.
  pose proof (pden_pos e) as Hd. pose proof (pnum_pos e) as Hn.
  destruct (q =? 0) eqn:E; [apply Z.eqb_eq in E | apply Z.eqb_neq in E].
  - apply Z.eqb_eq. subst q. nia.
  - apply Z.eqb_neq. intros ->. apply E. nia.
Qed.

Lemma fadd_exact (m1 e1 m2 e2 p q : Z) :
  m1 * pnum e1 = p * pden e1 ->
  m2 * pnum e2 = q * pden e2 ->
  Z.abs (p + q) <= 2 ^ 53 ->
  exists m e : Z,
    fadd (Fin m1 e1) (Fin m2 e2) = Fin m e /\ m * pnum e = (p + q) * pden e.
Proof.
  intros H1 H2 Hs. unfold fadd, fneg.
  replace (p + q) with (p - - q) in * by lia.
  apply (fsub_exact m1 e1 (- m2) e2 p (- q) H1 (fneg_value _ _ _ H2) Hs).
Qed.

(** C's [fmod] of two integer floats is the remainder of the truncating
    division. *)
Lemma fmod_exact (m1 e1 m2 e2 p c : Z) :
  m1 * pnum e1 = p * pden e1 ->
  m2 * pnum e2 = c * pden e2 ->
  0 < c <= 2 ^ 53 ->
  exists m e : Z,
    fmod (Fin m1 e1) (Fin m2 e2) = Fin m e
    /\ m * pnum e = Z.rem p c * pden e.
Proof.
  intros H1 H2 Hc. unfold fmod.
  change (fnum (Fin m1 e1)) with (m1 * pnum e1).
  change (fnum (Fin m2 e2)) with (m2 * pnum e2).
  change (fden (Fin m1 e1)) with (pden e1).
  change (fden (Fin m2 e2)) with (pden e2).
  rewrite H1, H2.
  pose proof (pden_pos e1) as Hd1. pose proof (pden_pos e2) as Hd2.
  set (D := pden e1 * pden e2).
  assert (HD : 0 < D) by (unfold D; nia).
  assert (Ha : Z.abs (p * pden e1) * pden e2 = Z.abs p * D).
  { rewrite Z.abs_mul, (Z.abs_eq (pden e1)) by lia. unfold D. ring. }
  assert (Hb : Z.abs (c * pden e2) * pden e1 = c * D).
  { rewrite Z.abs_mul, (Z.abs_eq (pden e2)), (Z.abs_eq c) by lia.
    unfold D. ring. }
  rewrite Ha, Hb, Z.mul_mod_distr_r by lia.
  assert (Hs : Z.sgn (p * pden e1) = Z.sgn p).
  { rewrite Z.sgn_mul, (Z.sgn_pos (pden e1)) by lia. ring. }
  rewrite Hs.
  assert (Hrem : Z.sgn p * (Z.abs p mod c) = Z.rem p c).
  { destruct (Z.le_gt_cases 0 p) as [Hp|Hp].
    - rewrite Z.abs_eq by lia. rewrite Z.rem_mod_nonneg by lia.
      destruct (Z.eq_dec p 0) as [->|Hne]; [reflexivity|].
      rewrite Z.sgn_pos by lia. ring.
    - rewrite Z.abs_neq by lia. rewrite Z.sgn_neg by lia.
      replace p with (- - p) at 2 by lia.
      rewrite Z.rem_opp_l by lia.
      rewrite Z.rem_mod_nonneg by lia. ring. }
  replace (Z.sgn p * (Z.abs p mod c * D)) with (Z.rem p c * D)
    by (rewrite <- Hrem; ring).
  assert (Hbound : Z.abs (Z.rem p c) < c).
  { pose proof (Z.rem_bound_abs p c ltac:(lia)) as Hb'.
    rewrite (Z.abs_eq c) in Hb' by lia. exact Hb'. }
  destruct (round64_signed_exact (Z.rem p c * D) D (Z.abs (Z.rem p c)) 0
              HD ltac:(lia) ltac:(lia)) as (m & e & Hr & Hv).
  { change (pden 0) with 1. change (pnum 0) with 1.
    rewrite Z.abs_mul, (Z.abs_eq D) by lia. ring. }
  exists m, e. split; [exact Hr|].
  apply (Z.mul_cancel_r _ _ D); [lia|]. rewrite Hv. ring.
Qed.

(** The quotient of two integer floats, when it is an integer. *)
Lemma fdiv_exact (m1 e1 m2 e2 p c q : Z) :
  m1 * pnum e1 = p * pden e1 ->
  m2 * pnum e2 = c * pden e2 ->
  0 < c -> p = q * c -> Z.abs q <= 2 ^ 53 ->
  exists m e : Z,
    fdiv (Fin m1 e1) (Fin m2 e2) = Fin m e /\ m * pnum e = q * pden e.
Proof.
  intros H1 H2 Hc Hpq Hq. unfold fdiv.
  change (2 ^ Z.max e1 0) with (pnum e1).
  change (2 ^ Z.max (- e1) 0) with (pden e1).
  change (2 ^ Z.max e2 0) with (pnum e2).
  change (2 ^ Z.max (- e2) 0) with (pden e2).
  pose proof (pden_pos e1) as Hd1. pose proof (pden_pos e2) as Hd2.
  pose proof (pnum_pos e2) as Hn2.
  assert (Hm2 : 0 < m2) by nia.
  rewrite Z.sgn_pos, Z.abs_eq, Z.mul_1_r by lia.
  rewrite H1, H2.
  set (A := p * pden e1 * pden e2).
  set (B := pden e1 * (c * pden e2)).
  assert (HB : 0 < B) by (unfold B; nia).
  assert (HAB : A = q * B) by (unfold A, B; rewrite Hpq; ring).
  destruct (round64_signed_exact A B (Z.abs q) 0 HB ltac:(lia) ltac:(lia))
    as (m & e & Hr & He).
  { change (pden 0) with 1. change (pnum 0) with 1.
    rewrite HAB, Z.abs_mul, (Z.abs_eq B) by lia. ring. }
  exists m, e. split; [exact Hr|].
  apply (Z.mul_cancel_r _ _ B); [lia|]. rewrite He, HAB. ring.
Qed.

(** The floor of an integer float is the float. *)
Lemma ffloor_exact (m e q : Z) :
  m * pnum e = q * pden e -> Z.abs q <= 2 ^ 53 ->
  exists m' e' : Z,
    ffloor (Fin m e) = Fin m' e' /\ m' * pnum e' = q * pden e'.
Proof.
  intros Hv Hq. unfold ffloor.
  change (fnum (Fin m e)) with (m * pnum e).
  change (fden (Fin m e)) with (pden e).
  rewrite Hv, Z.div_mul by (pose proof (pden_pos e); lia).
  apply (float_of_int_exact q Hq).
Qed.

Lemma quot_rem_floor (n c : Z) :
  0 < c ->
  n = c * Z.quot n c + Z.rem n c
  /\ Z.abs (Z.rem n c) < c
  /\ Z.abs (Z.quot n c) <= Z.abs n
  /\ Z.abs (n - Z.rem n c) <= Z.abs n
  /\ (Z.rem n c < 0 ->
      n / c = Z.quot n c - 1 /\ n mod c = Z.rem n c + c /\ 2 <= c)
  /\ (0 <= Z.rem n c -> n / c = Z.quot n c /\ n mod c = Z.rem n c).
Proof.
  intros Hc.
  pose proof (Z.quot_rem' n c) as Hqr.
  assert (Hb : Z.abs (Z.rem n c) < c).
  { pose proof (Z.rem_bound_abs n c ltac:(lia)) as H.
    rewrite (Z.abs_eq c) in H by lia. exact H. }
  assert (Hsgn : 0 <= Z.rem n c * n) by (apply Z.rem_sign_mul; lia).
  split; [exact Hqr|]. split; [exact Hb|].
  assert (Hsigns : (0 <= n /\ 0 <= Z.quot n c /\ 0 <= Z.rem n c)
                   \/ (n < 0 /\ Z.quot n c <= 0 /\ Z.rem n c <= 0)).
  { destruct (Z.le_gt_cases 0 n) as [Hn|Hn]; [left | right].
    - split; [exact Hn|]. split; [apply Z.quot_pos | apply Z.rem_nonneg]; lia.
    - split; [exact Hn|]. split.
      + replace n with (- - n) by lia. rewrite Z.quot_opp_l by lia.
        assert (0 <= Z.quot (- n) c) by (apply Z.quot_pos; lia). lia.
      + replace n with (- - n) by lia. rewrite Z.rem_opp_l by lia.
        assert (0 <= Z.rem (- n) c) by (apply Z.rem_nonneg; lia). lia. }
  split; [|split; [|split]].
  - destruct Hsigns as [(Hn & Hq & Hr)|(Hn & Hq & Hr)].
    + rewrite (Z.abs_eq n), Z.abs_eq by lia. nia.
    + rewrite (Z.abs_neq n), Z.abs_neq by lia. nia.
  - destruct Hsigns as [(Hn & Hq & Hr)|(Hn & Hq & Hr)].
    + assert (0 <= c * Z.quot n c) by (apply Z.mul_nonneg_nonneg; lia).
      rewrite (Z.abs_eq n), Z.abs_eq by lia. lia.
    + assert (c * Z.quot n c <= 0) by (apply Z.mul_nonneg_nonpos; lia).
      rewrite (Z.abs_neq n), Z.abs_neq by lia. lia.
  - intros Hneg.
    assert (H1 : n / c = Z.quot n c - 1).
    { symmetry. apply (Z.div_unique n c _ (Z.rem n c + c)); lia. }
    assert (H2 : n mod c = Z.rem n c + c).
    { symmetry. apply (Z.mod_unique n c (Z.quot n c - 1)); lia. }
    split; [exact H1|]. split; [exact H2|]. lia.
  - intros Hpos.
    split; symmetry.
    + apply (Z.div_unique n c _ (Z.rem n c)); lia.
    + apply (Z.mod_unique n c (Z.quot n c)); lia.
Qed.

(** numpy's floor division and remainder of an integer float, up to
    [2^53], by a positive integer are those of the integers. *)
Lemma np_divmod_exact (m1 e1 n c : Z) :
  m1 * pnum e1 = n * pden e1 -> Z.abs n <= 2 ^ 53 -> 0 < c <= 2 ^ 53 ->
  exists m e m' e' : Z,
    np_divmod (Fin m1 e1) (float_of_int c) = (Fin m e, Fin m' e')
    /\ m * pnum e = (n / c) * pden e
    /\ m' * pnum e' = (n mod c) * pden e'.
Proof.
  intros Hv Hn Hc.
  destruct (quot_rem_floor n c ltac:(lia))
    as (Hqr & Hrb & Hqb & Hsb & Hneg & Hpos).
  set (T := Z.quot n c) in *. set (R := Z.rem n c) in *.
  destruct (float_of_int_exact c ltac:(rewrite Z.abs_eq; lia))
    as (m2 & e2 & Hfc & Hv2).
  destruct (float_of_int_exact 1 ltac:(apply Z.leb_le; reflexivity))
    as (mo & eo & Hf1 & Hv1).
  unfold np_divmod. rewrite Hfc, Hf1.
  destruct (fmod_exact m1 e1 m2 e2 n c Hv Hv2 Hc) as (mr & er & Hmod & Hvr).
  fold R in Hvr. rewrite Hmod.
  destruct (fsub_exact m1 e1 mr er n R Hv Hvr ltac:(lia))
    as (ms & es & Hsub & Hvs).
  rewrite Hsub.
  destruct (fdiv_exact ms es m2 e2 (n - R) c T Hvs Hv2 ltac:(lia)
              ltac:(lia) ltac:(lia)) as (md & ed & Hdiv & Hvd).
  rewrite Hdiv.
  assert (Hz0 : 0 * pnum 0 = 0 * pden 0) by reflexivity.
  rewrite (fis_zero_value mr er R Hvr).
  rewrite (fltb_values m2 e2 0 0 c 0 Hv2 Hz0).
  rewrite (fltb_values mr er 0 0 R 0 Hvr Hz0).
  replace (c <? 0) with false by (symmetry; apply Z.ltb_ge; lia).
  assert (Hfloor : forall (mq eq q : Z),
             mq * pnum eq = q * pden eq -> Z.abs q <= 2 ^ 53 ->
             exists m e : Z,
               (if fis_zero (Fin mq eq) then Fin 0 0
                else
                  if fltb (Fin 1 (- 1))
                          (fsub (Fin mq eq) (ffloor (Fin mq eq)))
                  then fadd (ffloor (Fin mq eq)) (Fin mo eo)
                  else ffloor (Fin mq eq)) = Fin m e
               /\ m * pnum e = q * pden e).
  { intros mq eq q Hq Hqb'.
    rewrite (fis_zero_value mq eq q Hq).
    destruct (q =? 0) eqn:E; [apply Z.eqb_eq in E; subst q|].
    - exists 0, 0. split; reflexivity.
    - destruct (ffloor_exact mq eq q Hq Hqb') as (mf & ef & -> & Hvf).
      destruct (fsub_exact mq eq mf ef q q Hq Hvf
                  ltac:(rewrite Z.sub_diag; apply Z.leb_le; reflexivity))
        as (mz & ez & -> & Hvz).
      rewrite Z.sub_diag, Z.mul_0_l in Hvz.
      assert (mz = 0).
      { pose proof (pnum_pos ez). nia. }
      subst mz.
      replace (fltb (Fin 1 (- 1)) (Fin 0 ez)) with false.
      + exists mf, ef. split; [reflexivity | exact Hvf].
      + symmetry. unfold fltb. apply Z.ltb_ge.
        change (fnum (Fin 0 ez)) with (0 * pnum ez).
        change (fnum (Fin 1 (- 1))) with 1.
        change (fden (Fin 0 ez)) with (pden ez).
        pose proof (pden_pos ez). lia. }
  destruct (R <? 0) eqn:ER; [apply Z.ltb_lt in ER | apply Z.ltb_ge in ER].
  - replace (R =? 0) with false by (symmetry; apply Z.eqb_neq; lia).
    cbn [negb andb xorb].
    destruct (Hneg ER) as (Hd & Hm & Hc2).
    destruct (fadd_exact mr er m2 e2 R c Hvr Hv2 ltac:(lia))
      as (ma & ea & Hadd & Hva).
    assert (HT1 : Z.abs (T - 1) <= 2 ^ 53).
    { assert (2 * Z.abs T <= Z.abs n) by nia.
      assert (1 <= 2 ^ 53) by (apply Z.leb_le; reflexivity). lia. }
    destruct (fsub_exact md ed mo eo T 1 Hvd Hv1 HT1)
      as (mq & eq & Hsub1 & Hvq).
    rewrite Hadd, Hsub1. cbv beta iota zeta.
    destruct (Hfloor mq eq (T - 1) Hvq HT1) as (m & e & Hfl & Hvfl).
    exists m, e, ma, ea. rewrite Hfl. split; [reflexivity|].
    rewrite Hd, Hm. split; assumption.
  - destruct (Hpos ER) as (Hd & Hm).
    replace (negb (R =? 0) && xorb false false) with false
      by (destruct (R =? 0); reflexivity).
    cbv beta iota zeta.
    destruct (Hfloor md ed T Hvd ltac:(lia)) as (m & e & Hfl & Hvfl).
    exists m, e, mr, er. rewrite Hfl. split; [reflexivity|].
    rewrite Hd, Hm. split; assumption.
Qed.

Lemma str_int_negative (q : Z) :
  q < 0 -> str_int q = String "-" (str_int (- q)).
Proof. intros H. destruct q; [lia | lia | reflexivity]. Qed.

(** An integer float prints as the integer followed by [.0]. *)
Lemma fstr_round1_integer (m e q : Z) :
  m * pnum e = q * pden e -> 0 <= q < 10 ^ 16 ->
  fstr_round1 (Fin m e) = (str_int q ++ ".0")%string.
Proof.
  intros Hv Hq. unfold fstr_round1, round1_tenths.
  change (fnum (Fin m e)) with (m * pnum e).
  change (fden (Fin m e)) with (pden e).
  pose proof (pden_pos e) as Hd.
  rewrite (rne_div_nearest (10 * (m * pnum e)) (pden e) (10 * q) Hd)
    by (rewrite Hv; lia).
  assert (Hlt : 10 * q < 10 ^ 17).
  { change (10 ^ 17) with (10 * 10 ^ 16). lia. }
  apply Z.ltb_lt in Hlt. rewrite Hlt.
  rewrite (Z.mul_comm 10 q), Z.div_mul, Z.mod_mul by lia. reflexivity.
Qed.

Lemma fstr_integer (m e q : Z) :
  m * pnum e = q * pden e -> Z.abs q < 10 ^ 16 ->
  fstr (Fin m e) = (str_int q ++ ".0")%string.
Proof.
  intros Hv Hq. unfold fstr.
  rewrite (fltb_values m e 0 0 q 0 Hv ltac:(reflexivity)).
  destruct (q <? 0) eqn:E; [apply Z.ltb_lt in E | apply Z.ltb_ge in E].
  - unfold fneg.
    rewrite (fstr_round1_integer (- m) e (- q) (fneg_value _ _ _ Hv))
      by lia.
    rewrite (str_int_negative q E). reflexivity.
  - apply fstr_round1_integer; [exact Hv | lia].
Qed.

(** What numpy's [round(x, 1)] returns for the quotient of an [int64] above
    one million is not negative. *)
Lemma np_round1_not_negative (n : Z) :
  1000000 < n -> n < 2 ^ 63 ->
  fltb (np_round1 (fdiv (float_of_int n) (float_of_int 1000000))) (Fin 0 0)
  = false.
Proof.
  intros Hlo Hhi.
  assert (H53 : 0 < 1000000 <= 2 ^ 53)
    by (split; [lia | apply Z.leb_le; reflexivity]).
  destruct (float_of_int64_error n 1000000 H53 ltac:(lia) Hhi)
    as (m1 & e1 & Hf & Hv1 & Herr1).
  assert (H44 : 1 <= 2 ^ 44 /\ 10 * 2 ^ 44 <= 2 ^ 53
                /\ 2 ^ 63 <= 2 ^ 44 * 1000000)
    by (repeat split; apply Z.leb_le; reflexivity).
  destruct H44 as (H44a & H44b & H44c).
  pose proof (pden_pos e1) as Hd1.
  assert (Hv1' : 1000000 * pden e1 <= m1 * pnum e1
                 <= 2 ^ 44 * 1000000 * pden e1).
  { split; [lia|]. apply Z.le_trans with (2 ^ 63 * pden e1); [lia|].
    apply Z.mul_le_mono_nonneg_r; lia. }
  destruct (np_tenths_error n m1 e1 (2 ^ 44) (2 ^ 10) H44a H44b
              ltac:(apply Z.pow_nonneg; lia) Hv1' Herr1)
    as (m & e & Hy & Hv & _).
  rewrite <- Hf in Hy.
  destruct (np_round1_tenths _ m e (2 ^ 44) ltac:(lia) Hy Hv)
    as (_ & HK & _ & _).
  unfold np_round1. rewrite Hy.
  set (K := rne_div (m * pnum e) (pden e)) in *.
  change (rne_div (fnum (Fin m e)) (fden (Fin m e))) with K.
  unfold round64_signed.
  replace (K <? 0) with false by (symmetry; apply Z.ltb_ge; lia).
  assert (HM : 2 ^ 52 <= 2 ^ 53 - 1 < 2 ^ 53)
    by (split; [apply Z.leb_le | apply Z.ltb_lt]; reflexivity).
  assert (Hh : 2 * (K * pden (- 5))
               < (2 * (2 ^ 53 - 1) + 1) * (10 * pnum (- 5))).
  { change (pden (- 5)) with 32. change (pnum (- 5)) with 1.
    assert (10 * 2 ^ 44 * 64 < (2 * (2 ^ 53 - 1) + 1) * 10)
      by (apply Z.ltb_lt; reflexivity).
    lia. }
  destruct (round64_upper K 10 (2 ^ 53 - 1) (- 5)
              ltac:(lia) ltac:(lia) HM ltac:(lia) Hh)
    as (m' & e' & -> & _ & Hm' & _).
  unfold fltb. apply Z.ltb_ge.
  change (fnum (Fin 0 0)) with 0. change (fden (Fin 0 0)) with 1.
  change (fnum (Fin m' e')) with (m' * pnum e').
  pose proof (pnum_pos e'). nia.
Qed.

(** [format_number] on a float64 cell that holds an integer [n], up to
    [2^53] either way (a population difference computed on series of
    different lengths): the floor divisions are those of the integers, and
    their results print as floats, ["700.0 K"] and ["2.0 M"]; a number above
    one million that is not a multiple of it is printed as for an
    [int64]. *)
Theorem format_number_float64_cell :
  forall n : Z,
    Z.abs n <= 2 ^ 53 ->
    (n <= 1000000 ->
       format_number_float64 (float_of_int n)
       = (str_int (n / 1000) ++ ".0 K")%string)
    /\ (1000000 < n -> n mod 1000000 = 0 ->
       format_number_float64 (float_of_int n)
       = (str_int (n / 1000000) ++ ".0 M")%string)
    /\ (1000000 < n -> n mod 1000000 <> 0 ->
       format_number_float64 (float_of_int n) = format_number_int64 n)
    /\ format_number_float64 (float_of_int 700000) = "700.0 K"%string
    /\ format_number_float64 (float_of_int (- 60500)) = "-61.0 K"%string
    /\ format_number_float64 (float_of_int 2000000) = "2.0 M"%string.
Proof.
  intros n Hn.
  assert (H53 : 2 ^ 53 = 9007199254740992) by reflexivity.
  assert (H16 : 10 ^ 16 = 10000000000000000) by reflexivity.
  destruct (float_of_int_exact n Hn) as (m1 & e1 & Hf & Hv).
  destruct (float_of_int_exact 1000000 ltac:(apply Z.leb_le; reflexivity))
    as (m6 & e6 & Hf6 & Hv6).
  assert (Hgt : fltb (float_of_int 1000000) (float_of_int n)
                = (1000000 <? n)).
  { rewrite Hf, Hf6. apply (fltb_values m6 e6 m1 e1 1000000 n Hv6 Hv). }
  destruct (np_divmod_exact m1 e1 n 1000 Hv Hn ltac:(lia))
    as (mk & ek & mk' & ek' & Hk & Hkq & Hkr).
  destruct (np_divmod_exact m1 e1 n 1000000 Hv Hn ltac:(lia))
    as (mm & em & mm' & em' & Hm & Hmq & Hmr).
  split; [|split; [|split]].
  - intros Hle. unfold format_number_float64. rewrite Hgt.
    replace (1000000 <? n) with false by (symmetry; apply Z.ltb_ge; lia).
    rewrite Hf, Hk. cbn [fst].
    rewrite (fstr_integer mk ek (n / 1000) Hkq).
    + rewrite append_assoc. reflexivity.
    + pose proof (Z.div_mod n 1000 ltac:(lia)).
      pose proof (Z.mod_pos_bound n 1000 ltac:(lia)). lia.
  - intros Hlt Hmod. unfold format_number_float64. rewrite Hgt.
    replace (1000000 <? n) with true by (symmetry; apply Z.ltb_lt; lia).
    rewrite Hf, Hm. cbn [fst snd].
    rewrite (fis_zero_value mm' em' (n mod 1000000) Hmr), Hmod.
    change (0 =? 0) with true. cbv iota.
    rewrite (fstr_integer mm em (n / 1000000) Hmq).
    + rewrite append_assoc. reflexivity.
    + pose proof (Z.div_mod n 1000000 ltac:(lia)).
      pose proof (Z.mod_pos_bound n 1000000 ltac:(lia)). lia.
  - intros Hlt Hmod. unfold format_number_float64, format_number_int64.
    rewrite Hgt.
    replace (1000000 <? n) with true by (symmetry; apply Z.ltb_lt; lia).
    rewrite <- Hf in Hm. rewrite Hm. cbn [snd].
    rewrite (fis_zero_value mm' em' (n mod 1000000) Hmr).
    replace (n mod 1000000 =? 0) with false
      by (symmetry; apply Z.eqb_neq; exact Hmod).
    unfold fstr at 1.
    rewrite (np_round1_not_negative n Hlt).
    + reflexivity.
    + assert (2 ^ 53 < 2 ^ 63) by (apply Z.ltb_lt; reflexivity). lia.
  - repeat split; vm_compute; reflexivity.
Qed.

Lemma format_number_float64_cell_witness :
  format_number_float64 (float_of_int 37254523) = format_number_int64 37254523.
Proof.
  destruct (format_number_float64_cell 37254523) as (_ & _ & H & _).
  - apply Z.leb_le. reflexivity.
  - apply H; [lia | vm_compute; discriminate].
Defined.

